(** * PPO for continuous control (ppo_continuous_action.py)

  A shallow embedding of the training algorithm of
  [purejaxrl/ppo_continuous_action.py]: the derived configuration of
  [make_train], the learning-rate schedule, the GAE backward scan, the
  minibatch scheduler, the clipped-surrogate loss, the two diagnostics
  ([dormancy_rate], [threshold_grad_second_moment]) and the training
  driver with its nested [jax.lax.scan] loops.

  Numbers.  Python integers are [Z]; [//] is floor division and raises
  [ZeroDivisionError] on a zero divisor.  Array scalars are exact
  rationals [Q]: rounding is not modelled.  In the two diagnostics,
  whose divisors can be zero, the IEEE special values are modelled
  explicitly by the type [fl] (finite, +inf, -inf, nan), because the
  comparisons of the diagnostics observe them.

  Arrays.  An array is the list of its entries along the leading axis;
  a batch of transitions is the list of its samples.

  Execution.  A run is a computation in [M]: it executes events (an
  environment step, an optimizer step) and returns or raises.  [main]
  runs the training function under [jax.disable_jit(DISABLE_JIT)]:
  either eagerly, each scan a Python loop, or traced once by [jax.jit]
  and then run compiled.

  The libraries (jax.random, the network and its distribution, the
  environment, jax.grad, optax) are the fields of the class
  [Externals]. *)

From Stdlib Require Import String.
From Stdlib Require Import ZArith QArith Qminmax Qabs List Bool Lia Lqa.
From Stdlib Require Import Permutation.
Import ListNotations.

Set Implicit Arguments.

(* ===================================================================== *)
(** * Python-level values and errors *)
(* ===================================================================== *)

Inductive error : Type :=
| ZeroDivisionError
| AssertionError
| ValueError.

Module Py.

(** [a // b] on Python integers. *)
Definition floordiv (a b : Z) : error + Z :=
  if (b =? 0)%Z then inl ZeroDivisionError else inr (a / b)%Z.

Definition bind {A B : Type} (m : error + A) (k : A -> error + B) : error + B :=
  match m with
  | inl e => inl e
  | inr a => k a
  end.

End Py.

(* ===================================================================== *)
(** * Configuration *)
(* ===================================================================== *)

(** The keys of the configuration dictionary that the algorithm reads. *)
Record config : Type := {
TOTAL_TIMESTEPS : Z;
NUM_STEPS : Z;
NUM_ENVS : Z;
NUM_MINIBATCHES : Z;
UPDATE_EPOCHS : Z;
LR : Q;
ANNEAL_LR : bool;
GAMMA : Q;
GAE_LAMBDA : Q;
CLIP_EPS : Q;
ENT_COEF : Q;
VF_COEF : Q;
TAU : Q;
DISABLE_JIT : bool
}.

(** The dictionary after [make_train] has stored its two derived keys. *)
Record train_config : Type := {
base :> config;
NUM_UPDATES : Z;
MINIBATCH_SIZE : Z
}.

(** Lines 126-131: the two derived keys, in the order the source computes
  them.  [a // b // c] parses as [(a // b) // c] and [a * b // c] as
  [(a * b) // c]. *)
Definition make_train (c : config) : error + train_config :=
Py.bind (Py.floordiv (TOTAL_TIMESTEPS c) (NUM_STEPS c)) (fun q =>
Py.bind (Py.floordiv q (NUM_ENVS c)) (fun num_updates =>
Py.bind (Py.floordiv (NUM_ENVS c * NUM_STEPS c) (NUM_MINIBATCHES c))
  (fun minibatch_size =>
inr {| base := c;
       NUM_UPDATES := num_updates;
       MINIBATCH_SIZE := minibatch_size |}))).

(* ===================================================================== *)
(** * Learning-rate schedule *)
(* ===================================================================== *)

Module Schedule.

(** Lines 140-146.  [count] is the optimizer's integer step counter;
    [//] on it is integer floor division, [/] is true division. *)
Definition linear_schedule (c : train_config) (count : Z) : Q :=
  let frac :=
    1 - inject_Z (count / (NUM_MINIBATCHES c * UPDATE_EPOCHS c))
        / inject_Z (NUM_UPDATES c) in
  LR c * frac.

(** Line 161: [lr = linear_schedule if config["ANNEAL_LR"] else config["LR"]];
    the value the optimizer uses at step [count]. *)
Definition learning_rate (c : train_config) (count : Z) : Q :=
  if ANNEAL_LR c then linear_schedule c count else LR c.

(** Number of optimizer steps in one update step. *)
Definition steps_per_update (c : train_config) : Z :=
  NUM_MINIBATCHES c * UPDATE_EPOCHS c.

End Schedule.

(* ===================================================================== *)
(** * Array values *)
(* ===================================================================== *)

(** The result of a true division of array values, and what a comparison
    sees of it: a finite rational or one of the IEEE special values. *)
Inductive fl : Type :=
| Fin (q : Q)
| PInf
| NInf
| NaN.

Module Num.

Definition sum (l : list Q) : Q := fold_right Qplus 0 l.

Definition len {A : Type} (l : list A) : Q := inject_Z (Z.of_nat (length l)).

(** [x / y] on finite array values: a zero divisor gives an infinity of
    the sign of [x], and [0 / 0] is nan. *)
Definition fdiv (x y : Q) : fl :=
  if Qeq_bool y 0 then
    (if Qeq_bool x 0 then NaN
     else if Qle_bool 0 x then PInf else NInf)
  else Fin (x / y).

(** [a / b] where either side may already be special. *)
Definition fl_div (a b : fl) : fl :=
  match a, b with
  | NaN, _ | _, NaN => NaN
  | Fin x, Fin y => fdiv x y
  | Fin _, _ => Fin 0
  | PInf, Fin y => if Qle_bool 0 y then PInf else NInf
  | NInf, Fin y => if Qle_bool 0 y then NInf else PInf
  | _, _ => NaN
  end.

(** [a <= t]: every comparison with nan is false. *)
Definition fl_leb (a : fl) (t : Q) : bool :=
  match a with
  | Fin x => Qle_bool x t
  | NInf => true
  | PInf => false
  | NaN => false
  end.

(** [jnp.mean] of an array given by its entries: nan on an empty array. *)
Definition fmean (l : list Q) : fl := fdiv (sum l) (len l).

(** [jnp.mean] where the axis is known to be non-empty by the shape. *)
Definition mean (l : list Q) : Q := sum l / len l.

(** [jnp.mean] of a boolean array: [True] counts 1, [False] counts 0. *)
Definition b2q (b : bool) : Q := if b then 1 else 0.

Definition fmean_bool (l : list bool) : fl := fmean (map b2q l).

(** [jnp.clip(x, lo, hi)] is [minimum(maximum(x, lo), hi)]. *)
Definition clip (x lo hi : Q) : Q := Qmin (Qmax x lo) hi.

Definition square (x : Q) : Q := x * x.

Definition is_finite (a : fl) : bool :=
  match a with
  | Fin _ => true
  | _ => false
  end.

End Num.

Module Arr.

(** Elementwise binary operation on two arrays of one shape. *)
Fixpoint map2 {A B C : Type} (f : A -> B -> C) (xs : list A) (ys : list B)
  : list C :=
  match xs, ys with
  | x :: xs', y :: ys' => f x y :: map2 f xs' ys'
  | _, _ => []
  end.

(** The trailing-axis slices of a matrix given by its rows:
    [vmap(f, in_axes=-1)] applies [f] to each of them.  The width is the
    length of the first row. *)
Definition column (A : Type) (j : nat) (rows : list (list A)) : list A :=
  flat_map (fun r => match nth_error r j with
                     | Some x => [x]
                     | None => []
                     end) rows.

Definition width (A : Type) (rows : list (list A)) : nat :=
  match rows with
  | [] => 0%nat
  | r :: _ => length r
  end.

Definition columns (A : Type) (rows : list (list A)) : list (list A) :=
  map (fun j => column j rows) (seq 0 (width rows)).

(** [jnp.take(x, idx, axis=0)]; every index of a permutation is in range. *)
Definition take (A : Type) (x : list A) (idx : list nat) : list A :=
  flat_map (fun i => match nth_error x i with
                     | Some a => [a]
                     | None => []
                     end) idx.

(** Consecutive slices of [size] entries, [n] of them. *)
Fixpoint chunks (A : Type) (n size : nat) (x : list A) : list (list A) :=
  match n with
  | O => []
  | S n' => firstn size x :: chunks n' size (skipn size x)
  end.

(** [jnp.reshape(x, [n, -1] + x.shape[1:])]: [n] consecutive slices of
    [len(x) / n] entries. *)
Definition reshape_rows (A : Type) (n : nat) (x : list A) : list (list A) :=
  chunks n (length x / n) x.

(** [x.reshape((batch_size,) + x.shape[2:])] of an array whose two leading
    axes hold [batch_size] entries: row-major flattening. *)
Definition flatten2 (A : Type) (x : list (list A)) : list A := concat x.

End Arr.

(** [jax.lax.scan(f, init, xs)] and its [reverse=True] form.  The stacked
    outputs keep the positions of the inputs in both directions. *)
Module Lax.

Fixpoint scan {C X Y : Type} (f : C -> X -> C * Y) (init : C) (xs : list X)
  : C * list Y :=
  match xs with
  | [] => (init, [])
  | x :: xs' =>
      let '(c, y) := f init x in
      let '(c', ys) := scan f c xs' in
      (c', y :: ys)
  end.

Fixpoint scan_reverse {C X Y : Type} (f : C -> X -> C * Y) (init : C)
  (xs : list X) : C * list Y :=
  match xs with
  | [] => (init, [])
  | x :: xs' =>
      let '(c, ys) := scan_reverse f init xs' in
      let '(c', y) := f c x in
      (c', y :: ys)
  end.

End Lax.

(* ===================================================================== *)
(** * Transitions *)
(* ===================================================================== *)

(** One recorded environment step of one environment instance (lines
    80-87).  A batch of transitions is the list of its samples: the
    arrays of the source share their leading axes, and every operation
    the source applies leaf by leaf ([reshape], [take], the slicing of
    [scan] and [vmap]) acts on those axes only. *)
Record Transition (Action Obs Info : Type) : Type := {
done : bool;
action : Action;
value : Q;
reward : Q;
log_prob : Q;
obs : Obs;
info : Info
}.

(* ===================================================================== *)
(** * Generalised advantage estimation *)
(* ===================================================================== *)

Module GAE.

Section Estimator.

Variables Action Obs Info : Type.
Variable c : config.

Local Abbreviation step := (list (Transition Action Obs Info)).

(** [1 - done] on a boolean array entry. *)
Definition not_done (d : bool) : Q := 1 - Num.b2q d.

(** Lines 216-220 for one environment instance. *)
Definition advantage_cell (gae next_value : Q) (t : Transition Action Obs Info)
  : Q :=
  let delta := reward t + GAMMA c * next_value * not_done (done t) - value t in
  delta + GAMMA c * GAE_LAMBDA c * not_done (done t) * gae.

(** Lines 209-221: the scanned function, elementwise over the
    environment axis. *)
Definition _get_advantages (gae_and_next_value : list Q * list Q)
  (transition : step) : (list Q * list Q) * list Q :=
  let '(gae, next_value) := gae_and_next_value in
  let gae' :=
    Arr.map2 (fun gv t => advantage_cell (fst gv) (snd gv) t)
      (combine gae next_value) transition in
  ((gae', map (@value _ _ _) transition), gae').

Definition zeros_like (v : list Q) : list Q := map (fun _ => 0) v.

(** Lines 208-230. *)
Definition _calculate_gae (traj_batch : list step) (last_val : list Q)
  : list (list Q) * list (list Q) :=
  let '(_, advantages) :=
    Lax.scan_reverse _get_advantages (zeros_like last_val, last_val)
      traj_batch in
  (advantages,
   Arr.map2 (Arr.map2 Qplus) advantages
     (map (map (@value _ _ _)) traj_batch)).

(** The recursion as the specification words it, for the steps of one
    environment instance, earliest first:
      delta_t = reward_t + GAMMA * V_{t+1} * (1 - done_t) - value_t
      gae_t   = delta_t + GAMMA * GAE_LAMBDA * (1 - done_t) * gae_{t+1}
    with [gae_{T+1} = 0] and [V_{T+1}] the bootstrap value. *)
Definition next_value (rest : list (Transition Action Obs Info))
  (bootstrap : Q) : Q :=
  match rest with
  | [] => bootstrap
  | t' :: _ => value t'
  end.

Fixpoint recursion (col : list (Transition Action Obs Info)) (bootstrap : Q)
  : list Q :=
  match col with
  | [] => []
  | t :: rest =>
      let gae_next := hd 0 (recursion rest bootstrap) in
      let delta :=
        reward t + GAMMA c * next_value rest bootstrap * (1 - Num.b2q (done t))
        - value t in
      (delta + GAMMA c * GAE_LAMBDA c * (1 - Num.b2q (done t)) * gae_next)
      :: recursion rest bootstrap
  end.

(** What the carry of the backward scan holds for one environment after
    the steps [col] have been processed: the advantage of the earliest of
    them, or 0 when there is none. *)
Definition head_gae (col : list (Transition Action Obs Info)) (bootstrap : Q)
  : Q :=
  hd 0 (recursion col bootstrap).

End Estimator.

End GAE.

(* ===================================================================== *)
(** * Instrumentation *)
(* ===================================================================== *)

(** A pytree with named leaves (a [dict]); [jax.tree_map] maps the
    leaves and keeps the names. *)
Definition tree (A : Type) : Type := list (string * A).

Definition tree_map {A B : Type} (f : A -> B) (t : tree A) : tree B :=
  map (fun kv => (fst kv, f (snd kv))) t.

Module Instrumentation.

(** Lines 91-104.  The array is given by its rows (all leading axes) of
    neurons (the trailing axis). *)
Definition _layer_dormancy (tau : Q) (activations : list (list Q)) : fl :=
  let activations := map (map Qabs) activations in
  let layer_mean := Num.fmean (concat activations) in
  let _batch_dormant (activations : list Q) : bool :=
    Num.fl_leb (Num.fl_div (Num.fmean activations) layer_mean) tau in
  let neuron_dormant := map _batch_dormant (Arr.columns activations) in
  Num.fmean_bool neuron_dormant.

(** Lines 90-106. *)
Definition dormancy_rate (activations : tree (list (list Q))) (tau : Q)
  : tree fl :=
  tree_map (_layer_dormancy tau) activations.

(** Lines 110-120.  The rows are the entries of the leading axis, each
    flattened by [reshape(shape[0], -1)]. *)
Definition _threshold_grad_second_moment (zeta_abs : Q)
  (grad_second_moment : list (list Q)) : fl :=
  let gsm_mean := Num.fmean (concat grad_second_moment) in
  let _batch_threshold_grad_second_moment (grad_second_moment : list Q)
    : bool :=
    Num.fl_leb (Num.fl_div (Num.fmean grad_second_moment) gsm_mean) zeta_abs in
  let threshold_gsm :=
    map _batch_threshold_grad_second_moment (Arr.columns grad_second_moment) in
  Num.fmean_bool threshold_gsm.

(** The default of the keyword argument [zeta_abs]. *)
Definition zeta_abs_default : Q := 1 # 10.

(** Lines 109-122. *)
Definition threshold_grad_second_moment
  (grad_second_moment : tree (list (list Q))) (zeta_abs : Q) : tree fl :=
  tree_map (_threshold_grad_second_moment zeta_abs) grad_second_moment.

End Instrumentation.

(* ===================================================================== *)
(** * Execution: events and Python-level errors *)
(* ===================================================================== *)

(** What a run executes on the device: one vectorised environment step,
    one optimizer step. *)
Inductive event : Type :=
| EnvStep
| ApplyGradients.

(** A computation that executes events and then returns or raises. *)
Definition M (A : Type) : Type := (list event * (error + A))%type.

Definition ret {A : Type} (a : A) : M A := ([], inr a).

Definition raise {A : Type} (e : error) : M A := ([], inl e).

Definition emit (ev : event) : M unit := ([ev], inr tt).

Definition bind {A B : Type} (m : M A) (k : A -> M B) : M B :=
  match m with
  | (t, inl e) => (t, inl e)
  | (t, inr a) => let '(t', r) := k a in (t ++ t', r)
  end.

Declare Scope run_scope.
Delimit Scope run_scope with run.
Notation "x <- m ;; k" := (bind m (fun x => k))
  (at level 61, m at next level, right associativity) : run_scope.
Notation "' p <- m ;; k" := (bind m (fun x => let p := x in k))
  (at level 61, p pattern, m at next level, right associativity) : run_scope.
Notation "m ;;; k" := (bind m (fun _ => k))
  (at level 61, right associativity) : run_scope.

(** [assert cond]. *)
Definition py_assert (cond : bool) : M unit :=
  if cond then ret tt else raise AssertionError.

(** How [jax.lax.scan] runs: as a Python loop under [jax.disable_jit()],
    or as one compiled loop. *)
Inductive mode : Type :=
| Eager
| Compiled.

Module Scan.

Local Open Scope run_scope.

(** Under [disable_jit] a scan stacks the outputs of its Python loop and
    refuses an empty one; the compiled loop runs [length] times. *)
Definition guard (md : mode) (length : Z) : M unit :=
  match md with
  | Eager => if (length <=? 0)%Z then raise ValueError else ret tt
  | Compiled => ret tt
  end.

Fixpoint loop {C Y : Type} (f : C -> M (C * Y)) (init : C) (n : nat)
  : M (C * list Y) :=
  match n with
  | O => ret (init, [])
  | S n' =>
      ' (c, y) <- f init ;;
      ' (c', ys) <- loop f c n' ;;
      ret (c', y :: ys)
  end.

(** [jax.lax.scan(f, init, None, length)]. *)
Definition scan_length {C Y : Type} (md : mode) (f : C -> M (C * Y))
  (init : C) (length : Z) : M (C * list Y) :=
  guard md length ;;; loop f init (Z.to_nat length).

Fixpoint loop_xs {C X Y : Type} (f : C -> X -> M (C * Y)) (init : C)
  (xs : list X) : M (C * list Y) :=
  match xs with
  | [] => ret (init, [])
  | x :: xs' =>
      ' (c, y) <- f init x ;;
      ' (c', ys) <- loop_xs f c xs' ;;
      ret (c', y :: ys)
  end.

(** [jax.lax.scan(f, init, xs)]. *)
Definition scan_xs {C X Y : Type} (md : mode) (f : C -> X -> M (C * Y))
  (init : C) (xs : list X) : M (C * list Y) :=
  guard md (Z.of_nat (length xs)) ;;; loop_xs f init xs.

End Scan.

(* ===================================================================== *)
(** * External collaborators *)
(* ===================================================================== *)

(** Parameters and gradients: a pytree of tensors, each given by its
    entries. *)
Definition params : Type := tree (list Q).

(** The libraries and the environment the algorithm is written against:
    [jax.random], the policy-value network and its action distribution,
    the vectorised environment, [jax.grad], the optax transformation and
    the two transcendental functions of [jnp] the loss uses. *)
Class Externals : Type := {
Key : Type;
EnvState : Type;
Obs : Type;
Action : Type;
Info : Type;
Dist : Type;
OptState : Type;
split : Key -> Key * Key;
split_n : Key -> Z -> list Key;
random_permutation : Key -> nat -> list nat;
init_x : Obs;
network_init : Key -> Obs -> params;
network_apply : params -> Obs -> Dist * Q * tree (list Q);
dist_sample : list Dist -> Key -> list Action;
dist_log_prob : Dist -> Action -> Q;
dist_entropy : Dist -> Q;
env_reset : list Key -> list Obs * EnvState;
env_step : list Key -> EnvState -> list Action ->
           list Obs * EnvState * list Q * list bool * list Info;
grad : (params -> Q) -> params -> params;
tx_init : params -> OptState;
tx_update : params -> OptState -> params -> params * OptState;
apply_updates : params -> params -> params;
exp : Q -> Q;
sqrt : Q -> Q
}.

(** [flax.training.train_state.TrainState]. *)
Record TrainState {E : Externals} : Type := {
ts_step : Z;
ts_params : params;
ts_opt_state : OptState
}.

Definition TrainState_create {E : Externals} (p : params) : TrainState :=
  {| ts_step := 0; ts_params := p; ts_opt_state := tx_init p |}.

Definition apply_gradients {E : Externals} (s : TrainState) (grads : params)
  : TrainState :=
  let '(updates, new_opt_state) :=
    tx_update grads (ts_opt_state s) (ts_params s) in
  {| ts_step := ts_step s + 1;
     ts_params := apply_updates (ts_params s) updates;
     ts_opt_state := new_opt_state |}.

(* ===================================================================== *)
(** * The training function *)
(* ===================================================================== *)

(** What one sample contributes besides its total loss (line 275). *)
Record aux_losses : Type := {
value_loss : Q;
loss_actor : Q;
entropy : Q;
dormancies : tree fl
}.

(** What one minibatch pass returns besides the new state (line 293): the
    per-sample total losses and auxiliary losses, and the threshold rate
    of each gradient tensor. *)
Record loss_info : Type := {
total_loss : list Q;
auxiliary_losses : list aux_losses;
threshold_gsm : tree fl
}.

(** The metrics of one update step (lines 330-337): the [info] of the
    trajectory, and the diagnostics stacked by the epoch scan and the
    minibatch scan. *)
Record metric {E : Externals} : Type := {
m_info : list (list Info);
m_dormancy : list (list (list (tree fl)));
m_threshold_grad_second_moment : list (list (tree fl))
}.

Module Train.

Section Engine.

Context {E : Externals}.
Variable c : train_config.

Local Open Scope run_scope.

Local Abbreviation sample := (Transition Action Obs Info).

(** Applying a list of functions to a list of arguments, position by
    position: how a structure of arrays is read as an array of
    structures. *)
Definition zap {A B : Type} (fs : list (A -> B)) (xs : list A) : list B :=
  Arr.map2 (fun f x => f x) fs xs.

(** [x.mean()] and [x.std()] of line 238. *)
Definition std (x : list Q) : Q :=
  sqrt (Num.mean (map (fun a => Num.square (a - Num.mean x)) x)).

Definition normalize (advantages : list Q) : list Q :=
  map (fun a => (a - Num.mean advantages) / (std advantages + (1 # 100000000)))
    advantages.

(** [x.mean()] of a zero-dimensional array: under [vmap] the loss sees
    one sample. *)
Definition mean0 (x : Q) : Q := x.

(** Lines 256-267. *)
Definition actor_loss (log_prob_new : Q) (traj : sample) (gae : Q) : Q :=
  let ratio := exp (log_prob_new - log_prob traj) in
  let loss_actor1 := ratio * gae in
  let loss_actor2 :=
    Num.clip ratio (1 - CLIP_EPS c) (1 + CLIP_EPS c) * gae in
  let loss_actor := - Qmin loss_actor1 loss_actor2 in
  mean0 loss_actor.

(** Lines 246-253. *)
Definition critic_loss (value_new : Q) (traj : sample) (targets : Q) : Q :=
  let value_pred_clipped :=
    value traj + Num.clip (value_new - value traj) (- CLIP_EPS c) (CLIP_EPS c) in
  let value_losses := Num.square (value_new - targets) in
  let value_losses_clipped := Num.square (value_pred_clipped - targets) in
  (1 # 2) * mean0 (Qmax value_losses value_losses_clipped).

(** Lines 239-275, at the threshold [tau] ([config["TAU"]] in the
    source). *)
Definition _loss_fn_at (tau : Q) (p : params) (traj_batch : sample)
  (gae targets : Q) : Q * aux_losses :=
  let out := network_apply p (obs traj_batch) in
  let pi := fst (fst out) in
  let value_new := snd (fst out) in
  let activations := snd out in
  let dormancies :=
    Instrumentation.dormancy_rate (tree_map (fun a => [a]) activations) tau in
  let log_prob_new := dist_log_prob pi (action traj_batch) in
  let value_loss := critic_loss value_new traj_batch targets in
  let loss_actor := actor_loss log_prob_new traj_batch gae in
  let entropy := mean0 (dist_entropy pi) in
  let total_loss :=
    loss_actor + VF_COEF c * value_loss - ENT_COEF c * entropy in
  (total_loss,
   {| value_loss := value_loss;
      loss_actor := loss_actor;
      entropy := entropy;
      dormancies := dormancies |}).

Definition _loss_fn : params -> sample -> Q -> Q -> Q * aux_losses :=
  _loss_fn_at (TAU c).

(** [jax.value_and_grad(f, has_aux=True)]: the value is the whole result,
    the gradient is that of its first component. *)
Definition value_and_grad_aux {X : Type} (f : params -> Q * X) (p : params)
  : (Q * X) * params :=
  (f p, grad (fun p' => fst (f p')) p).

(** The leaf [j] of every per-sample gradient, stacked on the sample
    axis: the output of [vmap] is one tree of such stacks. *)
Definition leaf_at (j : nat) (t : params) : list Q :=
  match nth_error t j with
  | Some kv => snd kv
  | None => []
  end.

Definition stack (shape : params) (gs : list params) : tree (list (list Q)) :=
  Arr.map2 (fun kv j => (fst kv, map (leaf_at j) gs))
    shape (seq 0 (length shape)).

(** [jnp.mean(x, axis=0)] of a stacked leaf. *)
Definition mean_axis0 (x : list (list Q)) : list Q :=
  map Num.mean (Arr.columns x).

(** Lines 277-287: the per-sample losses and gradients, and the gradient
    handed to the optimizer. *)
Definition per_sample (tau : Q) (p : params)
  (batch : list (sample * Q * Q)) : list ((Q * aux_losses) * params) :=
  map (fun b => let '(t, a, g) := b in
                value_and_grad_aux (fun p' => _loss_fn_at tau p' t a g) p)
      batch.

Definition averaged_grads (p : params) (gs : list params) : params :=
  tree_map mean_axis0 (stack p gs).

(** Lines 236-293, at the two thresholds. *)
Definition _update_minbatch_at (tau zeta_abs : Q) (train_state : TrainState)
  (batch_info : list sample * list Q * list Q) : M (TrainState * loss_info) :=
  let '(traj_batch, advantages, targets) := batch_info in
  let advantages := normalize advantages in
  let out :=
    per_sample tau (ts_params train_state)
      (combine (combine traj_batch advantages) targets) in
  let total_loss := map fst out in
  let grads := stack (ts_params train_state) (map snd out) in
  let grad_second_moment := tree_map (map (map Num.square)) grads in
  let threshold_gsm :=
    Instrumentation.threshold_grad_second_moment grad_second_moment zeta_abs in
  let grads := tree_map mean_axis0 grads in
  emit ApplyGradients ;;;
  let train_state := apply_gradients train_state grads in
  ret (train_state,
       {| total_loss := map fst total_loss;
          auxiliary_losses := map snd total_loss;
          threshold_gsm := threshold_gsm |}).

Definition _update_minbatch
  : TrainState -> list sample * list Q * list Q -> M (TrainState * loss_info) :=
  _update_minbatch_at (TAU c) Instrumentation.zeta_abs_default.

End Engine.

(** The value [train] returns (line 369). *)
Record output {E : Externals} : Type := {
runner_state : TrainState * EnvState * list Obs * Key;
metrics : list metric
}.

Section Driver.

Context {E : Externals}.
Variable c : train_config.

Local Open Scope run_scope.

Local Abbreviation sample := (Transition Action Obs Info).

(** Line 297. *)
Definition batch_size : Z := MINIBATCH_SIZE c * NUM_MINIBATCHES c.

(** Lines 303-314 for one of the three arrays: flatten the two leading
    axes, reorder by the permutation, cut into [NUM_MINIBATCHES] rows. *)
Definition shuffle_and_split {A : Type} (permutation : list nat)
  (x : list (list A)) : list (list A) :=
  Arr.reshape_rows (Z.to_nat (NUM_MINIBATCHES c))
    (Arr.take (Arr.flatten2 x) permutation).

(** Lines 301-314: the three minibatch arrays of an epoch whose
    permutation key is [_rng]. *)
Definition minibatches (_rng : Key) (traj_batch : list (list sample))
  (advantages targets : list (list Q))
  : list (list sample) * list (list Q) * list (list Q) :=
  let permutation := random_permutation _rng (Z.to_nat batch_size) in
  (shuffle_and_split permutation traj_batch,
   shuffle_and_split permutation advantages,
   shuffle_and_split permutation targets).

Definition update_state : Type :=
  (TrainState * list (list sample) * list (list Q) * list (list Q) * Key)%type.

(** Lines 235-319. *)
Definition _update_epoch (md : mode) (st : update_state)
  : M (update_state * list loss_info) :=
  let '(train_state, traj_batch, advantages, targets, rng) := st in
  let '(rng, _rng) := split rng in
  py_assert (batch_size =? NUM_STEPS c * NUM_ENVS c)%Z ;;;
  let '(mb_traj, mb_adv, mb_targets) :=
    minibatches _rng traj_batch advantages targets in
  ' (train_state, total_loss) <-
    Scan.scan_xs md (_update_minbatch c) train_state
      (combine (combine mb_traj mb_adv) mb_targets) ;;
  ret ((train_state, traj_batch, advantages, targets, rng), total_loss).

Definition runner : Type := (TrainState * EnvState * list Obs * Key)%type.

(** Lines 179-198. *)
Definition _env_step (rs : runner) : M (runner * list sample) :=
  let '(train_state, env_state, last_obs, rng) := rs in
  let '(rng, _rng) := split rng in
  let out := map (network_apply (ts_params train_state)) last_obs in
  let pi := map (fun o => fst (fst o)) out in
  let value := map (fun o => snd (fst o)) out in
  let action := dist_sample pi _rng in
  let log_prob := Arr.map2 dist_log_prob pi action in
  let '(rng, _rng) := split rng in
  let rng_step := split_n _rng (NUM_ENVS c) in
  emit EnvStep ;;;
  let '(obsv, env_state, reward, done, info) :=
    env_step rng_step env_state action in
  let transition :=
    zap (zap (zap (zap (zap (zap
      (map (@Build_Transition Action Obs Info) done)
      action) value) reward) log_prob) last_obs) info in
  ret ((train_state, env_state, obsv, rng), transition).

(** Lines 204-232: the bootstrap value and the two arrays of the update
    step. *)
Definition advantages_and_targets (train_state : TrainState)
  (last_obs : list Obs) (traj_batch : list (list sample))
  : list (list Q) * list (list Q) :=
  let last_val :=
    map (fun o => snd (fst (network_apply (ts_params train_state) o)))
      last_obs in
  GAE._calculate_gae c traj_batch last_val.

(** Lines 326-337. *)
Definition make_metric (traj_batch : list (list sample))
  (loss_info : list (list loss_info)) : metric :=
  {| m_info := map (map (@info _ _ _)) traj_batch;
     m_dormancy :=
       map (map (fun li => map dormancies (auxiliary_losses li))) loss_info;
     m_threshold_grad_second_moment := map (map threshold_gsm) loss_info |}.

(** Lines 177-362. *)
Definition _update_step (md : mode) (rs : runner) : M (runner * metric) :=
  ' (rs, traj_batch) <-
    Scan.scan_length md _env_step rs (NUM_STEPS c) ;;
  let '(train_state, env_state, last_obs, rng) := rs in
  Scan.guard md (Z.of_nat (length traj_batch)) ;;;
  let '(advantages, targets) :=
    advantages_and_targets train_state last_obs traj_batch in
  let st : update_state :=
    (train_state, traj_batch, advantages, targets, rng) in
  ' (st, loss_info) <-
    Scan.scan_length md (_update_epoch md) st (UPDATE_EPOCHS c) ;;
  let '(train_state, _, _, _, rng) := st in
  ret ((train_state, env_state, last_obs, rng),
       make_metric traj_batch loss_info).

(** Lines 150-174: the state the first update step starts from. *)
Definition initial_runner (rng : Key) : runner :=
  let '(rng, _rng) := split rng in
  let network_params := network_init _rng init_x in
  let train_state := TrainState_create network_params in
  let '(rng, _rng) := split rng in
  let reset_rng := split_n _rng (NUM_ENVS c) in
  let '(obsv, env_state) := env_reset reset_rng in
  let '(rng, _rng) := split rng in
  (train_state, env_state, obsv, _rng).

(** Lines 148-369. *)
Definition train (md : mode) (rng : Key) : M output :=
  ' (rs, metric) <-
    Scan.scan_length md (_update_step md) (initial_runner rng)
      (NUM_UPDATES c) ;;
  ret {| runner_state := rs; metrics := metric |}.

(** Tracing.  [jax.jit] first runs the Python function on abstract
    values: the body of every scan is run once, whatever its length, no
    event is executed, and a Python-level [assert] is evaluated.  Only
    then is the compiled program run. *)
Definition trace__env_step : error + unit := inr tt.

Definition trace__update_minbatch : error + unit := inr tt.

Definition trace__update_epoch : error + unit :=
  Py.bind (if (batch_size =? NUM_STEPS c * NUM_ENVS c)%Z
           then inr tt else inl AssertionError)
    (fun _ => trace__update_minbatch).

Definition trace__update_step : error + unit :=
  Py.bind trace__env_step (fun _ => trace__update_epoch).

Definition trace_train : error + unit := trace__update_step.

(** [jax.jit(train)(rng)]. *)
Definition train_jit (rng : Key) : M output :=
  match trace_train with
  | inl e => raise e
  | inr _ => train Compiled rng
  end.

End Driver.

(** Lines 377-389: [make_train], then the run under
    [jax.disable_jit(config["DISABLE_JIT"])]. *)
Definition main {E : Externals} (cfg : config) (rng : Key) : M output :=
  match make_train cfg with
  | inl e => raise e
  | inr c => if DISABLE_JIT cfg then train c Eager rng else train_jit c rng
  end.

End Train.

(* ===================================================================== *)
(** * A small instance of the external collaborators *)
(* ===================================================================== *)

(** A two-weight linear network on rational observations, a deterministic
    policy and environment, and a permutation that reverses the batch on
    odd keys.  The instance runs the training function on concrete
    inputs. *)
Module Toy.

Definition weight (j : nat) (p : params) : Q :=
  match p with
  | (_, w) :: _ => nth j w 0
  | [] => 0
  end.

Definition toy_apply (p : params) (o : Q) : Q * Q * tree (list Q) :=
  (Qred (weight 0 p * o), Qred (weight 1 p * o), [("actor_0"%string, [o; 1])]).

Definition toy_env_step (keys : list nat) (s : Q) (actions : list Q)
  : list Q * Q * list Q * list bool * list unit :=
  (map (fun i => inject_Z (Z.of_nat i) + s + 1) (seq 0 (length keys)),
   Qred (s + 1), actions,
   map (fun _ => false) actions, map (fun _ => tt) actions).

Definition toy_permutation (k n : nat) : list nat :=
  if Nat.even k then seq 0 n else rev (seq 0 n).

#[export] Instance toy : Externals := {|
  Key := nat;
  EnvState := Q;
  Obs := Q;
  Action := Q;
  Info := unit;
  Dist := Q;
  OptState := nat;
  split := fun k => (S k, 3 * k + 1)%nat;
  split_n := fun k n => map (fun i => (k + i)%nat) (seq 0 (Z.to_nat n));
  random_permutation := toy_permutation;
  init_x := 0;
  network_init := fun _ _ => [("w"%string, [1; 1 # 2])];
  network_apply := toy_apply;
  dist_sample := fun pis _ => pis;
  dist_log_prob := fun d a => Qred (- ((a - d) * (a - d)));
  dist_entropy := fun _ => 1;
  env_reset := fun keys =>
    (map (fun i => inject_Z (Z.of_nat i)) (seq 0 (length keys)), 0);
  env_step := toy_env_step;
  grad := fun f p => tree_map (map (fun w => Qred (f p * w))) p;
  tx_init := fun _ => O;
  tx_update := fun g s _ => (tree_map (map (fun x => Qred (- (1 # 10) * x))) g, S s);
  apply_updates := fun p u =>
    Arr.map2
      (fun a b => (fst a, Arr.map2 (fun x y => Qred (x + y)) (snd a) (snd b)))
      p u;
  exp := fun x => Qred (1 + x + x * x * (1 # 2));
  sqrt := fun x => Qred x
|}.

Definition toy_config (steps envs minibatches : Z) (disable_jit : bool)
  (total : Z) : config :=
  {| TOTAL_TIMESTEPS := total;
     NUM_STEPS := steps;
     NUM_ENVS := envs;
     NUM_MINIBATCHES := minibatches;
     UPDATE_EPOCHS := 1;
     LR := 3 # 10000;
     ANNEAL_LR := true;
     GAMMA := 99 # 100;
     GAE_LAMBDA := 95 # 100;
     CLIP_EPS := 2 # 10;
     ENT_COEF := 0;
     VF_COEF := 1 # 2;
     TAU := 1 # 2;
     DISABLE_JIT := disable_jit |}.

(** A trajectory of one environment with an episode end at its second
    step. *)
Definition transition (d : bool) (v r : Q) : Transition unit unit unit :=
  {| done := d; action := tt; value := v; reward := r; log_prob := 0;
     obs := tt; info := tt |}.

Definition gae_traj (tail : Q) : list (list (Transition unit unit unit)) :=
  [[transition false 1 1]; [transition true 2 1]; [transition false tail 1]].

(** Two steps of two environments, cut into two minibatches of two. *)
Definition epoch_config : train_config :=
  {| base := toy_config 2 2 2 false 8;
     NUM_UPDATES := 2;
     MINIBATCH_SIZE := 2 |}.

Definition epoch_obs (o : Q) : Transition Q Q unit :=
  {| done := false; action := 0; value := o; reward := 1; log_prob := 0;
     obs := o; info := tt |}.

Definition epoch_traj : list (list (Transition Q Q unit)) :=
  [[epoch_obs 0; epoch_obs 1]; [epoch_obs 2; epoch_obs 3]].

Definition epoch_adv : list (list Q) := [[10; 11]; [12; 13]].

Definition epoch_tgt : list (list Q) := [[20; 21]; [22; 23]].

(** A rollout of two steps from the initial state, and the first
    minibatch of an epoch on it. *)
Definition rollout_start : Train.runner := Train.initial_runner epoch_config 0%nat.

Definition rollout_end : Train.runner * list (list (Transition Q Q unit)) :=
  match snd (Scan.scan_length Compiled (Train._env_step epoch_config)
               rollout_start 2) with
  | inr r => r
  | inl _ => (rollout_start, [])
  end.

Definition first_batch : list (Transition Q Q unit) * list Q * list Q :=
  hd ([], [], [])
    (combine
       (combine
          (Train.shuffle_and_split epoch_config [3; 2; 1; 0]%nat
             (snd rollout_end))
          (Train.shuffle_and_split epoch_config [3; 2; 1; 0]%nat epoch_adv))
       (Train.shuffle_and_split epoch_config [3; 2; 1; 0]%nat epoch_tgt)).

(** One update step from the initial state: one epoch of two
    minibatches on a rollout of two steps of two environments. *)
Definition empty_metric : metric :=
  {| m_info := []; m_dormancy := [];
     m_threshold_grad_second_moment := [] |}.

Definition step_run : M (Train.runner * metric) :=
  Train._update_step epoch_config Compiled rollout_start.

Definition step_end : Train.runner * metric :=
  match snd step_run with
  | inr r => r
  | inl _ => (rollout_start, empty_metric)
  end.

(** A configuration of 4 updates of 2 epochs of 4 minibatches. *)
Definition schedule_config : train_config :=
  {| base := toy_config 8 4 4 false 128;
     NUM_UPDATES := 4;
     MINIBATCH_SIZE := 8 |}.

(** The configuration of the estimator at a discount and a trace decay. *)
Definition gae_config (gamma lambda : Q) : config :=
  {| TOTAL_TIMESTEPS := 3;
     NUM_STEPS := 3;
     NUM_ENVS := 1;
     NUM_MINIBATCHES := 1;
     UPDATE_EPOCHS := 1;
     LR := 3 # 10000;
     ANNEAL_LR := false;
     GAMMA := gamma;
     GAE_LAMBDA := lambda;
     CLIP_EPS := 2 # 10;
     ENT_COEF := 0;
     VF_COEF := 1 # 2;
     TAU := 1 # 2;
     DISABLE_JIT := false |}.


End Toy.

(* ===================================================================== *)
(** * Contracts and shapes the theorems refer to *)
(* ===================================================================== *)

Section Contracts.

Context {E : Externals}.
Variable c : train_config.

(** What [jax.random.permutation(key, n)] promises. *)
Definition permutation_contract : Prop :=
  forall (k : Key) (n : nat), Permutation (random_permutation k n) (seq 0 n).

(** An array whose two leading axes are time and environment. *)
Definition time_env_shape {A : Type} (x : list (list A)) : Prop :=
  length x = Z.to_nat (NUM_STEPS c) /\
  Forall (fun r => length r = Z.to_nat (NUM_ENVS c)) x.

(** The minibatch array [mb] cuts the flattened array [x], reordered by
    [perm], into [NUM_MINIBATCHES] consecutive rows of [MINIBATCH_SIZE]
    entries, and holds every entry of [x] once. *)
Definition partitions {A : Type} (perm : list nat) (x mb : list (list A))
  : Prop :=
  length (concat x) = Z.to_nat (NUM_ENVS c * NUM_STEPS c)
  /\ length mb = Z.to_nat (NUM_MINIBATCHES c)
  /\ Forall (fun r => length r = Z.to_nat (MINIBATCH_SIZE c)) mb
  /\ concat mb = Arr.take (concat x) perm
  /\ Permutation (concat mb) (concat x).

(** The entry [j] of minibatch [k] is the entry of the flattened array
    at the index the permutation has at position
    [k * MINIBATCH_SIZE + j]. *)
Definition drawn_by {A : Type} (perm : list nat) (x mb : list (list A))
  (k j i : nat) : Prop :=
  nth_error perm (k * Z.to_nat (MINIBATCH_SIZE c) + j) = Some i /\
  nth_error (nth k mb []) j = nth_error (concat x) i.

(** The hypotheses under which an epoch is scheduled: the counts are
    those of a run that reached the epoch, and the assertion of line 298
    holds. *)
Definition schedulable : Prop :=
  (0 < NUM_MINIBATCHES c)%Z /\ (0 <= MINIBATCH_SIZE c)%Z /\
  (0 <= NUM_STEPS c)%Z /\ (0 <= NUM_ENVS c)%Z /\
  Train.batch_size c = (NUM_STEPS c * NUM_ENVS c)%Z.

End Contracts.

Section LossContracts.

Context {E : Externals}.

(** The model state of a runner state. *)
Definition state_of (rs : Train.runner) : TrainState := fst (fst (fst rs)).

(** The log-probability the policy with parameters [p] gives to the
    recorded action at the recorded observation. *)
Definition new_log_prob (p : params) (t : Transition Action Obs Info) : Q :=
  dist_log_prob (fst (fst (network_apply p (obs t)))) (action t).

(** The transition was recorded under the parameters [p]. *)
Definition on_policy (p : params) (t : Transition Action Obs Info) : Prop :=
  log_prob t = new_log_prob p t.

(** What [jnp.exp] is used for: it is a function of the value of its
    argument, and [exp(0) = 1]. *)
Definition exp_contract : Prop :=
  exp 0 == 1 /\ forall x y, x == y -> exp x == exp y.

(** The advantages the loss of a minibatch is evaluated at: the
    normalised advantages of line 238, one per sample of the [vmap]. *)
Definition fed_advantages
  (batch_info : list (Transition Action Obs Info) * list Q * list Q)
  : list Q :=
  let '(traj_batch, advantages, targets) := batch_info in
  map (fun b => snd (fst b))
    (combine (combine traj_batch (Train.normalize advantages)) targets).

End LossContracts.

Section Plain.

Context {E : Externals}.
Variable c : train_config.

Local Open Scope run_scope.

(** The update engine without instrumentation: the same loss, gradient,
    average and optimizer step, with neither diagnostic computed.  It is
    what the diagnostics are compared against. *)
Definition total_loss_plain (p : params) (t : Transition Action Obs Info)
  (gae targets : Q) : Q :=
  let out := network_apply p (obs t) in
  let pi := fst (fst out) in
  let value_new := snd (fst out) in
  Train.actor_loss c (dist_log_prob pi (action t)) t gae
  + VF_COEF c * Train.critic_loss c value_new t targets
  - ENT_COEF c * Train.mean0 (dist_entropy pi).

Definition grads_plain (p : params)
  (batch_info : list (Transition Action Obs Info) * list Q * list Q)
  : params :=
  let '(traj_batch, advantages, targets) := batch_info in
  let advantages := Train.normalize advantages in
  Train.averaged_grads p
    (map (fun b => let '(t, a, g) := b in
                   grad (fun p' => total_loss_plain p' t a g) p)
       (combine (combine traj_batch advantages) targets)).

Definition update_minbatch_plain (train_state : TrainState)
  (batch_info : list (Transition Action Obs Info) * list Q * list Q)
  : M TrainState :=
  emit ApplyGradients ;;;
  ret (apply_gradients train_state
         (grads_plain (ts_params train_state) batch_info)).

End Plain.

Section DiagnosticShapes.

(** The rate of the slots whose mean, divided by the overall mean, is at
    most the threshold: the shape of both diagnostics. *)
Definition rate (t : Q) (rows : list (list Q)) : fl :=
  Num.fmean_bool
    (map (fun col =>
            Num.fl_leb (Num.fl_div (Num.fmean col) (Num.fmean (concat rows))) t)
       (Arr.columns rows)).

(** The overall mean the diagnostic divides by is zero. *)
Definition zero_denominator (rows : list (list Q)) : Prop :=
  exists d, Num.fmean (concat rows) = Fin d /\ d == 0.

(** The quotient of a slot of the array by the overall mean. *)
Definition slot_ratio (rows : list (list Q)) (col : list Q) : fl :=
  Num.fl_div (Num.fmean col) (Num.fmean (concat rows)).

End DiagnosticShapes.

Section EpochContracts.

Context {E : Externals}.
Variable c : train_config.

(** The minibatches an epoch with key [rng] feeds to the update engine,
    one triple per minibatch (lines 301-317). *)
Definition epoch_batches (rng : Key)
  (traj : list (list (Transition Action Obs Info)))
  (adv tgt : list (list Q))
  : list (list (Transition Action Obs Info) * list Q * list Q) :=
  let mbs := Train.minibatches c (snd (split rng)) traj adv tgt in
  combine (combine (fst (fst mbs)) (snd (fst mbs))) (snd mbs).

(** [li] is what a minibatch pass on [batch] returned. *)
Definition pass_on
  (batch : list (Transition Action Obs Info) * list Q * list Q)
  (li : loss_info) : Prop :=
  exists ts ts',
    Train._update_minbatch c ts batch = ([ApplyGradients], inr (ts', li)).

(** [lis] is what an epoch returned that was given the arrays [traj],
    [adv] and [tgt]: one entry per minibatch of its schedule, in order. *)
Definition epoch_on (md : mode)
  (traj : list (list (Transition Action Obs Info)))
  (adv tgt : list (list Q)) (lis : list loss_info) : Prop :=
  exists ts rng tr st',
    Train._update_epoch c md (ts, traj, adv, tgt, rng) = (tr, inr (st', lis))
    /\ Forall2 pass_on (epoch_batches rng traj adv tgt) lis.

(** The last observation batch of a runner state. *)
Definition obs_of (rs : Train.runner) : list Obs := snd (fst rs).

End EpochContracts.

Section MetricContracts.

Context {E : Externals}.
Variable c : train_config.

(** The dormancy rates of one sample, from the activations of one
    evaluation of the network on its observation. *)
Definition sample_dormancy (p : params) (t : Transition Action Obs Info)
  : tree fl :=
  Instrumentation.dormancy_rate
    (tree_map (fun a => [a]) (snd (network_apply p (obs t)))) (TAU c).

(** The threshold rates of a minibatch, from the per-sample gradients
    before they are averaged. *)
Definition batch_threshold (p : params) (per_sample_grads : list params)
  : tree fl :=
  Instrumentation.threshold_grad_second_moment
    (tree_map (map (map Num.square)) (Train.stack p per_sample_grads))
    Instrumentation.zeta_abs_default.

(** The metrics of an update step hold the diagnostics of one minibatch
    pass per epoch. *)
Definition one_minibatch_per_epoch (m : metric) : Prop :=
  Forall (fun per_epoch => length per_epoch = 1%nat) (m_dormancy m) /\
  Forall (fun per_epoch => length per_epoch = 1%nat)
    (m_threshold_grad_second_moment m).

End MetricContracts.

Section RunContracts.

Context {E : Externals}.

Definition event_eq_dec (a b : event) : {a = b} + {a <> b}.
Proof. decide equality. Defined.

(** The vectorised environment steps a run executed, and the timesteps
    they consume: one per environment instance and step. *)
Definition env_steps (tr : list event) : nat :=
  count_occ event_eq_dec tr EnvStep.

Definition timesteps (c : train_config) (tr : list event) : Z :=
  Z.of_nat (env_steps tr) * NUM_ENVS c.

(** What one update step executes: the rollout, then the minibatch
    passes of every epoch. *)
Definition step_trace (c : train_config) : list event :=
  repeat EnvStep (Z.to_nat (NUM_STEPS c))
  ++ concat (repeat (repeat ApplyGradients (Z.to_nat (NUM_MINIBATCHES c)))
               (Z.to_nat (UPDATE_EPOCHS c))).

Definition run_trace (c : train_config) : list event :=
  concat (repeat (step_trace c) (Z.to_nat (NUM_UPDATES c))).

(** The run aborts before it executes anything. *)
Definition fails_before_training (cfg : config) (rng : Key) : Prop :=
  exists e, Train.main cfg rng = ([], inl e).

(** The configuration is accepted by [make_train] and
    [NUM_ENVS * NUM_STEPS] differs from
    [NUM_MINIBATCHES * MINIBATCH_SIZE]. *)
Definition violates_batch_invariant (cfg : config) : Prop :=
  exists c,
    make_train cfg = inr c /\
    (NUM_ENVS c * NUM_STEPS c <> NUM_MINIBATCHES c * MINIBATCH_SIZE c)%Z.

(** The conditions under which no scan of the run is refused: compiled,
    or every scanned length positive. *)
Definition scans_run (c : train_config) (md : mode) : Prop :=
  md = Compiled \/
  ((0 < NUM_STEPS c)%Z /\ (0 < UPDATE_EPOCHS c)%Z /\
   (0 < NUM_MINIBATCHES c)%Z).

End RunContracts.

Section ScaleContracts.

(** The entries of [rows'] are those of [rows] times [k]. *)
Definition scaled (k : Q) (rows' rows : list (list Q)) : Prop :=
  Forall2 (Forall2 (fun a b => a == k * b)) rows' rows.

(** Two array values a comparison cannot tell apart. *)
Definition fl_same (a b : fl) : Prop :=
  match a, b with
  | Fin x, Fin y => x == y
  | PInf, PInf | NInf, NInf | NaN, NaN => True
  | _, _ => False
  end.

(** [a] is [b] times [k]. *)
Definition fl_scaled (k : Q) (a b : fl) : Prop :=
  match a, b with
  | Fin x, Fin y => x == k * y
  | PInf, PInf | NInf, NInf | NaN, NaN => True
  | _, _ => False
  end.

End ScaleContracts.

Section ReturnContracts.

Variables Action Obs Info : Type.
Variable c : config.

(** The one-step temporal-difference residuals of the steps of one
    environment instance, earliest first. *)
Fixpoint td_residuals (col : list (Transition Action Obs Info))
  (bootstrap : Q) : list Q :=
  match col with
  | [] => []
  | t :: rest =>
      (reward t
       + GAMMA c * GAE.next_value rest bootstrap * (1 - Num.b2q (done t))
       - value t)
      :: td_residuals rest bootstrap
  end.

(** The discounted returns of the steps of one environment instance,
    bootstrapped after the last step and cut at every episode end. *)
Fixpoint discounted_returns (col : list (Transition Action Obs Info))
  (bootstrap : Q) : list Q :=
  match col with
  | [] => []
  | t :: rest =>
      (reward t
       + GAMMA c * (1 - Num.b2q (done t))
         * hd bootstrap (discounted_returns rest bootstrap))
      :: discounted_returns rest bootstrap
  end.

End ReturnContracts.

Section NumericContracts.

Context {E : Externals}.


(** The importance ratio of a sample at a new log-probability. *)
Definition ratio_at (log_prob_new : Q) (t : Transition Action Obs Info) : Q :=
  exp (log_prob_new - log_prob t).

End NumericContracts.

Section RunnerContracts.

Context {E : Externals}.

(** The key handed on after [n] splits: the first half, each time. *)
Definition advance (n : nat) (rng : Key) : Key :=
  Nat.iter n (fun k => fst (split k)) rng.

(** The environment state and the key of a runner state. *)
Definition env_of (rs : Train.runner) : EnvState := snd (fst (fst rs)).

Definition key_of (rs : Train.runner) : Key := snd rs.

(** The transition holds the value and the log-probability the network
    with parameters [p] gives at its recorded observation. *)
Definition recorded_under (p : params) (t : Transition Action Obs Info)
  : Prop :=
  value t = snd (fst (network_apply p (obs t))) /\ on_policy p t.

(** Lines 183-185 and 188-192: the actions an environment step samples
    from the policy at the last observations, and what the environment
    answers to them. *)
Definition sampled_actions (rs : Train.runner) : list Action :=
  dist_sample
    (map (fun o => fst (fst (network_apply (ts_params (state_of rs)) o)))
       (obs_of rs))
    (snd (split (key_of rs))).

Definition env_response (c : train_config) (rs : Train.runner)
  : list Obs * EnvState * list Q * list bool * list Info :=
  env_step (split_n (snd (split (fst (split (key_of rs))))) (NUM_ENVS c))
    (env_of rs) (sampled_actions rs).

(** The optimizer steps a run executed. *)
Definition gradient_steps (tr : list event) : nat :=
  count_occ event_eq_dec tr ApplyGradients.

End RunnerContracts.

Section StepContracts.

Context {E : Externals}.
Variable c : train_config.

(** The samples a minibatch pass evaluates the loss at: the minibatch
    with its advantages normalised (line 238), one triple per sample of
    the [vmap] (line 277). *)
Definition pass_samples
  (b : list (Transition Action Obs Info) * list Q * list Q)
  : list (Transition Action Obs Info * Q * Q) :=
  combine (combine (fst (fst b)) (Train.normalize (snd (fst b)))) (snd b).

(** What a minibatch pass does, as functions of the model state it
    starts from and of its minibatch: the state it leaves (lines
    286-287) and the two diagnostics it reports (lines 241-243 and
    281-282). *)
Definition pass_state (ts : TrainState)
  (b : list (Transition Action Obs Info) * list Q * list Q) : TrainState :=
  apply_gradients ts (grads_plain c (ts_params ts) b).

Definition pass_dormancy (ts : TrainState)
  (b : list (Transition Action Obs Info) * list Q * list Q)
  : list (tree fl) :=
  map (fun s => sample_dormancy c (ts_params ts) (fst (fst s)))
    (pass_samples b).

Definition pass_threshold (ts : TrainState)
  (b : list (Transition Action Obs Info) * list Q * list Q) : tree fl :=
  batch_threshold (ts_params ts)
    (map snd (Train.per_sample c (TAU c) (ts_params ts) (pass_samples b))).

(** The passes of an epoch, in order: each starts from the state the
    pass before it left. *)
Definition epoch_end (ts : TrainState)
  (batches : list (list (Transition Action Obs Info) * list Q * list Q))
  : TrainState :=
  fold_left pass_state batches ts.

Fixpoint epoch_rows (ts : TrainState)
  (batches : list (list (Transition Action Obs Info) * list Q * list Q))
  : list (list (tree fl) * tree fl) :=
  match batches with
  | [] => []
  | b :: batches' =>
      (pass_dormancy ts b, pass_threshold ts b)
      :: epoch_rows (pass_state ts b) batches'
  end.

(** The epochs of an update step, in order: epoch [k] cuts its
    minibatches from the three arrays with the key after [k] splits and
    starts from the state epoch [k - 1] left. *)
Fixpoint epochs_end (n : nat) (ts : TrainState) (rng : Key)
  (traj : list (list (Transition Action Obs Info)))
  (adv tgt : list (list Q)) : TrainState :=
  match n with
  | O => ts
  | S n' =>
      epochs_end n' (epoch_end ts (epoch_batches c rng traj adv tgt))
        (fst (split rng)) traj adv tgt
  end.

Fixpoint epochs_rows (n : nat) (ts : TrainState) (rng : Key)
  (traj : list (list (Transition Action Obs Info)))
  (adv tgt : list (list Q)) : list (list (list (tree fl) * tree fl)) :=
  match n with
  | O => []
  | S n' =>
      epoch_rows ts (epoch_batches c rng traj adv tgt)
      :: epochs_rows n' (epoch_end ts (epoch_batches c rng traj adv tgt))
           (fst (split rng)) traj adv tgt
  end.

(** The two diagnostics a minibatch pass returned. *)
Definition diagnostics_of (li : loss_info) : list (tree fl) * tree fl :=
  (map dormancies (auxiliary_losses li), threshold_gsm li).

End StepContracts.

(* ===================================================================== *)
(*                              THEOREMS                                 *)
(* ===================================================================== *)

(* ===================================================================== *)
(** * Properties of the learning-rate schedule *)
(* ===================================================================== *)

Section ScheduleFacts.

Variable c : train_config.

Let K : Z := Schedule.steps_per_update c.

Lemma inject_Z_div_le (a b n : Z) :
  (0 < n)%Z -> (a <= b)%Z -> inject_Z a / inject_Z n <= inject_Z b / inject_Z n.
Proof.
  intros Hn Hab. unfold Qdiv.
  apply Qmult_le_compat_r.
  - rewrite <- Zle_Qle. exact Hab.
  - apply Qlt_le_weak, Qinv_lt_0_compat.
    replace 0 with (inject_Z 0) by reflexivity. rewrite <- Zlt_Qlt. exact Hn.
Qed.

(** Every optimizer step [u * K + j] of update [u] has the same index
    [u] after the floor division. *)
Lemma count_of_update (u j : Z) :
  (0 <= j < K)%Z -> ((u * K + j) / K = u)%Z.
Proof.
  intros Hj.
  rewrite Z.add_comm, Z.div_add by lia.
  rewrite Z.div_small by lia. reflexivity.
Qed.

Lemma linear_schedule_update (u j : Z) :
  (0 <= j < K)%Z ->
  Schedule.linear_schedule c (u * K + j)
  = LR c * (1 - inject_Z u / inject_Z (NUM_UPDATES c)).
Proof.
  intros Hj. unfold Schedule.linear_schedule.
  fold (Schedule.steps_per_update c). fold K.
  rewrite count_of_update by exact Hj. reflexivity.
Qed.

Lemma linear_schedule_antitone (count count' : Z) :
  (0 < K)%Z -> (0 < NUM_UPDATES c)%Z -> 0 <= LR c ->
  (count <= count')%Z ->
  Schedule.linear_schedule c count' <= Schedule.linear_schedule c count.
Proof.
  intros HK HN HLR Hle. unfold Schedule.linear_schedule.
  fold (Schedule.steps_per_update c). fold K.
  assert (Hd : (count / K <= count' / K)%Z)
    by (apply Z.div_le_mono; lia).
  pose proof (inject_Z_div_le HN Hd) as Hq.
  set (x := inject_Z (count / K) / inject_Z (NUM_UPDATES c)) in *.
  set (y := inject_Z (count' / K) / inject_Z (NUM_UPDATES c)) in *.
  nra.
Qed.

Lemma frac_first (l n : Q) : 0 < n -> l * (1 - 0 / n) == l.
Proof. intros Hn. field. lra. Qed.

Lemma frac_last (l n : Q) : 0 < n -> l * (1 - (n + -1) / n) == l / n.
Proof. intros Hn. field. lra. Qed.

Lemma frac_end (l n : Q) : 0 < n -> l * (1 - n / n) == 0.
Proof. intros Hn. field. lra. Qed.

(** C5.  With [ANNEAL_LR] the learning rate at optimizer step [count] is
    [LR * (1 - (count // (NUM_MINIBATCHES * UPDATE_EPOCHS)) / NUM_UPDATES)];
    it is the same at every step of one update, it is [LR] at every step
    of update 0, it does not increase from one optimizer step to a later
    one, and at the steps of the final update it is [LR / NUM_UPDATES],
    between 0 and [LR], reaching 0 exactly one update later.  Without
    [ANNEAL_LR] it is [LR] at every step. *)
Theorem learning_rate_schedule :
  (0 < K)%Z -> (0 < NUM_UPDATES c)%Z -> 0 <= LR c ->
  (ANNEAL_LR c = true ->
     (forall count,
        Schedule.learning_rate c count
        = LR c * (1 - inject_Z (count / (NUM_MINIBATCHES c * UPDATE_EPOCHS c))
                      / inject_Z (NUM_UPDATES c)))
     /\ (forall u j j', (0 <= j < K)%Z -> (0 <= j' < K)%Z ->
           Schedule.learning_rate c (u * K + j)
           = Schedule.learning_rate c (u * K + j'))
     /\ (forall j, (0 <= j < K)%Z -> Schedule.learning_rate c j == LR c)
     /\ (forall count count', (count <= count')%Z ->
           Schedule.learning_rate c count' <= Schedule.learning_rate c count)
     /\ (forall j, (0 <= j < K)%Z ->
           Schedule.learning_rate c ((NUM_UPDATES c - 1) * K + j)
           == LR c / inject_Z (NUM_UPDATES c))
     /\ (forall u j, (0 <= u < NUM_UPDATES c)%Z -> (0 <= j < K)%Z ->
           0 <= Schedule.learning_rate c (u * K + j) <= LR c)
     /\ Schedule.learning_rate c (NUM_UPDATES c * K) == 0)
  /\ (ANNEAL_LR c = false ->
      forall count, Schedule.learning_rate c count = LR c).
Proof.
  intros HK HN HLR.
  assert (HNq : 0 < inject_Z (NUM_UPDATES c)).
  { replace 0 with (inject_Z 0) by reflexivity. rewrite <- Zlt_Qlt. exact HN. }
  split; intros Ha; unfold Schedule.learning_rate; rewrite Ha.
  2: reflexivity.
  repeat split.
  - intros u j j' Hj Hj'. rewrite !linear_schedule_update by assumption.
    reflexivity.
  - intros j Hj. replace j with (0 * K + j)%Z by lia.
    rewrite linear_schedule_update by exact Hj.
    apply frac_first. exact HNq.
  - intros count count' Hle. apply linear_schedule_antitone; assumption.
  - intros j Hj. rewrite linear_schedule_update by exact Hj.
    unfold Z.sub. rewrite inject_Z_plus.
    apply frac_last. exact HNq.
  - rewrite linear_schedule_update by assumption.
    assert (Hu : 0 <= inject_Z u / inject_Z (NUM_UPDATES c)).
    { apply Qle_shift_div_l; [exact HNq|].
      rewrite Qmult_0_l. change 0 with (inject_Z 0).
      rewrite <- Zle_Qle. lia. }
    assert (Hu1 : inject_Z u / inject_Z (NUM_UPDATES c) <= 1).
    { apply Qle_shift_div_r; [exact HNq|].
      rewrite Qmult_1_l, <- Zle_Qle. lia. }
    set (x := inject_Z u / inject_Z (NUM_UPDATES c)) in *. nra.
  - rewrite linear_schedule_update by assumption.
    assert (Hu : 0 <= inject_Z u / inject_Z (NUM_UPDATES c)).
    { apply Qle_shift_div_l; [exact HNq|].
      rewrite Qmult_0_l. change 0 with (inject_Z 0).
      rewrite <- Zle_Qle. lia. }
    set (x := inject_Z u / inject_Z (NUM_UPDATES c)) in *. nra.
  - replace (NUM_UPDATES c * K)%Z with (NUM_UPDATES c * K + 0)%Z by lia.
    rewrite linear_schedule_update by lia. apply frac_end. exact HNq.
Qed.

End ScheduleFacts.

Lemma learning_rate_schedule_witness :
  Schedule.learning_rate Toy.schedule_config 3 == 3 # 10000.
Proof.
  pose proof (@learning_rate_schedule Toy.schedule_config) as H.
  destruct H as [H _]; [reflexivity | reflexivity | discriminate |].
  destruct (H eq_refl) as (_ & _ & H0 & _).
  apply H0. split; [discriminate | reflexivity].
Defined.

(* ===================================================================== *)
(** * Properties of the advantage estimator *)
(* ===================================================================== *)

Section ArrayFacts.

Lemma nth_error_map2 {A B C : Type} (f : A -> B -> C) (xs : list A)
  (ys : list B) (e : nat) :
  nth_error (Arr.map2 f xs ys) e =
  match nth_error xs e, nth_error ys e with
  | Some x, Some y => Some (f x y)
  | _, _ => None
  end.
Proof.
  revert ys e. induction xs as [|x xs IH]; intros [|y ys] [|e]; simpl;
    try reflexivity.
  - destruct (nth_error xs e); reflexivity.
  - apply IH.
Qed.

Lemma length_map2 {A B C : Type} (f : A -> B -> C) (xs : list A)
  (ys : list B) :
  length (Arr.map2 f xs ys) = Nat.min (length xs) (length ys).
Proof.
  revert ys. induction xs as [|x xs IH]; intros [|y ys]; simpl; auto.
Qed.

Lemma nth_error_combine {A B : Type} (xs : list A) (ys : list B) (e : nat) :
  nth_error (combine xs ys) e =
  match nth_error xs e, nth_error ys e with
  | Some x, Some y => Some (x, y)
  | _, _ => None
  end.
Proof.
  revert ys e. induction xs as [|x xs IH]; intros [|y ys] [|e]; simpl;
    try reflexivity.
  - destruct (nth_error xs e); reflexivity.
  - apply IH.
Qed.

Lemma nth_error_in_range {A : Type} (xs : list A) (e : nat) :
  (e < length xs)%nat -> exists x, nth_error xs e = Some x.
Proof.
  intros H. destruct (nth_error xs e) eqn:Hx; [eauto|].
  apply nth_error_None in Hx. lia.
Qed.

Lemma column_cons {A : Type} (e : nat) (r : list A) (rows : list (list A))
  (x : A) :
  nth_error r e = Some x -> Arr.column e (r :: rows) = x :: Arr.column e rows.
Proof. intros H. unfold Arr.column. simpl. rewrite H. reflexivity. Qed.

End ArrayFacts.

Section GAEFacts.

Variables Action Obs Info : Type.
Variable c : config.

Local Abbreviation sample := (Transition Action Obs Info).

Lemma recursion_cons (t : sample) (col : list sample) (bootstrap : Q) :
  GAE.recursion c (t :: col) bootstrap =
  GAE.advantage_cell c (GAE.head_gae c col bootstrap)
    (GAE.next_value col bootstrap) t
  :: GAE.recursion c col bootstrap.
Proof. reflexivity. Qed.

Lemma scan_reverse_columns (N : nat) (last_val : list Q)
  (traj_batch : list (list sample)) :
  length last_val = N ->
  Forall (fun s => length s = N) traj_batch ->
  forall g nv adv,
    Lax.scan_reverse (GAE._get_advantages c)
      (GAE.zeros_like last_val, last_val) traj_batch = ((g, nv), adv) ->
    length g = N /\ length nv = N /\
    Forall (fun r => length r = N) adv /\
    forall e, (e < N)%nat ->
      nth_error g e
      = Some (GAE.head_gae c (Arr.column e traj_batch) (nth e last_val 0)) /\
      nth_error nv e
      = Some (GAE.next_value (Arr.column e traj_batch) (nth e last_val 0)) /\
      Arr.column e adv
      = GAE.recursion c (Arr.column e traj_batch) (nth e last_val 0).
Proof.
  intros Hlv Hshape. induction Hshape as [|s rest Hs Hrest IH];
    intros g nv adv Hscan.
  - simpl in Hscan. injection Hscan as <- <- <-.
    unfold GAE.zeros_like. rewrite length_map.
    repeat split; auto.
    + rewrite nth_error_map, (nth_error_nth' last_val 0) by lia. reflexivity.
    + apply nth_error_nth'. lia.
  - simpl in Hscan.
    destruct (Lax.scan_reverse (GAE._get_advantages c)
                (GAE.zeros_like last_val, last_val) rest)
      as [[g0 nv0] adv0] eqn:Hrec.
    destruct (IH g0 nv0 adv0 eq_refl) as (Hg0 & Hnv0 & Hadv0 & Hcols).
    unfold GAE._get_advantages in Hscan. injection Hscan as <- <- <-.
    assert (Hlen : length
              (Arr.map2 (fun gv t => GAE.advantage_cell c (fst gv) (snd gv) t)
                 (combine g0 nv0) s) = N).
    { rewrite length_map2, length_combine, Hg0, Hnv0, Hs, !Nat.min_id.
      reflexivity. }
    repeat split.
    + exact Hlen.
    + rewrite length_map. exact Hs.
    + constructor; [exact Hlen | exact Hadv0].
    + destruct (@nth_error_in_range _ s e) as [t Ht]; [lia|].
      destruct (Hcols e H) as (Hg & Hnv & _).
      rewrite (@column_cons _ e s rest t Ht).
      unfold GAE.head_gae at 1. rewrite recursion_cons. simpl hd.
      rewrite nth_error_map2, nth_error_combine, Hg, Hnv, Ht. reflexivity.
    + destruct (@nth_error_in_range _ s e) as [t Ht]; [lia|].
      rewrite (@column_cons _ e s rest t Ht), nth_error_map, Ht. reflexivity.
    + destruct (@nth_error_in_range _ s e) as [t Ht]; [lia|].
      destruct (Hcols e H) as (Hg & Hnv & Hcol).
      rewrite (@column_cons _ e s rest t Ht), recursion_cons.
      erewrite (@column_cons _ e _ adv0).
      2:{ rewrite nth_error_map2, nth_error_combine, Hg, Hnv, Ht.
          reflexivity. }
      rewrite Hcol. reflexivity.
Qed.

Lemma advantage_cell_done (gae nv : Q) (t : sample) :
  done t = true -> GAE.advantage_cell c gae nv t == reward t - value t.
Proof.
  intros Hd. unfold GAE.advantage_cell, GAE.not_done. rewrite Hd. simpl. ring.
Qed.

Lemma advantage_cell_proper (gae gae' nv : Q) (t : sample) :
  gae == gae' ->
  GAE.advantage_cell c gae nv t == GAE.advantage_cell c gae' nv t.
Proof. intros H. unfold GAE.advantage_cell. rewrite H. reflexivity. Qed.

Lemma next_value_app (pre : list sample) (t : sample) (post post' : list sample)
  (b b' : Q) :
  GAE.next_value (pre ++ t :: post) b = GAE.next_value (pre ++ t :: post') b'.
Proof. destruct pre; reflexivity. Qed.

(** Before a step that ends an episode, the recursion does not see what
    follows that step. *)
Lemma recursion_cut (pre : list sample) (t : sample) (post post' : list sample)
  (b b' : Q) :
  done t = true ->
  Forall2 Qeq
    (firstn (S (length pre)) (GAE.recursion c (pre ++ t :: post) b))
    (firstn (S (length pre)) (GAE.recursion c (pre ++ t :: post') b')).
Proof.
  intros Hd. induction pre as [|p pre IH].
  - simpl app. rewrite !recursion_cons. simpl.
    constructor; [|constructor].
    rewrite !advantage_cell_done by exact Hd. reflexivity.
  - change ((p :: pre) ++ t :: post) with (p :: (pre ++ t :: post)).
    change ((p :: pre) ++ t :: post') with (p :: (pre ++ t :: post')).
    rewrite !recursion_cons.
    change (length (p :: pre)) with (S (length pre)).
    rewrite !(firstn_cons (S (length pre))).
    constructor; [|exact IH].
    rewrite (next_value_app pre t post post' b b').
    apply advantage_cell_proper. unfold GAE.head_gae.
    destruct (GAE.recursion c (pre ++ t :: post) b);
      destruct (GAE.recursion c (pre ++ t :: post') b');
      simpl in IH; inversion IH; subst; simpl; [reflexivity | assumption].
Qed.

End GAEFacts.

Section GAETheorem.

Variables Action Obs Info : Type.
Variable c : config.

Local Abbreviation sample := (Transition Action Obs Info).

Lemma column_map2_plus (e N : nat) (adv : list (list Q))
  (traj : list (list sample)) :
  Forall (fun r => length r = N) adv ->
  Forall (fun s => length s = N) traj ->
  (e < N)%nat ->
  Arr.column e
    (Arr.map2 (Arr.map2 Qplus) adv (map (map (@value _ _ _)) traj))
  = Arr.map2 Qplus (Arr.column e adv)
      (map (@value _ _ _) (Arr.column e traj)).
Proof.
  intros Hadv. revert traj.
  induction Hadv as [|r adv Hr Hadv IH]; intros traj Htraj He.
  - reflexivity.
  - destruct Htraj as [|s traj Hs Htraj].
    { change (map (@value Action Obs Info) (Arr.column e [])) with (@nil Q).
      destruct (Arr.column e (r :: adv)); reflexivity. }
    destruct (@nth_error_in_range _ r e) as [a Ha]; [lia|].
    destruct (@nth_error_in_range _ s e) as [t Ht]; [lia|].
    rewrite (@column_cons _ e r adv a Ha), (@column_cons _ e s traj t Ht).
    cbn [map Arr.map2].
    erewrite column_cons.
    2:{ rewrite nth_error_map2, Ha, nth_error_map, Ht. reflexivity. }
    simpl. rewrite IH by assumption. reflexivity.
Qed.

(** C1.  On a trajectory of [N] environments and a bootstrap value per
    environment, the advantages of every environment are those of the
    backward recursion
      delta_t = reward_t + GAMMA * V_{t+1} * (1 - done_t) - value_t,
      gae_t = delta_t + GAMMA * GAE_LAMBDA * (1 - done_t) * gae_{t+1},
    with gae_{T+1} = 0 and V_{T+1} the bootstrap value, and the targets
    are the advantages plus the recorded values.  At a step with
    done_t = 1 the advantage is reward_t - value_t whatever V_{t+1} and
    gae_{t+1} are, and two trajectories that agree up to such a step
    have equal advantages up to it, whatever follows it. *)
Theorem gae_backward_recursion (N : nat) (traj_batch : list (list sample))
  (last_val : list Q) :
  length last_val = N ->
  Forall (fun s => length s = N) traj_batch ->
  (forall e, (e < N)%nat ->
     Arr.column e (fst (GAE._calculate_gae c traj_batch last_val))
     = GAE.recursion c (Arr.column e traj_batch) (nth e last_val 0)
     /\ Arr.column e (snd (GAE._calculate_gae c traj_batch last_val))
        = Arr.map2 Qplus
            (Arr.column e (fst (GAE._calculate_gae c traj_batch last_val)))
            (map (@value _ _ _) (Arr.column e traj_batch)))
  /\ (forall gae next_value (t : sample), done t = true ->
        GAE.advantage_cell c gae next_value t == reward t - value t)
  /\ (forall (traj_batch' : list (list sample)) (last_val' : list Q) e
        pre t post post',
        length last_val' = N ->
        Forall (fun s => length s = N) traj_batch' ->
        (e < N)%nat ->
        Arr.column e traj_batch = pre ++ t :: post ->
        Arr.column e traj_batch' = pre ++ t :: post' ->
        done t = true ->
        Forall2 Qeq
          (firstn (S (length pre))
             (Arr.column e (fst (GAE._calculate_gae c traj_batch last_val))))
          (firstn (S (length pre))
             (Arr.column e
                (fst (GAE._calculate_gae c traj_batch' last_val'))))).
Proof.
  intros Hlv Hshape.
  assert (Hcode : forall tb lv, length lv = N ->
            Forall (fun s : list sample => length s = N) tb ->
            Forall (fun r => length r = N) (fst (GAE._calculate_gae c tb lv))
            /\ forall e, (e < N)%nat ->
               Arr.column e (fst (GAE._calculate_gae c tb lv))
               = GAE.recursion c (Arr.column e tb) (nth e lv 0)).
  { intros tb lv Hl Hs. unfold GAE._calculate_gae.
    destruct (Lax.scan_reverse (GAE._get_advantages c)
                (GAE.zeros_like lv, lv) tb) as [[g nv] adv] eqn:Hscan.
    destruct (@scan_reverse_columns _ _ _ c N lv tb Hl Hs g nv adv Hscan) as (_ & _ & Hadv & Hcols).
    simpl. split; [exact Hadv|]. intros e He. apply (Hcols e He). }
  destruct (Hcode traj_batch last_val Hlv Hshape) as [Hadv Hcols].
  repeat split.
  - apply Hcols. assumption.
  - revert Hadv. unfold GAE._calculate_gae.
    destruct (Lax.scan_reverse (GAE._get_advantages c)
                (GAE.zeros_like last_val, last_val) traj_batch)
      as [[g nv] adv]. simpl. intros Hadv.
    apply column_map2_plus with (N := N); assumption.
  - intros gae nv t Hd. apply advantage_cell_done. exact Hd.
  - intros tb' lv' e pre t post post' Hlv' Hshape' He Hcol Hcol' Hd.
    destruct (Hcode tb' lv' Hlv' Hshape') as [_ Hcols'].
    rewrite Hcols, Hcols', Hcol, Hcol' by assumption.
    apply recursion_cut. exact Hd.
Qed.

End GAETheorem.

Lemma gae_backward_recursion_witness :
  Arr.column 0
    (fst (GAE._calculate_gae (Toy.toy_config 3 1 1 false 3)
            (Toy.gae_traj 3) [5]))
  = GAE.recursion (Toy.toy_config 3 1 1 false 3)
      (Arr.column 0 (Toy.gae_traj 3)) 5.
Proof.
  destruct (@gae_backward_recursion unit unit unit
              (Toy.toy_config 3 1 1 false 3) 1%nat (Toy.gae_traj 3) [5])
    as [H _].
  - reflexivity.
  - repeat constructor.
  - apply (H 0%nat). apply Nat.lt_0_1.
Defined.

(** The advantages of the first two steps do not change when the step
    after the episode end and the bootstrap value change. *)
Example gae_reset_in_the_middle :
  map (map Qred)
    (firstn 2 (fst (GAE._calculate_gae (Toy.toy_config 3 1 1 false 3)
                      (Toy.gae_traj 3) [5])))
  = [[2079 # 2000]; [-1]]
  /\ map (map Qred)
       (firstn 2 (fst (GAE._calculate_gae (Toy.toy_config 3 1 1 false 3)
                         (Toy.gae_traj 700) [-40])))
     = [[2079 # 2000]; [-1]].
Proof. split; vm_compute; reflexivity. Qed.

(* ===================================================================== *)
(** * Properties of the minibatch scheduler *)
(* ===================================================================== *)

Section SchedulerFacts.

Context {A : Type}.

Lemma take_seq_from (pre x : list A) :
  Arr.take (pre ++ x) (seq (length pre) (length x)) = x.
Proof.
  revert pre. induction x as [|a x IH]; intros pre; [reflexivity|].
  simpl seq. unfold Arr.take in *. simpl flat_map.
  rewrite nth_error_app2, Nat.sub_diag by lia. simpl.
  f_equal.
  specialize (IH (pre ++ [a])).
  rewrite <- app_assoc, length_app, Nat.add_1_r in IH. exact IH.
Qed.

Lemma take_seq (x : list A) : Arr.take x (seq 0 (length x)) = x.
Proof. apply (take_seq_from [] x). Qed.

Lemma take_permutation (x : list A) (idx : list nat) :
  Permutation idx (seq 0 (length x)) -> Permutation (Arr.take x idx) x.
Proof.
  intros H. rewrite <- (take_seq x) at 2.
  unfold Arr.take. apply Permutation_flat_map. exact H.
Qed.

Lemma nth_error_take (x : list A) (idx : list nat) (p : nat) :
  Forall (fun i => (i < length x)%nat) idx ->
  nth_error (Arr.take x idx) p =
  match nth_error idx p with
  | Some i => nth_error x i
  | None => None
  end.
Proof.
  intros H. revert p. induction H as [|i idx Hi H IH]; intros p.
  - destruct p; reflexivity.
  - unfold Arr.take in *. simpl flat_map.
    destruct (@nth_error_in_range _ x i Hi) as [a Ha]. rewrite Ha.
    destruct p; simpl; [symmetry; exact Ha | apply IH].
Qed.

Lemma length_take (x : list A) (idx : list nat) :
  Forall (fun i => (i < length x)%nat) idx ->
  length (Arr.take x idx) = length idx.
Proof.
  intros H. induction H as [|i idx Hi H IH]; [reflexivity|].
  unfold Arr.take in *. simpl flat_map.
  destruct (@nth_error_in_range _ x i Hi) as [a Ha]. rewrite Ha.
  simpl. rewrite IH. reflexivity.
Qed.

Lemma concat_chunks (n size : nat) (x : list A) :
  length x = (n * size)%nat -> concat (Arr.chunks n size x) = x.
Proof.
  revert x. induction n as [|n IH]; intros x Hx.
  - destruct x; [reflexivity | discriminate].
  - simpl. rewrite IH, firstn_skipn; [reflexivity|].
    rewrite length_skipn. lia.
Qed.

Lemma chunks_shape (n size : nat) (x : list A) :
  length x = (n * size)%nat ->
  length (Arr.chunks n size x) = n /\
  Forall (fun r => length r = size) (Arr.chunks n size x).
Proof.
  revert x. induction n as [|n IH]; intros x Hx.
  - simpl. auto.
  - simpl. destruct (IH (skipn size x)) as [Hl Hf].
    { rewrite length_skipn. lia. }
    split; [lia|]. constructor; [|exact Hf].
    rewrite length_firstn. lia.
Qed.

Lemma nth_error_chunks (n size : nat) (x : list A) (k j : nat) :
  (k < n)%nat -> (j < size)%nat ->
  nth_error (nth k (Arr.chunks n size x) []) j = nth_error x (k * size + j).
Proof.
  revert x k. induction n as [|n IH]; intros x k Hk Hj; [lia|].
  destruct k as [|k]; simpl.
  - rewrite nth_error_firstn.
    destruct (Nat.ltb_spec j size); [reflexivity | lia].
  - rewrite IH by lia. rewrite nth_error_skipn. f_equal. lia.
Qed.

Lemma reshape_rows_chunks (n size : nat) (x : list A) :
  (0 < n)%nat -> length x = (n * size)%nat ->
  Arr.reshape_rows n x = Arr.chunks n size x.
Proof.
  intros Hn Hx. unfold Arr.reshape_rows. rewrite Hx.
  rewrite Nat.mul_comm, Nat.div_mul by lia. reflexivity.
Qed.

Lemma length_concat_shape (T N : nat) (x : list (list A)) :
  length x = T -> Forall (fun r => length r = N) x ->
  length (concat x) = (T * N)%nat.
Proof.
  intros HT HN. subst T. induction HN as [|r x Hr HN IH]; [reflexivity|].
  simpl. rewrite length_app, IH, Hr. reflexivity.
Qed.

End SchedulerFacts.

Lemma permutation_in_range (idx : list nat) (n : nat) :
  Permutation idx (seq 0 n) -> Forall (fun i => (i < n)%nat) idx.
Proof.
  intros H. apply Forall_forall. intros i Hi.
  apply (Permutation_in _ H), in_seq in Hi. lia.
Qed.

Section Scheduler.

Context {E : Externals}.
Variable c : train_config.

Lemma shuffle_and_split_spec {A : Type} (perm : list nat) (x : list (list A)) :
  schedulable c ->
  Permutation perm (seq 0 (Z.to_nat (Train.batch_size c))) ->
  time_env_shape c x ->
  partitions c perm x (Train.shuffle_and_split c perm x)
  /\ (forall k j,
        (k < Z.to_nat (NUM_MINIBATCHES c))%nat ->
        (j < Z.to_nat (MINIBATCH_SIZE c))%nat ->
        exists i, drawn_by c perm x (Train.shuffle_and_split c perm x) k j i).
Proof.
  intros (Hmb & Hsz & HT & HN & Hassert) Hperm [Hx1 Hx2].
  set (mb := Train.shuffle_and_split c perm x).
  assert (Hflat : length (concat x) = Z.to_nat (Train.batch_size c)).
  { rewrite (length_concat_shape Hx1 Hx2), Hassert, Z2Nat.inj_mul by lia.
    reflexivity. }
  assert (Hrange : Forall (fun i => (i < length (concat x))%nat) perm).
  { rewrite Hflat. apply permutation_in_range. exact Hperm. }
  assert (Hlen : length (Arr.take (concat x) perm)
                 = (Z.to_nat (NUM_MINIBATCHES c)
                    * Z.to_nat (MINIBATCH_SIZE c))%nat).
  { rewrite (length_take _ Hrange), (Permutation_length Hperm), length_seq.
    unfold Train.batch_size. rewrite Z2Nat.inj_mul by lia. lia. }
  assert (Hmb_eq : mb = Arr.chunks (Z.to_nat (NUM_MINIBATCHES c))
                          (Z.to_nat (MINIBATCH_SIZE c))
                          (Arr.take (concat x) perm)).
  { unfold mb, Train.shuffle_and_split, Arr.flatten2.
    apply reshape_rows_chunks; [lia | exact Hlen]. }
  destruct (chunks_shape _ _ _ Hlen) as [Hn Hrows].
  rewrite Hmb_eq. unfold partitions, drawn_by. repeat split.
  - rewrite Hflat, Hassert. f_equal. lia.
  - exact Hn.
  - exact Hrows.
  - apply concat_chunks. exact Hlen.
  - rewrite (concat_chunks _ _ _ Hlen). apply take_permutation.
    rewrite Hflat. exact Hperm.
  - intros k j Hk Hj.
    destruct (@nth_error_in_range _ perm
                (k * Z.to_nat (MINIBATCH_SIZE c) + j)) as [i Hi].
    { rewrite <- (length_take _ Hrange), Hlen. nia. }
    exists i. split; [exact Hi|].
    rewrite nth_error_chunks by assumption.
    rewrite nth_error_take by exact Hrange.
    rewrite Hi. reflexivity.
Qed.

(** An epoch whose assertion holds: it draws the permutation with the
    second half of the split of its key, runs the minibatch scan on the
    three minibatch arrays, and hands the state on with the arrays it
    received and the first half of the split. *)
Lemma update_epoch_unfold (md : mode) (ts : TrainState)
  (traj : list (list (Transition Action Obs Info)))
  (adv tgt : list (list Q)) (rng : Key) :
  Train.batch_size c = (NUM_STEPS c * NUM_ENVS c)%Z ->
  Train._update_epoch c md (ts, traj, adv, tgt, rng)
  = bind (Scan.scan_xs md (Train._update_minbatch c) ts
            (combine
               (combine
                  (fst (fst (Train.minibatches c (snd (split rng))
                               traj adv tgt)))
                  (snd (fst (Train.minibatches c (snd (split rng))
                               traj adv tgt))))
               (snd (Train.minibatches c (snd (split rng)) traj adv tgt))))
      (fun r => ret ((fst r, traj, adv, tgt, fst (split rng)), snd r)).
Proof.
  intros Hassert. unfold Train._update_epoch, Train.minibatches.
  destruct (split rng) as [rng' _rng]. rewrite Hassert, Z.eqb_refl.
  cbn [fst snd].
  match goal with
  | |- context [Scan.scan_xs ?a ?b ?d ?e] =>
      generalize (Scan.scan_xs a b d e)
  end.
  intros [t [e|[ts' tl]]]; simpl; rewrite ?app_nil_r; reflexivity.
Qed.

(** C3.  In an epoch whose key is [rng], one permutation of the batch
    axis of size [NUM_ENVS * NUM_STEPS] is drawn with the fresh key
    [snd (split rng)]; the flattened trajectory, advantages and targets
    are reordered by it and cut into [NUM_MINIBATCHES] consecutive rows
    of [MINIBATCH_SIZE] entries; the entry at one position of the three
    minibatch arrays comes from one index of the flattened batch; the
    minibatches hold every sample exactly once; and the epoch runs the
    update engine on these minibatches and carries [fst (split rng)] to
    the next epoch. *)
Theorem minibatch_scheduler (md : mode) (ts : TrainState) (rng : Key)
  (traj : list (list (Transition Action Obs Info)))
  (adv tgt : list (list Q)) :
  permutation_contract ->
  schedulable c ->
  time_env_shape c traj -> time_env_shape c adv -> time_env_shape c tgt ->
  let perm :=
    random_permutation (snd (split rng)) (Z.to_nat (Train.batch_size c)) in
  let mbs := Train.minibatches c (snd (split rng)) traj adv tgt in
  Permutation perm (seq 0 (Z.to_nat (NUM_ENVS c * NUM_STEPS c)))
  /\ partitions c perm traj (fst (fst mbs))
  /\ partitions c perm adv (snd (fst mbs))
  /\ partitions c perm tgt (snd mbs)
  /\ (forall k j,
        (k < Z.to_nat (NUM_MINIBATCHES c))%nat ->
        (j < Z.to_nat (MINIBATCH_SIZE c))%nat ->
        exists i,
          drawn_by c perm traj (fst (fst mbs)) k j i /\
          drawn_by c perm adv (snd (fst mbs)) k j i /\
          drawn_by c perm tgt (snd mbs) k j i)
  /\ Train._update_epoch c md (ts, traj, adv, tgt, rng)
     = bind (Scan.scan_xs md (Train._update_minbatch c) ts
               (combine (combine (fst (fst mbs)) (snd (fst mbs))) (snd mbs)))
         (fun r => ret ((fst r, traj, adv, tgt, fst (split rng)), snd r)).
Proof.
  intros Hperm Hs Htraj Hadv Htgt perm mbs.
  assert (Hp : Permutation perm (seq 0 (Z.to_nat (Train.batch_size c))))
    by apply Hperm.
  destruct (shuffle_and_split_spec Hs Hp Htraj) as [P1 D1].
  destruct (shuffle_and_split_spec Hs Hp Hadv) as [P2 D2].
  destruct (shuffle_and_split_spec Hs Hp Htgt) as [P3 D3].
  destruct Hs as (Hmb & Hsz & HT & HN & Hassert).
  split; [|split; [exact P1|split; [exact P2|split; [exact P3|split]]]].
  - replace (NUM_ENVS c * NUM_STEPS c)%Z with (Train.batch_size c) by lia.
    exact Hp.
  - intros k j Hk Hj.
    destruct (D1 k j Hk Hj) as [i [Hi H1]].
    destruct (D2 k j Hk Hj) as [i2 [Hi2 H2]].
    destruct (D3 k j Hk Hj) as [i3 [Hi3 H3]].
    assert (i2 = i) by congruence. assert (i3 = i) by congruence. subst.
    exists i. unfold drawn_by. auto.
  - apply update_epoch_unfold. exact Hassert.
Qed.

End Scheduler.

Lemma toy_permutation_contract : permutation_contract (E := Toy.toy).
Proof.
  intros k n. simpl. unfold Toy.toy_permutation.
  destruct (Nat.even k); [reflexivity | symmetry; apply Permutation_rev].
Qed.

Lemma minibatch_scheduler_witness :
  partitions Toy.epoch_config [3; 2; 1; 0]%nat Toy.epoch_tgt
    [[23; 22]; [21; 20]].
Proof.
  destruct (@minibatch_scheduler Toy.toy Toy.epoch_config Compiled
              (TrainState_create (E := Toy.toy) []) 0%nat
              Toy.epoch_traj Toy.epoch_adv Toy.epoch_tgt)
    as (_ & _ & _ & H & _).
  - exact toy_permutation_contract.
  - repeat split; (reflexivity || discriminate).
  - split; [reflexivity | repeat constructor].
  - split; [reflexivity | repeat constructor].
  - split; [reflexivity | repeat constructor].
  - exact H.
Defined.

(* ===================================================================== *)
(** * Properties of the update engine *)
(* ===================================================================== *)

Lemma nth_error_map2_Some {A B C : Type} (f : A -> B -> C) (xs : list A)
  (ys : list B) (i : nat) (z : C) :
  nth_error (Arr.map2 f xs ys) i = Some z ->
  exists x y, nth_error xs i = Some x /\ nth_error ys i = Some y /\ z = f x y.
Proof.
  rewrite nth_error_map2.
  destruct (nth_error xs i) as [x|]; [|discriminate].
  destruct (nth_error ys i) as [y|]; [|discriminate].
  intros H. injection H as <-. eauto.
Qed.

Lemma nth_error_map_Some {A B : Type} (f : A -> B) (xs : list A) (i : nat)
  (z : B) :
  nth_error (map f xs) i = Some z ->
  exists x, nth_error xs i = Some x /\ z = f x.
Proof.
  rewrite nth_error_map. destruct (nth_error xs i) as [x|]; [|discriminate].
  intros H. injection H as <-. eauto.
Qed.

Lemma In_firstn_incl_aux {A : Type} (n : nat) (x : list A) (a : A) :
  In a (firstn n x) -> In a x.
Proof.
  intros H. rewrite <- (firstn_skipn n x). apply in_or_app. left. exact H.
Qed.

Lemma In_skipn_incl_aux {A : Type} (n : nat) (x : list A) (a : A) :
  In a (skipn n x) -> In a x.
Proof.
  intros H. rewrite <- (firstn_skipn n x). apply in_or_app. right. exact H.
Qed.

(** One iteration of a scan whose body executes [t] and returns. *)
Lemma loop_step {C Y : Type} (f : C -> M (C * Y)) (init c' : C) (y : Y)
  (t : list event) (n : nat) :
  f init = (t, inr (c', y)) ->
  Scan.loop f init (S n)
  = bind (t, inr tt) (fun _ =>
      bind (Scan.loop f c' n) (fun r => ret (fst r, y :: snd r))).
Proof.
  intros H. simpl. rewrite H. unfold bind at 1. unfold bind at 2.
  destruct (Scan.loop f c' n) as [t' [e|[c'' ys]]]; reflexivity.
Qed.

Section EngineFacts.

Context {E : Externals}.
Variable c : train_config.

Local Abbreviation sample := (Transition Action Obs Info).

(** One minibatch pass executes one optimizer step and never raises. *)
Lemma update_minbatch_unfold (tau zeta_abs : Q) (ts : TrainState)
  (mt : list sample) (ma mg : list Q) :
  Train._update_minbatch_at c tau zeta_abs ts (mt, ma, mg)
  = ([ApplyGradients],
     inr (apply_gradients ts
            (Train.averaged_grads (ts_params ts)
               (map snd
                  (Train.per_sample c tau (ts_params ts)
                     (combine (combine mt (Train.normalize ma)) mg)))),
          {| total_loss :=
               map fst (map fst
                  (Train.per_sample c tau (ts_params ts)
                     (combine (combine mt (Train.normalize ma)) mg)));
             auxiliary_losses :=
               map snd (map fst
                  (Train.per_sample c tau (ts_params ts)
                     (combine (combine mt (Train.normalize ma)) mg)));
             threshold_gsm :=
               Instrumentation.threshold_grad_second_moment
                 (tree_map (map (map Num.square))
                    (Train.stack (ts_params ts)
                       (map snd
                          (Train.per_sample c tau (ts_params ts)
                             (combine (combine mt (Train.normalize ma))
                                mg)))))
                 zeta_abs |})).
Proof. reflexivity. Qed.

Lemma env_step_unfold (ts : TrainState) (es : EnvState) (last_obs : list Obs)
  (rng : Key) :
  exists es' obsv rng' transition,
    Train._env_step c (ts, es, last_obs, rng)
    = ([EnvStep], inr ((ts, es', obsv, rng'), transition))
    /\ Forall (on_policy (ts_params ts)) transition.
Proof.
  unfold Train._env_step.
  destruct (split rng) as [rng1 _rng1].
  destruct (split rng1) as [rng2 _rng2].
  destruct (env_step (split_n _rng2 (NUM_ENVS c)) es _)
    as [[[[obsv es'] reward] done] info].
  eexists es', obsv, rng2, _. split; [reflexivity|].
  apply Forall_forall. intros t Ht.
  apply In_nth_error in Ht. destruct Ht as [i Hi].
  unfold Train.zap in Hi.
  repeat match goal with
         | H : nth_error (Arr.map2 _ _ _) _ = Some _ |- _ =>
             apply nth_error_map2_Some in H;
             destruct H as (? & ? & ? & ? & ?)
         | H : nth_error (map _ _) _ = Some _ |- _ =>
             apply nth_error_map_Some in H; destruct H as (? & ? & ?)
         end.
  subst. unfold on_policy, new_log_prob. simpl. congruence.
Qed.

(** The rollout: [n] environment steps, no error, the model state
    handed on unchanged, and every recorded transition on-policy for
    it. *)
Lemma rollout_loop (n : nat) (rs : Train.runner) :
  exists rs' traj,
    Scan.loop (Train._env_step c) rs n = (repeat EnvStep n, inr (rs', traj))
    /\ state_of rs' = state_of rs
    /\ length traj = n
    /\ Forall (Forall (on_policy (ts_params (state_of rs)))) traj.
Proof.
  revert rs. induction n as [|n IH]; intros rs.
  - exists rs, []. repeat split; constructor.
  - destruct rs as [[[ts es] lo] rng].
    destruct (env_step_unfold ts es lo rng)
      as (es' & obsv & rng' & transition & Hstep & Hpol).
    destruct (IH (ts, es', obsv, rng')) as (rs' & traj & Hloop & Hst & Hlen & Hall).
    exists rs', (transition :: traj).
    rewrite (loop_step _ _ _ Hstep), Hloop. simpl. rewrite app_nil_r.
    repeat split.
    + exact Hst.
    + rewrite Hlen. reflexivity.
    + constructor; [exact Hpol | exact Hall].
Qed.

Lemma scan_length_inr {C Y : Type} (md : mode) (f : C -> M (C * Y)) (init : C)
  (n : Z) (tr : list event) (r : C * list Y) :
  Scan.scan_length md f init n = (tr, inr r) ->
  Scan.loop f init (Z.to_nat n) = (tr, inr r).
Proof.
  unfold Scan.scan_length, Scan.guard.
  destruct md; [destruct (n <=? 0)%Z|]; simpl;
    try discriminate;
    destruct (Scan.loop f init (Z.to_nat n)) as [t [e|x]]; simpl;
    intros H; exact H.
Qed.

Lemma take_incl {A : Type} (x : list A) (idx : list nat) :
  incl (Arr.take x idx) x.
Proof.
  intros a Ha. unfold Arr.take in Ha. apply in_flat_map in Ha.
  destruct Ha as (i & _ & Hi).
  destruct (nth_error x i) as [b|] eqn:Hb; [|contradiction].
  destruct Hi as [<-|[]]. eapply nth_error_In. exact Hb.
Qed.

Lemma chunks_incl {A : Type} (n size : nat) (x row : list A) :
  In row (Arr.chunks n size x) -> incl row x.
Proof.
  revert x. induction n as [|n IH]; intros x H; [contradiction|].
  destruct H as [<-|H].
  - intros a Ha. eapply In_firstn_incl_aux. exact Ha.
  - intros a Ha. apply (IH _ H) in Ha. eapply In_skipn_incl_aux. exact Ha.
Qed.

End EngineFacts.

Section PolicyLoss.

Context {E : Externals}.
Variable c : train_config.

Local Abbreviation sample := (Transition Action Obs Info).

Lemma clip_one (eps : Q) (r : Q) :
  0 <= eps -> r == 1 -> Num.clip r (1 - eps) (1 + eps) == 1.
Proof.
  intros He Hr. unfold Num.clip.
  assert (H1 : Qmax r (1 - eps) == r) by (apply Q.max_l; lra).
  assert (H2 : Qmin (Qmax r (1 - eps)) (1 + eps) == Qmax r (1 - eps))
    by (apply Q.min_l; lra).
  lra.
Qed.

(** With a ratio of 1 the clipped surrogate of one sample is the negated
    advantage. *)
Lemma actor_loss_on_policy (p : params) (t : sample) (gae : Q) :
  exp_contract -> 0 <= CLIP_EPS c -> on_policy p t ->
  exp (new_log_prob p t - log_prob t) == 1 /\
  Train.actor_loss c (new_log_prob p t) t gae == - gae.
Proof.
  intros [Hexp0 Hexp] Heps Hpol.
  assert (Hr : exp (new_log_prob p t - log_prob t) == 1).
  { rewrite <- Hexp0. apply Hexp. rewrite Hpol. ring. }
  split; [exact Hr|].
  unfold Train.actor_loss, Train.mean0.
  set (r := exp (new_log_prob p t - log_prob t)) in *.
  pose proof (clip_one Heps Hr) as Hc.
  set (k := Num.clip r (1 - CLIP_EPS c) (1 + CLIP_EPS c)) in *.
  assert (Hmin : Qmin (r * gae) (k * gae) == r * gae).
  { apply Q.min_l. rewrite Hr, Hc. lra. }
  rewrite Hmin, Hr. ring.
Qed.

Lemma loss_fn_actor (tau : Q) (p : params) (t : sample) (gae targets : Q) :
  loss_actor (snd (Train._loss_fn_at c tau p t gae targets))
  = Train.actor_loss c (new_log_prob p t) t gae.
Proof.
  reflexivity.
Qed.

Lemma per_sample_actor (tau : Q) (p : params)
  (batch : list (sample * Q * Q)) :
  exp_contract -> 0 <= CLIP_EPS c ->
  Forall (fun b => on_policy p (fst (fst b))) batch ->
  Forall2 (fun a l => loss_actor l == - a)
    (map (fun b => snd (fst b)) batch)
    (map snd (map fst (Train.per_sample c tau p batch))).
Proof.
  intros Hexp Heps Hall. induction Hall as [|[[t a] g] batch Hb Hall IH].
  - constructor.
  - cbn [map]. constructor; [|exact IH].
    exact (proj2 (actor_loss_on_policy a Hexp Heps Hb)).
Qed.

Lemma mean_negated {X : Type} (f : X -> Q) (a : list Q) (l : list X) :
  Forall2 (fun a x => f x == - a) a l ->
  Num.mean (map f l) == - Num.mean a.
Proof.
  intros H. unfold Num.mean.
  assert (Hs : Num.sum (map f l) == - Num.sum a).
  { induction H as [|x y a l Hxy H IH]; simpl; [reflexivity|].
    rewrite IH, Hxy. ring. }
  assert (Hl : Num.len (map f l) = Num.len a).
  { unfold Num.len. rewrite length_map, (Forall2_length H). reflexivity. }
  rewrite Hl, Hs. unfold Qdiv. ring.
Qed.

Lemma combine_on_policy (p : params) (mt : list sample) (ma mg : list Q) :
  Forall (on_policy p) mt ->
  Forall (fun b => on_policy p (fst (fst b))) (combine (combine mt ma) mg).
Proof.
  intros H. revert ma mg. induction H as [|t mt Ht H IH]; intros ma mg.
  - constructor.
  - destruct ma as [|a ma]; [constructor|].
    destruct mg as [|g mg]; [constructor|].
    simpl. constructor; [exact Ht | apply IH].
Qed.

(** C4.  After the rollout of an update step the model state is the one
    the rollout started from, so at the first minibatch of the first
    epoch, whatever the permutation, the importance ratio
    [exp(new_log_prob - old_log_prob)] of every sample is 1, the
    clipped-surrogate policy loss of every sample is the negation of the
    advantage fed to the loss for that sample, and its mean over the
    minibatch is minus the mean of those advantages. *)
Theorem first_minibatch_policy_loss (md : mode) (rs rs' : Train.runner)
  (tr : list event) (traj : list (list sample)) (perm : list nat)
  (adv tgt : list (list Q)) (batch : list sample * list Q * list Q)
  (rest : list (list sample * list Q * list Q)) :
  exp_contract -> 0 <= CLIP_EPS c ->
  Scan.scan_length md (Train._env_step c) rs (NUM_STEPS c)
  = (tr, inr (rs', traj)) ->
  combine
    (combine (Train.shuffle_and_split c perm traj)
       (Train.shuffle_and_split c perm adv))
    (Train.shuffle_and_split c perm tgt) = batch :: rest ->
  state_of rs' = state_of rs
  /\ Forall (fun t =>
       exp (new_log_prob (ts_params (state_of rs')) t - log_prob t) == 1)
       (fst (fst batch))
  /\ exists ts2 li,
       Train._update_minbatch c (state_of rs') batch
       = ([ApplyGradients], inr (ts2, li))
       /\ Forall2 (fun a l => loss_actor l == - a)
            (fed_advantages batch) (auxiliary_losses li)
       /\ Num.mean (map loss_actor (auxiliary_losses li))
          == - Num.mean (fed_advantages batch).
Proof.
  intros Hexp Heps Hroll Hbatch.
  apply scan_length_inr in Hroll.
  destruct (rollout_loop c (Z.to_nat (NUM_STEPS c)) rs)
    as (rs0 & traj0 & Hloop & Hst & _ & Hall).
  rewrite Hloop in Hroll. injection Hroll as _ -> ->.
  destruct batch as [[mt ma] mg].
  assert (Hmt : Forall (on_policy (ts_params (state_of rs'))) mt).
  { rewrite Hst. apply Forall_forall. intros t Ht.
    assert (Hin : In mt (Train.shuffle_and_split c perm traj)).
    { destruct (Train.shuffle_and_split c perm traj) as [|r0 rows];
        [discriminate|].
      destruct (Train.shuffle_and_split c perm adv) as [|a0 arows];
        [discriminate|].
      destruct (Train.shuffle_and_split c perm tgt) as [|g0 grows];
        [discriminate|].
      simpl in Hbatch. injection Hbatch as <- _ _ _. left. reflexivity. }
    apply chunks_incl in Hin. apply Hin, take_incl in Ht.
    unfold Arr.flatten2 in Ht. apply in_concat in Ht.
    destruct Ht as (row & Hrow & Ht).
    rewrite Forall_forall in Hall. specialize (Hall row Hrow).
    rewrite Forall_forall in Hall. apply Hall. exact Ht. }
  split; [exact Hst|]. split.
  - simpl. apply Forall_forall. intros t Ht.
    rewrite Forall_forall in Hmt.
    apply (actor_loss_on_policy 0 Hexp Heps (Hmt t Ht)).
  - unfold Train._update_minbatch. rewrite update_minbatch_unfold.
    eexists _, _. split; [reflexivity|].
    assert (HF : Forall2 (fun a l => loss_actor l == - a)
              (fed_advantages (mt, ma, mg))
              (map snd (map fst
                 (Train.per_sample c (TAU c) (ts_params (state_of rs'))
                    (combine (combine mt (Train.normalize ma)) mg))))).
    { apply per_sample_actor; try assumption.
      apply combine_on_policy. exact Hmt. }
    split; [exact HF|]. simpl auxiliary_losses.
    apply mean_negated. exact HF.
Qed.

End PolicyLoss.

Lemma toy_exp_contract : exp_contract (E := Toy.toy).
Proof.
  split.
  - reflexivity.
  - intros x y H. unfold exp, Toy.toy. rewrite !Qred_correct, H. reflexivity.
Qed.

Lemma first_minibatch_policy_loss_witness :
  Forall (fun t : Transition Q Q unit =>
    exp (Externals := Toy.toy)
      (new_log_prob (E := Toy.toy)
         (ts_params (state_of (fst Toy.rollout_end))) t
       - log_prob t) == 1)
    (fst (fst Toy.first_batch)).
Proof.
  destruct (@first_minibatch_policy_loss Toy.toy Toy.epoch_config Compiled
              Toy.rollout_start (fst Toy.rollout_end) [EnvStep; EnvStep]
              (snd Toy.rollout_end) [3; 2; 1; 0]%nat Toy.epoch_adv
              Toy.epoch_tgt Toy.first_batch
              (tl (combine
                 (combine
                    (Train.shuffle_and_split Toy.epoch_config
                       [3; 2; 1; 0]%nat (snd Toy.rollout_end))
                    (Train.shuffle_and_split Toy.epoch_config
                       [3; 2; 1; 0]%nat Toy.epoch_adv))
                 (Train.shuffle_and_split Toy.epoch_config
                    [3; 2; 1; 0]%nat Toy.epoch_tgt))))
    as (_ & H & _).
  - exact toy_exp_contract.
  - discriminate.
  - vm_compute. reflexivity.
  - vm_compute. reflexivity.
  - exact H.
Defined.

(* ===================================================================== *)
(** * The diagnostics are observational *)
(* ===================================================================== *)

Section Observational.

Context {E : Externals}.
Variable c : train_config.

Local Abbreviation sample := (Transition Action Obs Info).

(** The per-sample gradients do not depend on the dormancy threshold:
    the gradient is taken of the first component of the loss only. *)
Lemma per_sample_grads_plain (tau : Q) (p : params)
  (batch : list (sample * Q * Q)) :
  map snd (Train.per_sample c tau p batch)
  = map (fun b => let '(t, a, g) := b in
                  grad (fun p' => total_loss_plain c p' t a g) p) batch.
Proof.
  unfold Train.per_sample. rewrite map_map. apply map_ext.
  intros [[t a] g]. reflexivity.
Qed.

Lemma per_sample_losses_plain (tau : Q) (p : params)
  (batch : list (sample * Q * Q)) :
  map fst (map fst (Train.per_sample c tau p batch))
  = map (fun b => let '(t, a, g) := b in total_loss_plain c p t a g) batch.
Proof.
  unfold Train.per_sample. rewrite !map_map. apply map_ext.
  intros [[t a] g]. reflexivity.
Qed.

(** What a minibatch pass does to the model state, whatever the two
    thresholds are. *)
Lemma update_minbatch_state (tau zeta_abs : Q) (ts : TrainState)
  (batch : list sample * list Q * list Q) :
  exists li,
    Train._update_minbatch_at c tau zeta_abs ts batch
    = ([ApplyGradients],
       inr (apply_gradients ts (grads_plain c (ts_params ts) batch), li))
    /\ total_loss li
       = map (fun b => let '(t, a, g) := b in
                       total_loss_plain c (ts_params ts) t a g)
           (combine (combine (fst (fst batch))
                       (Train.normalize (snd (fst batch)))) (snd batch)).
Proof.
  destruct batch as [[mt ma] mg].
  rewrite update_minbatch_unfold. eexists. split.
  - unfold grads_plain. rewrite per_sample_grads_plain. reflexivity.
  - simpl. apply per_sample_losses_plain.
Qed.

(** C6.  For every model state and minibatch, and any two pairs of
    thresholds, a minibatch pass applies the same averaged gradient,
    returns the same new model state and the same per-sample losses, and
    executes the same events; they are those of the update engine with
    no diagnostic computed. *)
Theorem diagnostics_noninterference (tau tau' zeta_abs zeta_abs' : Q)
  (ts : TrainState) (batch : list sample * list Q * list Q) :
  exists li li',
    Train._update_minbatch_at c tau zeta_abs ts batch
    = ([ApplyGradients],
       inr (apply_gradients ts (grads_plain c (ts_params ts) batch), li))
    /\ Train._update_minbatch_at c tau' zeta_abs' ts batch
       = ([ApplyGradients],
          inr (apply_gradients ts (grads_plain c (ts_params ts) batch), li'))
    /\ update_minbatch_plain c ts batch
       = ([ApplyGradients],
          inr (apply_gradients ts (grads_plain c (ts_params ts) batch)))
    /\ total_loss li = total_loss li'.
Proof.
  destruct (update_minbatch_state tau zeta_abs ts batch) as (li & H & Hl).
  destruct (update_minbatch_state tau' zeta_abs' ts batch) as (li' & H' & Hl').
  exists li, li'. repeat split; try assumption.
  rewrite Hl, Hl'. reflexivity.
Qed.

End Observational.

(* ===================================================================== *)
(** * The diagnostics at a zero denominator *)
(* ===================================================================== *)

Section Rates.

Lemma sum_b2q_bounds (l : list bool) :
  0 <= Num.sum (map Num.b2q l) <= Num.len l.
Proof.
  unfold Num.len. induction l as [|b l IH].
  - split; apply Qle_refl.
  - change (length (b :: l)) with (S (length l)).
    rewrite Nat2Z.inj_succ. unfold Z.succ. rewrite inject_Z_plus.
    simpl Num.sum. change (inject_Z 1) with 1.
    destruct b; simpl Num.b2q; lra.
Qed.

Lemma len_pos {A : Type} (l : list A) : l <> [] -> 0 < Num.len l.
Proof.
  intros H. unfold Num.len. destruct l as [|a l]; [contradiction|].
  change 0 with (inject_Z 0). rewrite <- Zlt_Qlt. simpl. lia.
Qed.

(** The mean of a non-empty boolean array is a finite value of [0, 1]. *)
Lemma fmean_bool_rate (l : list bool) :
  l <> [] -> exists q, Num.fmean_bool l = Fin q /\ 0 <= q <= 1.
Proof.
  intros Hl. unfold Num.fmean_bool, Num.fmean, Num.fdiv.
  assert (Hpos : 0 < Num.len (map Num.b2q l)).
  { apply len_pos. destruct l; [contradiction | discriminate]. }
  assert (Hlen : Num.len (map Num.b2q l) = Num.len l).
  { unfold Num.len. rewrite length_map. reflexivity. }
  destruct (Qeq_bool (Num.len (map Num.b2q l)) 0) eqn:Hz.
  { apply Qeq_bool_eq in Hz. lra. }
  eexists. split; [reflexivity|].
  pose proof (sum_b2q_bounds l) as [H0 H1]. rewrite <- Hlen in H1.
  split.
  - apply Qle_shift_div_l; [exact Hpos | lra].
  - apply Qle_shift_div_r; [exact Hpos | lra].
Qed.

Lemma fmean_bool_all_false (l : list bool) :
  l <> [] -> Forall (fun b => b = false) l ->
  exists q, Num.fmean_bool l = Fin q /\ q == 0.
Proof.
  intros Hl Hall. unfold Num.fmean_bool, Num.fmean, Num.fdiv.
  assert (Hpos : 0 < Num.len (map Num.b2q l)).
  { apply len_pos. destruct l; [contradiction | discriminate]. }
  destruct (Qeq_bool (Num.len (map Num.b2q l)) 0) eqn:Hz.
  { apply Qeq_bool_eq in Hz. lra. }
  eexists. split; [reflexivity|].
  assert (Hs : Num.sum (map Num.b2q l) == 0).
  { clear Hl Hpos Hz. induction Hall as [|b l Hb Hall IH]; simpl.
    - reflexivity.
    - rewrite Hb, IH. reflexivity. }
  rewrite Hs. unfold Qdiv. ring.
Qed.

(** A quotient with a zero denominator and a non-negative numerator is
    nan or +inf, and no comparison [<= t] holds of it. *)
Lemma fl_div_zero_not_leb (a : fl) (d t : Q) :
  d == 0 ->
  match a with
  | Fin x => 0 <= x
  | NaN => True
  | _ => False
  end ->
  Num.is_finite (Num.fl_div a (Fin d)) = false /\
  Num.fl_leb (Num.fl_div a (Fin d)) t = false.
Proof.
  intros Hd Ha. destruct a as [x| | |]; try contradiction; simpl.
  - unfold Num.fdiv. rewrite (Qeq_eq_bool _ _ Hd).
    destruct (Qeq_bool x 0); [split; reflexivity|].
    destruct (Qle_bool 0 x) eqn:Hx; [split; reflexivity|].
    apply Qle_bool_iff in Ha. congruence.
  - split; reflexivity.
Qed.

Lemma sum_nonneg (l : list Q) : Forall (fun x => 0 <= x) l -> 0 <= Num.sum l.
Proof.
  intros H. induction H as [|x l Hx H IH]; simpl; lra.
Qed.

Lemma fmean_nonneg (l : list Q) :
  Forall (fun x => 0 <= x) l ->
  match Num.fmean l with
  | Fin x => 0 <= x
  | NaN => True
  | _ => False
  end.
Proof.
  intros H. unfold Num.fmean, Num.fdiv.
  pose proof (sum_nonneg H) as Hs.
  destruct (Qeq_bool (Num.len l) 0) eqn:Hz.
  - destruct (Qeq_bool (Num.sum l) 0) eqn:Hs0; [exact I|].
    destruct (Qle_bool 0 (Num.sum l)) eqn:Hle;
      [|apply Qle_bool_iff in Hs; congruence].
    destruct l as [|x l]; [discriminate Hs0|].
    apply Qeq_bool_eq in Hz.
    assert (0 < Num.len (x :: l)) by (apply len_pos; discriminate). lra.
  - apply Qle_shift_div_l; [|lra].
    assert (Hn : Num.len l == 0 -> False).
    { intros Heq. apply Qeq_eq_bool in Heq. congruence. }
    assert (0 <= Num.len l).
    { unfold Num.len. change 0 with (inject_Z 0). rewrite <- Zle_Qle. lia. }
    lra.
Qed.

Lemma column_nonneg (j : nat) (rows : list (list Q)) :
  Forall (Forall (fun x => 0 <= x)) rows ->
  Forall (fun x => 0 <= x) (Arr.column j rows).
Proof.
  intros H. unfold Arr.column. apply Forall_forall. intros x Hx.
  apply in_flat_map in Hx. destruct Hx as (r & Hr & Hx).
  destruct (nth_error r j) as [y|] eqn:Hy; [|contradiction].
  destruct Hx as [<-|[]].
  rewrite Forall_forall in H. specialize (H r Hr).
  rewrite Forall_forall in H. apply H. eapply nth_error_In. exact Hy.
Qed.

Lemma rate_finite (t : Q) (rows : list (list Q)) :
  (0 < Arr.width rows)%nat ->
  exists q, rate t rows = Fin q /\ 0 <= q <= 1.
Proof.
  intros Hw. apply fmean_bool_rate. unfold Arr.columns.
  destruct (Arr.width rows); [lia | discriminate].
Qed.

Lemma rate_zero_denominator (t d : Q) (rows : list (list Q)) :
  (0 < Arr.width rows)%nat ->
  Forall (Forall (fun x => 0 <= x)) rows ->
  Num.fmean (concat rows) = Fin d -> d == 0 ->
  Forall (fun col => Num.is_finite (slot_ratio rows col) = false)
    (Arr.columns rows)
  /\ exists q, rate t rows = Fin q /\ q == 0.
Proof.
  intros Hw Hpos Hmean Hd. unfold slot_ratio.
  assert (Hcols : forall col, In col (Arr.columns rows) ->
            Forall (fun x => 0 <= x) col).
  { intros col Hc. unfold Arr.columns in Hc. apply in_map_iff in Hc.
    destruct Hc as (j & <- & _). apply column_nonneg. exact Hpos. }
  split.
  - apply Forall_forall. intros col Hc. rewrite Hmean.
    apply fl_div_zero_not_leb with (t := t); [exact Hd|].
    apply fmean_nonneg, Hcols, Hc.
  - apply fmean_bool_all_false.
    + unfold Arr.columns. destruct (Arr.width rows); [lia | discriminate].
    + apply Forall_forall. intros b Hb. apply in_map_iff in Hb.
      destruct Hb as (col & <- & Hc). rewrite Hmean.
      apply fl_div_zero_not_leb; [exact Hd|].
      apply fmean_nonneg, Hcols, Hc.
Qed.

Lemma width_map {A B : Type} (f : A -> B) (rows : list (list A)) :
  Arr.width (map (map f) rows) = Arr.width rows.
Proof. destruct rows; simpl; [reflexivity | apply length_map]. Qed.

Lemma map_map_nonneg (f : Q -> Q) (rows : list (list Q)) :
  (forall x, 0 <= f x) ->
  Forall (Forall (fun x => 0 <= x)) (map (map f) rows).
Proof.
  intros Hf. apply Forall_forall. intros r Hr. apply in_map_iff in Hr.
  destruct Hr as (r0 & <- & _). apply Forall_forall. intros x Hx.
  apply in_map_iff in Hx. destruct Hx as (x0 & <- & _). apply Hf.
Qed.

Lemma square_nonneg (x : Q) : 0 <= Num.square x.
Proof. unfold Num.square. nra. Qed.

End Rates.

Section ZeroDenominator.

Context {E : Externals}.
Variable c : train_config.

(** C9, as the code has it.  When the overall mean a diagnostic divides
    by is zero, the quotient of every neuron or slot is not finite (nan
    or +inf), no comparison with the threshold holds of it, and the
    diagnostic value is the finite rate 0; and whatever the diagnostics
    are, a minibatch pass applies the gradient and returns the model
    state of the update engine with no diagnostic computed. *)
Theorem zero_denominator_diagnostics (tau zeta_abs : Q)
  (activations grad_second_moment : list (list Q)) :
  (0 < Arr.width activations)%nat ->
  (0 < Arr.width grad_second_moment)%nat ->
  zero_denominator (map (map Qabs) activations) ->
  zero_denominator (map (map Num.square) grad_second_moment) ->
  Forall (fun col =>
            Num.is_finite (slot_ratio (map (map Qabs) activations) col)
            = false)
    (Arr.columns (map (map Qabs) activations))
  /\ (exists q,
        Instrumentation._layer_dormancy tau activations = Fin q /\ q == 0)
  /\ Forall (fun col =>
        Num.is_finite
          (slot_ratio (map (map Num.square) grad_second_moment) col)
        = false)
       (Arr.columns (map (map Num.square) grad_second_moment))
  /\ (exists q,
        Instrumentation._threshold_grad_second_moment zeta_abs
          (map (map Num.square) grad_second_moment) = Fin q /\ q == 0)
  /\ (forall (ts : TrainState)
        (batch : list (Transition Action Obs Info) * list Q * list Q),
        exists li,
          Train._update_minbatch_at c tau zeta_abs ts batch
          = ([ApplyGradients],
             inr (apply_gradients ts (grads_plain c (ts_params ts) batch),
                  li))).
Proof.
  intros Hwa Hwg (da & Hda & Hda0) (dg & Hdg & Hdg0).
  destruct (@rate_zero_denominator tau da (map (map Qabs) activations))
    as [Ha1 Ha2]; try assumption.
  { rewrite width_map. exact Hwa. }
  { apply map_map_nonneg. apply Qabs_nonneg. }
  destruct (@rate_zero_denominator zeta_abs dg
              (map (map Num.square) grad_second_moment))
    as [Hg1 Hg2]; try assumption.
  { rewrite width_map. exact Hwg. }
  { apply map_map_nonneg. apply square_nonneg. }
  repeat split; try assumption.
  intros ts batch.
  destruct (update_minbatch_state c tau zeta_abs ts batch) as (li & H & _).
  exists li. exact H.
Qed.

End ZeroDenominator.

(** An all-zero activation snapshot and an all-zero gradient tensor. *)
Lemma zero_denominator_diagnostics_witness :
  exists q,
    Instrumentation._layer_dormancy (1 # 10) [[0; 0; 0]] = Fin q /\ q == 0.
Proof.
  destruct (@zero_denominator_diagnostics Toy.toy Toy.epoch_config
              (1 # 10) (1 # 10) [[0; 0; 0]] [[0; 0]; [0; 0]])
    as (_ & H & _).
  - apply Nat.lt_0_succ.
  - apply Nat.lt_0_succ.
  - eexists. split; [reflexivity | reflexivity].
  - eexists. split; [reflexivity | reflexivity].
  - exact H.
Defined.

(** C9 as stated fails: with a zero denominator the diagnostic value is
    finite. *)
Lemma nonfinite_diagnostic_counterexample :
  zero_denominator (map (map Qabs) [[0; 0; 0]])
  /\ Instrumentation._layer_dormancy (1 # 10) [[0; 0; 0]] = Fin (0 # 3)
  /\ Num.is_finite (Instrumentation._layer_dormancy (1 # 10) [[0; 0; 0]])
     = true
  /\ zero_denominator (map (map Num.square) [[0; 0]; [0; 0]])
  /\ Num.is_finite
       (Instrumentation._threshold_grad_second_moment (1 # 10)
          (map (map Num.square) [[0; 0]; [0; 0]])) = true.
Proof.
  repeat split; try reflexivity.
  - eexists. split; reflexivity.
  - eexists. split; reflexivity.
Qed.

(* ===================================================================== *)
(** * Properties of the scans *)
(* ===================================================================== *)

Section ScanFacts.

Lemma bind_inr {A B : Type} (m : M A) (k : A -> M B) (tr : list event)
  (b : B) :
  bind m k = (tr, inr b) ->
  exists t1 a t2, m = (t1, inr a) /\ k a = (t2, inr b) /\ tr = t1 ++ t2.
Proof.
  unfold bind. destruct m as [t1 [e|a]]; [discriminate|].
  destruct (k a) as [t2 r] eqn:Hk. intros H. injection H as <- ->.
  eauto 6.
Qed.

Lemma bind_inl {A B : Type} (m : M A) (k : A -> M B) (t : list event)
  (e : error) :
  m = (t, inl e) -> bind m k = (t, inl e).
Proof. intros ->. reflexivity. Qed.

Lemma bind_ret_l {A B : Type} (t : list event) (a : A) (k : A -> M B) :
  bind (t, inr a) k = (t ++ fst (k a), snd (k a)).
Proof. unfold bind. destruct (k a). reflexivity. Qed.

(** A successful scan keeps an invariant of its carry, and every stacked
    output was returned by the body at a carry that satisfies it. *)
Lemma loop_invariant {C Y : Type} (f : C -> M (C * Y)) (P : C -> Prop)
  (R : C -> Y -> Prop) :
  (forall c0 t c1 y, P c0 -> f c0 = (t, inr (c1, y)) -> P c1 /\ R c0 y) ->
  forall n init tr c ys,
    P init -> Scan.loop f init n = (tr, inr (c, ys)) ->
    P c /\ length ys = n /\ Forall (fun y => exists c0, P c0 /\ R c0 y) ys.
Proof.
  intros Hf. induction n as [|n IH]; intros init tr c ys Hinit Hloop.
  - simpl in Hloop. injection Hloop as _ <- <-. auto.
  - simpl in Hloop.
    apply bind_inr in Hloop. destruct Hloop as (t1 & [c1 y] & t2 & H1 & H2 & _).
    apply bind_inr in H2. destruct H2 as (t3 & [c2 ys'] & t4 & H3 & H4 & _).
    injection H4 as _ <- <-.
    destruct (Hf _ _ _ _ Hinit H1) as [Hc1 Hy].
    destruct (IH _ _ _ _ Hc1 H3) as (Hc & Hlen & Hall).
    repeat split; [exact Hc | simpl; congruence |].
    constructor; [eauto | exact Hall].
Qed.

Lemma loop_xs_invariant {C X Y : Type} (f : C -> X -> M (C * Y))
  (P : C -> Prop) (R : X -> Y -> Prop) :
  (forall c0 x t c1 y, P c0 -> f c0 x = (t, inr (c1, y)) -> P c1 /\ R x y) ->
  forall xs init tr c ys,
    P init -> Scan.loop_xs f init xs = (tr, inr (c, ys)) ->
    P c /\ Forall2 R xs ys.
Proof.
  intros Hf. induction xs as [|x xs IH]; intros init tr c ys Hinit Hloop.
  - simpl in Hloop. injection Hloop as _ <- <-. auto.
  - simpl in Hloop.
    apply bind_inr in Hloop. destruct Hloop as (t1 & [c1 y] & t2 & H1 & H2 & _).
    apply bind_inr in H2. destruct H2 as (t3 & [c2 ys'] & t4 & H3 & H4 & _).
    injection H4 as _ <- <-.
    destruct (Hf _ _ _ _ _ Hinit H1) as [Hc1 Hy].
    destruct (IH _ _ _ _ Hc1 H3) as (Hc & Hall).
    split; [exact Hc|]. constructor; assumption.
Qed.

Lemma scan_xs_inr {C X Y : Type} (md : mode) (f : C -> X -> M (C * Y))
  (init : C) (xs : list X) (tr : list event) (r : C * list Y) :
  Scan.scan_xs md f init xs = (tr, inr r) ->
  Scan.loop_xs f init xs = (tr, inr r).
Proof.
  unfold Scan.scan_xs, Scan.guard.
  destruct md; [destruct (Z.of_nat (length xs) <=? 0)%Z|]; simpl;
    try discriminate;
    destruct (Scan.loop_xs f init xs) as [t [e|x]]; simpl;
    intros H; exact H.
Qed.

Lemma length_chunks {A : Type} (n size : nat) (x : list A) :
  length (Arr.chunks n size x) = n.
Proof.
  revert x. induction n as [|n IH]; intros x; simpl; [|rewrite IH];
    reflexivity.
Qed.

End ScanFacts.

Section EpochFacts.

Context {E : Externals}.
Variable c : train_config.

Local Abbreviation sample := (Transition Action Obs Info).

Lemma length_epoch_batches (rng : Key) (traj : list (list sample))
  (adv tgt : list (list Q)) :
  length (epoch_batches c rng traj adv tgt) = Z.to_nat (NUM_MINIBATCHES c).
Proof.
  unfold epoch_batches, Train.minibatches, Train.shuffle_and_split,
    Arr.reshape_rows. cbn [fst snd].
  rewrite !length_combine, !length_chunks, !Nat.min_id. reflexivity.
Qed.

(** An epoch that returns passed the assertion, handed on the arrays it
    received and half of its key, and returned one entry per minibatch
    of its schedule. *)
Lemma update_epoch_inversion (md : mode) (ts : TrainState)
  (traj : list (list sample)) (adv tgt : list (list Q)) (rng : Key)
  (tr : list event) (st' : Train.update_state) (lis : list loss_info) :
  Train._update_epoch c md (ts, traj, adv, tgt, rng) = (tr, inr (st', lis)) ->
  Train.batch_size c = (NUM_STEPS c * NUM_ENVS c)%Z
  /\ (exists ts', st' = (ts', traj, adv, tgt, fst (split rng)))
  /\ Forall2 (pass_on c) (epoch_batches c rng traj adv tgt) lis
  /\ length lis = Z.to_nat (NUM_MINIBATCHES c).
Proof.
  intros H.
  assert (Hassert : Train.batch_size c = (NUM_STEPS c * NUM_ENVS c)%Z).
  { destruct (Z.eqb_spec (Train.batch_size c) (NUM_STEPS c * NUM_ENVS c))
      as [Heq|Hne]; [exact Heq|].
    unfold Train._update_epoch in H. destruct (split rng) as [r1 r2].
    apply Z.eqb_neq in Hne. rewrite Hne in H. discriminate H. }
  split; [exact Hassert|].
  rewrite (update_epoch_unfold c md ts traj adv tgt rng Hassert) in H.
  fold (epoch_batches c rng traj adv tgt) in H.
  apply bind_inr in H. destruct H as (t1 & [ts' lis'] & t2 & H1 & H2 & _).
  injection H2 as _ <- <-.
  apply scan_xs_inr in H1.
  assert (Hstep : forall c0 x t c1 y, True ->
            Train._update_minbatch c c0 x = (t, inr (c1, y)) ->
            True /\ pass_on c x y).
  { intros c0 x t c1 y _ Hx. split; [exact I|]. exists c0, c1.
    destruct x as [[mt ma] mg]. unfold Train._update_minbatch in *.
    rewrite update_minbatch_unfold in *. injection Hx as <- <- <-.
    reflexivity. }
  destruct (loop_xs_invariant _ (fun _ => True) (pass_on c) Hstep _ _ I H1)
    as [_ HF].
  repeat split.
  - exists ts'. reflexivity.
  - exact HF.
  - rewrite <- (Forall2_length HF). apply length_epoch_batches.
Qed.

(** An update step that returns: the rollout produced the trajectory,
    the advantages and targets were computed from it once, the epoch
    scan was started on these arrays and ended on them, every epoch was
    given them, and the metrics are made of what the epochs returned. *)
Lemma update_step_inversion (md : mode) (rs rs' : Train.runner)
  (tr : list event) (m : metric) :
  Train._update_step c md rs = (tr, inr (rs', m)) ->
  exists tr1 rs1 traj tr2 ts' rng' epochs,
    Scan.scan_length md (Train._env_step c) rs (NUM_STEPS c)
    = (tr1, inr (rs1, traj))
    /\ Scan.scan_length md (Train._update_epoch c md)
         (state_of rs1, traj,
          fst (Train.advantages_and_targets c (state_of rs1) (obs_of rs1) traj),
          snd (Train.advantages_and_targets c (state_of rs1) (obs_of rs1) traj),
          snd rs1)
         (UPDATE_EPOCHS c)
       = (tr2,
          inr ((ts', traj,
                fst (Train.advantages_and_targets c (state_of rs1)
                       (obs_of rs1) traj),
                snd (Train.advantages_and_targets c (state_of rs1)
                       (obs_of rs1) traj),
                rng'), epochs))
    /\ m = Train.make_metric traj epochs
    /\ length epochs = Z.to_nat (UPDATE_EPOCHS c)
    /\ Forall
         (epoch_on c md traj
            (fst (Train.advantages_and_targets c (state_of rs1)
                    (obs_of rs1) traj))
            (snd (Train.advantages_and_targets c (state_of rs1)
                    (obs_of rs1) traj)))
         epochs
    /\ state_of rs' = ts'
    /\ tr = tr1 ++ tr2.
Proof.
  intros H. unfold Train._update_step in H.
  apply bind_inr in H.
  destruct H as (tr1 & [[[[ts es] lo] rng] traj] & t2 & Hroll & H & ->).
  apply bind_inr in H. destruct H as (t3 & [] & t4 & Hguard & H & ->).
  assert (t3 = []) as ->.
  { unfold Scan.guard in Hguard.
    destruct md; [destruct (_ <=? 0)%Z|]; inversion Hguard; reflexivity. }
  unfold state_of, obs_of. cbn [fst snd].
  destruct (Train.advantages_and_targets c ts lo traj) as [adv tgt] eqn:Hadv.
  apply bind_inr in H.
  destruct H as (tr2 & [[[[[ts' a] b] d] rng'] epochs] & t5 & Hep & H & ->).
  injection H as <- <- <-.
  assert (Hloop := scan_length_inr _ _ _ _ Hep).
  destruct (@loop_invariant _ _ (Train._update_epoch c md)
              (fun st => exists ts0 rng0, st = (ts0, traj, adv, tgt, rng0))
              (fun _ lis => epoch_on c md traj adv tgt lis))
    with (n := Z.to_nat (UPDATE_EPOCHS c)) (init := (ts, traj, adv, tgt, rng))
         (tr := tr2) (c := (ts', a, b, d, rng')) (ys := epochs)
    as (Hfin & Hlen & Hall).
  { intros st t st1 lis (ts0 & rng0 & ->) Hst.
    destruct (update_epoch_inversion _ _ _ _ _ _ Hst)
      as (_ & (ts1 & ->) & HF & _).
    split; [eauto|].
    exists ts0, rng0, t, (ts1, traj, adv, tgt, fst (split rng0)).
    split; [exact Hst | exact HF]. }
  { eauto. }
  { exact Hloop. }
  destruct Hfin as (ts0 & rng0 & Hfin). injection Hfin as -> -> -> -> ->.
  exists tr1, (ts, es, lo, rng), traj, tr2, ts0, rng0, epochs.
  cbn [fst snd]. rewrite Hadv. cbn [fst snd].
  split; [exact Hroll|]. split; [exact Hep|]. split; [reflexivity|].
  split; [exact Hlen|].
  split; [|split; [reflexivity | simpl; rewrite app_nil_r; reflexivity]].
  apply Forall_forall. intros lis Hl. rewrite Forall_forall in Hall.
  destruct (Hall lis Hl) as (_ & _ & He). exact He.
Qed.

End EpochFacts.

Section StepTheorems.

Context {E : Externals}.
Variable c : train_config.

Local Abbreviation sample := (Transition Action Obs Info).

Lemma pass_diagnostics (ts ts' : TrainState)
  (batch : list sample * list Q * list Q) (t : list event) (li : loss_info) :
  Train._update_minbatch c ts batch = (t, inr (ts', li)) ->
  map dormancies (auxiliary_losses li)
  = map (fun b => sample_dormancy c (ts_params ts) (fst (fst b)))
      (combine (combine (fst (fst batch))
                  (Train.normalize (snd (fst batch)))) (snd batch))
  /\ threshold_gsm li
     = batch_threshold (ts_params ts)
         (map snd
            (Train.per_sample c (TAU c) (ts_params ts)
               (combine (combine (fst (fst batch))
                           (Train.normalize (snd (fst batch))))
                  (snd batch)))).
Proof.
  destruct batch as [[mt ma] mg]. unfold Train._update_minbatch.
  rewrite update_minbatch_unfold. intros H. injection H as _ _ <-.
  split; [|reflexivity].
  cbn [auxiliary_losses fst snd]. unfold Train.per_sample.
  rewrite !map_map. apply map_ext. intros [[t0 a] g]. reflexivity.
Qed.

(** What a minibatch pass returns. *)
Lemma pass_result (ts : TrainState) (b : list sample * list Q * list Q) :
  exists li,
    Train._update_minbatch c ts b
    = ([ApplyGradients], inr (pass_state c ts b, li))
    /\ diagnostics_of li = (pass_dormancy c ts b, pass_threshold c ts b).
Proof.
  destruct (@update_minbatch_state E c (TAU c)
              Instrumentation.zeta_abs_default ts b) as (li & Heq & _).
  exists li. split; [exact Heq|].
  destruct (@pass_diagnostics ts _ b _ li Heq) as [Hd Ht].
  unfold diagnostics_of, pass_dormancy, pass_threshold, pass_samples.
  rewrite Hd, Ht. reflexivity.
Qed.

(** The minibatch scan of an epoch: one pass per minibatch, in order,
    each from the state the pass before it left. *)
Lemma loop_xs_passes (batches : list (list sample * list Q * list Q)) :
  forall ts,
  exists lis,
    Scan.loop_xs (Train._update_minbatch c) ts batches
    = (repeat ApplyGradients (length batches),
       inr (epoch_end c ts batches, lis))
    /\ map diagnostics_of lis = epoch_rows c ts batches.
Proof.
  induction batches as [|b batches IH]; intros ts.
  - exists []. split; reflexivity.
  - destruct (pass_result ts b) as (li & Heq & Hd).
    destruct (IH (pass_state c ts b)) as (lis & Hloop & Hrows).
    exists (li :: lis). split.
    + simpl Scan.loop_xs. rewrite Heq. unfold bind at 1. rewrite Hloop.
      simpl. rewrite app_nil_r. reflexivity.
    + simpl. rewrite Hd, Hrows. reflexivity.
Qed.

(** An epoch that returns: the state it leaves, the arrays and the key
    it hands on, and the diagnostics it stacks. *)
Lemma update_epoch_result (md : mode) (ts : TrainState)
  (traj : list (list sample)) (adv tgt : list (list Q)) (rng : Key)
  (tr : list event) (st' : Train.update_state) (lis : list loss_info) :
  Train._update_epoch c md (ts, traj, adv, tgt, rng) = (tr, inr (st', lis)) ->
  st' = (epoch_end c ts (epoch_batches c rng traj adv tgt),
         traj, adv, tgt, fst (split rng))
  /\ map diagnostics_of lis
     = epoch_rows c ts (epoch_batches c rng traj adv tgt)
  /\ tr = repeat ApplyGradients (Z.to_nat (NUM_MINIBATCHES c)).
Proof.
  intros H.
  destruct (update_epoch_inversion c _ _ _ _ _ _ H) as (Hassert & _).
  rewrite (update_epoch_unfold c md ts traj adv tgt rng Hassert) in H.
  fold (epoch_batches c rng traj adv tgt) in H.
  apply bind_inr in H. destruct H as (t1 & [ts' lis'] & t2 & H1 & H2 & ->).
  injection H2 as <- <- <-. cbn [fst snd]. rewrite app_nil_r.
  apply scan_xs_inr in H1.
  destruct (loop_xs_passes (epoch_batches c rng traj adv tgt) ts)
    as (lis0 & Hloop & Hrows).
  rewrite Hloop in H1. injection H1 as <- <- <-.
  rewrite length_epoch_batches. auto.
Qed.

Lemma advance_succ_r (n : nat) (rng : Key) :
  advance n (fst (split rng)) = advance (S n) rng.
Proof. unfold advance. symmetry. apply Nat.iter_succ_r. Qed.

(** The epoch scan of an update step that returns: epoch [k] is run on
    the three arrays the scan started with, with the key after [k]
    splits, from the state epoch [k - 1] left. *)
Lemma epochs_result (md : mode) (traj : list (list sample))
  (adv tgt : list (list Q)) (n : nat) :
  forall ts rng tr st' epochs,
    Scan.loop (Train._update_epoch c md) (ts, traj, adv, tgt, rng) n
    = (tr, inr (st', epochs)) ->
    st' = (epochs_end c n ts rng traj adv tgt, traj, adv, tgt, advance n rng)
    /\ map (map diagnostics_of) epochs = epochs_rows c n ts rng traj adv tgt
    /\ (forall k lis, nth_error epochs k = Some lis ->
          exists t,
            Train._update_epoch c md
              (epochs_end c k ts rng traj adv tgt, traj, adv, tgt,
               advance k rng)
            = (t, inr ((epochs_end c (S k) ts rng traj adv tgt, traj, adv,
                        tgt, advance (S k) rng), lis))).
Proof.
  induction n as [|n IH]; intros ts rng tr st' epochs Hloop.
  - simpl in Hloop. injection Hloop as _ <- <-.
    split; [reflexivity|]. split; [reflexivity|].
    intros k lis Hk. destruct k; discriminate Hk.
  - simpl in Hloop.
    apply bind_inr in Hloop.
    destruct Hloop as (t1 & [st1 lis0] & t2 & H1 & H2 & _).
    apply bind_inr in H2. destruct H2 as (t3 & [st2 ys] & t4 & H3 & H4 & _).
    injection H4 as _ <- <-.
    destruct (update_epoch_result _ _ _ _ _ _ H1) as (Hst1 & Hrows & _).
    subst st1.
    destruct (IH _ _ _ _ _ H3) as (-> & Hrest & Hnth).
    split; [|split].
    + simpl epochs_end. rewrite advance_succ_r. reflexivity.
    + simpl. rewrite Hrows, Hrest. reflexivity.
    + intros k lis Hk. destruct k as [|k].
      * injection Hk as <-. exists t1. exact H1.
      * destruct (Hnth k lis Hk) as [t Ht]. exists t.
        rewrite !advance_succ_r in Ht. exact Ht.
Qed.

(** An update step that returns: its rollout, the epoch scan on what the
    rollout and the estimator returned, and what it returns from
    them. *)
Lemma update_step_result (md : mode) (rs rs' : Train.runner)
  (tr : list event) (m : metric) :
  Train._update_step c md rs = (tr, inr (rs', m)) ->
  exists tr1 rs1 traj adv tgt tr2 st' epochs,
    Scan.scan_length md (Train._env_step c) rs (NUM_STEPS c)
    = (tr1, inr (rs1, traj))
    /\ Train.advantages_and_targets c (state_of rs1) (obs_of rs1) traj
       = (adv, tgt)
    /\ Scan.scan_length md (Train._update_epoch c md)
         (state_of rs1, traj, adv, tgt, key_of rs1) (UPDATE_EPOCHS c)
       = (tr2, inr (st', epochs))
    /\ m = Train.make_metric traj epochs
    /\ rs' = (fst (fst (fst (fst st'))), env_of rs1, obs_of rs1, snd st')
    /\ tr = tr1 ++ tr2.
Proof.
  intros H. unfold Train._update_step in H.
  apply bind_inr in H.
  destruct H as (tr1 & [[[[ts es] lo] rng] traj] & t2 & Hroll & H & ->).
  apply bind_inr in H. destruct H as (t3 & [] & t4 & Hguard & H & ->).
  assert (t3 = []) as ->.
  { unfold Scan.guard in Hguard.
    destruct md; [destruct (_ <=? 0)%Z|]; inversion Hguard; reflexivity. }
  destruct (Train.advantages_and_targets c ts lo traj) as [adv tgt] eqn:Hadv.
  apply bind_inr in H.
  destruct H as (tr2 & [[[[[ts' a] b] d] rng'] epochs] & t5 & Hep & H & ->).
  injection H as <- <- <-.
  exists tr1, (ts, es, lo, rng), traj, adv, tgt, tr2,
    (ts', a, b, d, rng'), epochs.
  unfold state_of, obs_of, key_of, env_of. cbn [fst snd].
  split; [exact Hroll|]. split; [exact Hadv|]. split; [exact Hep|].
  split; [reflexivity|]. split; [reflexivity|].
  simpl. rewrite app_nil_r. reflexivity.
Qed.

Lemma epoch_rows_nth (batches : list (list sample * list Q * list Q)) :
  forall ts j b,
    nth_error batches j = Some b ->
    nth_error (epoch_rows c ts batches) j
    = Some (pass_dormancy c (epoch_end c ts (firstn j batches)) b,
            pass_threshold c (epoch_end c ts (firstn j batches)) b).
Proof.
  induction batches as [|b0 batches IH]; intros ts j b Hj.
  - destruct j; discriminate Hj.
  - destruct j as [|j].
    + injection Hj as <-. reflexivity.
    + simpl in Hj. simpl. rewrite (IH _ _ _ Hj). reflexivity.
Qed.

Lemma epochs_rows_nth (traj : list (list sample)) (adv tgt : list (list Q))
  (n : nat) :
  forall ts rng k,
    (k < n)%nat ->
    nth_error (epochs_rows c n ts rng traj adv tgt) k
    = Some (epoch_rows c (epochs_end c k ts rng traj adv tgt)
              (epoch_batches c (advance k rng) traj adv tgt)).
Proof.
  induction n as [|n IH]; intros ts rng k Hk; [lia|].
  destruct k as [|k]; [reflexivity|].
  simpl. rewrite IH by lia. rewrite advance_succ_r. reflexivity.
Qed.

(** C8.  An update step that returns computed the trajectory by its
    rollout and the advantages and targets from it once, before the
    epoch scan.  The epoch scan starts on these three arrays and ends on
    them; epoch [k] receives them and hands them on unchanged, whatever
    the model state and the key it is run with, and cuts its minibatches
    from them.  What the step returns is made of this scan: the model
    state and the key the scan ended with, the environment state and the
    observations the rollout ended with, the trace of the rollout
    followed by that of the scan, and the metrics of the trajectory and
    of what the epochs returned. *)
Theorem arrays_threaded_unchanged (md : mode) (rs rs' : Train.runner)
  (tr : list event) (m : metric) :
  Train._update_step c md rs = (tr, inr (rs', m)) ->
  exists tr1 rs1 traj adv tgt tr2 ts' rng' epochs,
    Scan.scan_length md (Train._env_step c) rs (NUM_STEPS c)
    = (tr1, inr (rs1, traj))
    /\ Train.advantages_and_targets c (state_of rs1) (obs_of rs1) traj
       = (adv, tgt)
    /\ Scan.scan_length md (Train._update_epoch c md)
         (state_of rs1, traj, adv, tgt, key_of rs1) (UPDATE_EPOCHS c)
       = (tr2, inr ((ts', traj, adv, tgt, rng'), epochs))
    /\ Forall (epoch_on c md traj adv tgt) epochs
    /\ length epochs = Z.to_nat (UPDATE_EPOCHS c)
    /\ (forall k lis, nth_error epochs k = Some lis ->
          exists t,
            Train._update_epoch c md
              (epochs_end c k (state_of rs1) (key_of rs1) traj adv tgt,
               traj, adv, tgt, advance k (key_of rs1))
            = (t, inr ((epochs_end c (S k) (state_of rs1) (key_of rs1)
                          traj adv tgt,
                        traj, adv, tgt, advance (S k) (key_of rs1)), lis))
            /\ Forall2 (pass_on c)
                 (epoch_batches c (advance k (key_of rs1)) traj adv tgt) lis)
    /\ ts' = epochs_end c (Z.to_nat (UPDATE_EPOCHS c)) (state_of rs1)
               (key_of rs1) traj adv tgt
    /\ rng' = advance (Z.to_nat (UPDATE_EPOCHS c)) (key_of rs1)
    /\ rs' = (ts', env_of rs1, obs_of rs1, rng')
    /\ m = Train.make_metric traj epochs
    /\ tr = tr1 ++ tr2.
Proof.
  intros H.
  destruct (@update_step_result md rs rs' tr m H)
    as (tr1 & rs1 & traj & adv & tgt & tr2 & st' & epochs
        & Hroll & Hadv & Hep & Hm & Hrs & Htr).
  assert (Hloop := scan_length_inr _ _ _ _ Hep).
  destruct (@epochs_result md traj adv tgt _ _ _ _ _ _ Hloop)
    as (Hst & _ & Hnth).
  subst st'. cbn [fst snd] in Hrs.
  assert (Hinv : forall k lis, nth_error epochs k = Some lis ->
            exists t,
              Train._update_epoch c md
                (epochs_end c k (state_of rs1) (key_of rs1) traj adv tgt,
                 traj, adv, tgt, advance k (key_of rs1))
              = (t, inr ((epochs_end c (S k) (state_of rs1) (key_of rs1)
                            traj adv tgt,
                          traj, adv, tgt, advance (S k) (key_of rs1)), lis))
              /\ Forall2 (pass_on c)
                   (epoch_batches c (advance k (key_of rs1)) traj adv tgt)
                   lis).
  { intros k lis Hk. destruct (Hnth k lis Hk) as [t Ht]. exists t.
    split; [exact Ht|].
    destruct (update_epoch_inversion c _ _ _ _ _ _ Ht) as (_ & _ & HF & _).
    exact HF. }
  exists tr1, rs1, traj, adv, tgt, tr2,
    (epochs_end c (Z.to_nat (UPDATE_EPOCHS c)) (state_of rs1) (key_of rs1)
       traj adv tgt),
    (advance (Z.to_nat (UPDATE_EPOCHS c)) (key_of rs1)), epochs.
  split; [exact Hroll|]. split; [exact Hadv|]. split; [exact Hep|].
  split.
  { apply Forall_forall. intros lis Hl. apply In_nth_error in Hl.
    destruct Hl as [k Hk]. destruct (Hinv k lis Hk) as (t & Ht & HF).
    eexists _, _, t, _. split; [exact Ht | exact HF]. }
  split.
  { destruct (@loop_invariant _ _ (Train._update_epoch c md)
                (fun _ => True) (fun _ _ => True))
      with (n := Z.to_nat (UPDATE_EPOCHS c))
           (init := (state_of rs1, traj, adv, tgt, key_of rs1))
           (tr := tr2)
           (c := (epochs_end c (Z.to_nat (UPDATE_EPOCHS c)) (state_of rs1)
                    (key_of rs1) traj adv tgt, traj, adv, tgt,
                  advance (Z.to_nat (UPDATE_EPOCHS c)) (key_of rs1)))
           (ys := epochs) as (_ & Hlen & _); auto. }
  split; [exact Hinv|].
  split; [reflexivity|]. split; [reflexivity|]. split; [exact Hrs|].
  split; [exact Hm | exact Htr].
Qed.

(** C7, as the code has it.  The metrics of an update step that returns
    are those of its own epochs, in order: row [k] of each diagnostic
    holds what the minibatch passes of epoch [k] returned, entry [j]
    that of pass [j], which starts from the model state the passes
    before it left and works on minibatch [j] of the cut epoch [k] makes
    with the key after [k] splits.  There are [UPDATE_EPOCHS] rows of
    [NUM_MINIBATCHES] entries.  The dormancy rates of a pass are those
    of each of its samples, and its threshold rates are computed from
    the per-sample gradients before they are averaged. *)
Theorem metrics_from_every_minibatch (md : mode) (rs rs' : Train.runner)
  (tr : list event) (m : metric) :
  Train._update_step c md rs = (tr, inr (rs', m)) ->
  (exists tr1 rs1 traj adv tgt (epochs : list (list loss_info)),
     Scan.scan_length md (Train._env_step c) rs (NUM_STEPS c)
     = (tr1, inr (rs1, traj))
     /\ Train.advantages_and_targets c (state_of rs1) (obs_of rs1) traj
        = (adv, tgt)
     /\ m = Train.make_metric traj epochs
     /\ m_dormancy m
        = map (map fst)
            (epochs_rows c (Z.to_nat (UPDATE_EPOCHS c)) (state_of rs1)
               (key_of rs1) traj adv tgt)
     /\ m_threshold_grad_second_moment m
        = map (map snd)
            (epochs_rows c (Z.to_nat (UPDATE_EPOCHS c)) (state_of rs1)
               (key_of rs1) traj adv tgt)
     /\ (forall k j b,
           (k < Z.to_nat (UPDATE_EPOCHS c))%nat ->
           nth_error (epoch_batches c (advance k (key_of rs1)) traj adv tgt) j
           = Some b ->
           exists dormancy_row threshold_row,
             nth_error (m_dormancy m) k = Some dormancy_row
             /\ nth_error (m_threshold_grad_second_moment m) k
                = Some threshold_row
             /\ nth_error dormancy_row j
                = Some (pass_dormancy c
                          (epoch_end c
                             (epochs_end c k (state_of rs1) (key_of rs1)
                                traj adv tgt)
                             (firstn j
                                (epoch_batches c (advance k (key_of rs1))
                                   traj adv tgt)))
                          b)
             /\ nth_error threshold_row j
                = Some (pass_threshold c
                          (epoch_end c
                             (epochs_end c k (state_of rs1) (key_of rs1)
                                traj adv tgt)
                             (firstn j
                                (epoch_batches c (advance k (key_of rs1))
                                   traj adv tgt)))
                          b))
     /\ m_dormancy m
        = map (map (fun li => map dormancies (auxiliary_losses li))) epochs
     /\ m_threshold_grad_second_moment m = map (map threshold_gsm) epochs
     /\ length epochs = Z.to_nat (UPDATE_EPOCHS c)
     /\ Forall (fun lis =>
                  length lis = Z.to_nat (NUM_MINIBATCHES c)
                  /\ epoch_on c md traj adv tgt lis) epochs
     /\ (forall k lis, nth_error epochs k = Some lis ->
           exists t,
             Train._update_epoch c md
               (epochs_end c k (state_of rs1) (key_of rs1) traj adv tgt,
                traj, adv, tgt, advance k (key_of rs1))
             = (t, inr ((epochs_end c (S k) (state_of rs1) (key_of rs1)
                           traj adv tgt,
                         traj, adv, tgt, advance (S k) (key_of rs1)),
                        lis))))
  /\ length (m_dormancy m) = Z.to_nat (UPDATE_EPOCHS c)
  /\ Forall (fun per_epoch =>
               length per_epoch = Z.to_nat (NUM_MINIBATCHES c))
       (m_dormancy m)
  /\ Forall (fun per_epoch =>
               length per_epoch = Z.to_nat (NUM_MINIBATCHES c))
       (m_threshold_grad_second_moment m)
  /\ (forall ts ts' batch t li,
        Train._update_minbatch c ts batch = (t, inr (ts', li)) ->
        map dormancies (auxiliary_losses li)
        = map (fun b => sample_dormancy c (ts_params ts) (fst (fst b)))
            (combine (combine (fst (fst batch))
                        (Train.normalize (snd (fst batch)))) (snd batch))
        /\ threshold_gsm li
           = batch_threshold (ts_params ts)
               (map snd
                  (Train.per_sample c (TAU c) (ts_params ts)
                     (combine (combine (fst (fst batch))
                                 (Train.normalize (snd (fst batch))))
                        (snd batch))))).
Proof.
  intros H.
  destruct (@update_step_result md rs rs' tr m H)
    as (tr1 & rs1 & traj & adv & tgt & tr2 & st' & epochs
        & Hroll & Hadv & Hep & Hm & _ & _).
  assert (Hloop := scan_length_inr _ _ _ _ Hep).
  destruct (@epochs_result md traj adv tgt _ _ _ _ _ _ Hloop)
    as (_ & Hrows & Hnth).
  destruct (@loop_invariant _ _ (Train._update_epoch c md)
              (fun _ => True) (fun _ _ => True))
    with (n := Z.to_nat (UPDATE_EPOCHS c))
         (init := (state_of rs1, traj, adv, tgt, key_of rs1))
         (tr := tr2) (c := st') (ys := epochs) as (_ & Hlen & _); auto.
  assert (Hall : Forall (fun lis : list loss_info =>
                    length lis = Z.to_nat (NUM_MINIBATCHES c)
                    /\ epoch_on c md traj adv tgt lis) epochs).
  { apply Forall_forall. intros lis Hl. apply In_nth_error in Hl.
    destruct Hl as [k Hk]. destruct (Hnth k lis Hk) as [t Ht].
    destruct (update_epoch_inversion c _ _ _ _ _ _ Ht)
      as (_ & _ & HF & Hl).
    split; [exact Hl|]. eexists _, _, t, _. split; [exact Ht | exact HF]. }
  assert (Hdorm : m_dormancy m
            = map (map fst)
                (epochs_rows c (Z.to_nat (UPDATE_EPOCHS c)) (state_of rs1)
                   (key_of rs1) traj adv tgt)).
  { rewrite Hm, <- Hrows. cbn [m_dormancy Train.make_metric].
    rewrite map_map. apply map_ext. intros lis. rewrite map_map.
    reflexivity. }
  assert (Hthr : m_threshold_grad_second_moment m
            = map (map snd)
                (epochs_rows c (Z.to_nat (UPDATE_EPOCHS c)) (state_of rs1)
                   (key_of rs1) traj adv tgt)).
  { rewrite Hm, <- Hrows.
    cbn [m_threshold_grad_second_moment Train.make_metric].
    rewrite map_map. apply map_ext. intros lis. rewrite map_map.
    reflexivity. }
  assert (Hrowlen : Forall (fun lis : list loss_info =>
                      length lis = Z.to_nat (NUM_MINIBATCHES c)) epochs).
  { apply Forall_forall. intros lis Hl. rewrite Forall_forall in Hall.
    apply (Hall lis Hl). }
  split; [|split; [|split; [|split]]].
  - exists tr1, rs1, traj, adv, tgt, epochs.
    split; [exact Hroll|]. split; [exact Hadv|]. split; [exact Hm|].
    split; [exact Hdorm|]. split; [exact Hthr|]. split.
    { intros k j b Hk Hb.
      rewrite Hdorm, Hthr, !nth_error_map, (@epochs_rows_nth traj adv tgt _ _ _ k Hk).
      simpl option_map. eexists _, _.
      split; [reflexivity|]. split; [reflexivity|].
      rewrite !nth_error_map, (@epoch_rows_nth _ _ j b Hb).
      split; reflexivity. }
    split; [rewrite Hm; reflexivity|]. split; [rewrite Hm; reflexivity|].
    split; [exact Hlen|]. split; [exact Hall | exact Hnth].
  - rewrite Hm. simpl. rewrite length_map. exact Hlen.
  - rewrite Hm. simpl. apply Forall_map. apply Forall_forall. intros lis Hl.
    rewrite length_map. rewrite Forall_forall in Hrowlen. apply Hrowlen, Hl.
  - rewrite Hm. simpl. apply Forall_map. apply Forall_forall. intros lis Hl.
    rewrite length_map. rewrite Forall_forall in Hrowlen. apply Hrowlen, Hl.
  - intros ts ts1 batch t li Hp. eapply pass_diagnostics. exact Hp.
Qed.

End StepTheorems.

Lemma toy_step_returns :
  Toy.step_run
  = ([EnvStep; EnvStep; ApplyGradients; ApplyGradients], inr Toy.step_end).
Proof. vm_compute. reflexivity. Qed.

Lemma arrays_threaded_unchanged_witness :
  exists rs1 traj adv tgt epochs,
    Train.advantages_and_targets (E := Toy.toy) Toy.epoch_config
      (state_of rs1) (obs_of rs1) traj = (adv, tgt)
    /\ snd Toy.step_end = Train.make_metric traj epochs
    /\ state_of (fst Toy.step_end)
       = epochs_end Toy.epoch_config 1 (state_of rs1) (key_of rs1)
           traj adv tgt.
Proof.
  destruct (@arrays_threaded_unchanged Toy.toy Toy.epoch_config Compiled
              Toy.rollout_start (fst Toy.step_end)
              [EnvStep; EnvStep; ApplyGradients; ApplyGradients]
              (snd Toy.step_end))
    as (tr1 & rs1 & traj & adv & tgt & tr2 & ts' & rng' & epochs
        & _ & Hadv & _ & _ & _ & _ & Hts & _ & Hrs & Hm & _).
  - exact toy_step_returns.
  - exists rs1, traj, adv, tgt, epochs.
    split; [exact Hadv|]. split; [exact Hm|]. rewrite Hrs. exact Hts.
Defined.

Lemma metrics_from_every_minibatch_witness :
  length (m_dormancy (snd Toy.step_end))
  = Z.to_nat (UPDATE_EPOCHS Toy.epoch_config)
  /\ Forall (fun per_epoch =>
               length per_epoch = Z.to_nat (NUM_MINIBATCHES Toy.epoch_config))
       (m_dormancy (snd Toy.step_end)).
Proof.
  destruct (@metrics_from_every_minibatch Toy.toy Toy.epoch_config Compiled
              Toy.rollout_start (fst Toy.step_end)
              [EnvStep; EnvStep; ApplyGradients; ApplyGradients]
              (snd Toy.step_end) toy_step_returns)
    as (_ & H1 & H2 & _).
  split; [exact H1 | exact H2].
Defined.

(** C7 as stated fails: the metrics of the epoch hold the diagnostics of
    both minibatch passes, and those of the first differ from those of
    the last. *)
Lemma metrics_last_minibatch_counterexample :
  snd Toy.step_run = inr Toy.step_end
  /\ m_dormancy (snd Toy.step_end)
     = [[[[("actor_0"%string, Fin (1 # 2))];
          [("actor_0"%string, Fin (0 # 2))]];
         [[("actor_0"%string, Fin (0 # 2))];
          [("actor_0"%string, Fin (0 # 2))]]]]
  /\ ~ one_minibatch_per_epoch (snd Toy.step_end).
Proof.
  split; [|split].
  - rewrite toy_step_returns. reflexivity.
  - vm_compute. reflexivity.
  - intros [H _]. inversion H as [|per_epoch rest Hlen _ Heq].
    revert Hlen. vm_compute. discriminate.
Qed.

(* ===================================================================== *)
(** * Properties of the training driver *)
(* ===================================================================== *)

Section TotalFacts.

(** A scan whose body always returns, with one trace, returns. *)
Lemma loop_total {C Y : Type} (f : C -> M (C * Y)) (t0 : list event)
  (P : C -> Prop) :
  (forall c0, P c0 -> exists c1 y, f c0 = (t0, inr (c1, y)) /\ P c1) ->
  forall n init, P init ->
    exists c ys,
      Scan.loop f init n = (concat (repeat t0 n), inr (c, ys))
      /\ P c /\ length ys = n.
Proof.
  intros Hf. induction n as [|n IH]; intros init Hinit.
  - exists init, []. auto.
  - destruct (Hf init Hinit) as (c1 & y & H1 & Hc1).
    destruct (IH c1 Hc1) as (c & ys & Hloop & Hc & Hlen).
    exists c, (y :: ys). rewrite (loop_step _ _ _ H1), Hloop.
    simpl. rewrite app_nil_r. repeat split; [exact Hc | congruence].
Qed.

Lemma loop_xs_total {C X Y : Type} (f : C -> X -> M (C * Y)) (ev : event) :
  (forall c0 x, exists c1 y, f c0 x = ([ev], inr (c1, y))) ->
  forall xs init,
    exists c ys,
      Scan.loop_xs f init xs = (repeat ev (length xs), inr (c, ys)).
Proof.
  intros Hf. induction xs as [|x xs IH]; intros init.
  - exists init, []. reflexivity.
  - destruct (Hf init x) as (c1 & y & H1).
    destruct (IH c1) as (c & ys & Hloop).
    exists c, (y :: ys). simpl. rewrite H1. unfold bind at 1.
    rewrite Hloop. simpl. rewrite app_nil_r. reflexivity.
Qed.

(** A scan whose body raises at its first iteration raises. *)
Lemma loop_raises {C Y : Type} (f : C -> M (C * Y)) (init : C) (n : nat)
  (t : list event) (e : error) :
  f init = (t, inl e) -> Scan.loop f init (S n) = (t, inl e).
Proof. intros H. simpl. rewrite H. reflexivity. Qed.

Lemma guard_passes (md : mode) (n : Z) :
  md = Compiled \/ (0 < n)%Z -> Scan.guard md n = ([], inr tt).
Proof.
  intros [->|Hn]; [reflexivity|]. unfold Scan.guard.
  destruct md; [|reflexivity].
  destruct (Z.leb_spec n 0); [lia | reflexivity].
Qed.

Lemma scan_length_passes {C Y : Type} (md : mode) (f : C -> M (C * Y))
  (init : C) (n : Z) :
  md = Compiled \/ (0 < n)%Z ->
  Scan.scan_length md f init n = Scan.loop f init (Z.to_nat n).
Proof.
  intros H. unfold Scan.scan_length. rewrite (guard_passes H).
  unfold bind. destruct (Scan.loop f init (Z.to_nat n)) as [t r].
  reflexivity.
Qed.

Lemma scan_xs_passes {C X Y : Type} (md : mode) (f : C -> X -> M (C * Y))
  (init : C) (xs : list X) :
  md = Compiled \/ (0 < Z.of_nat (length xs))%Z ->
  Scan.scan_xs md f init xs = Scan.loop_xs f init xs.
Proof.
  intros H. unfold Scan.scan_xs. rewrite (guard_passes H).
  unfold bind. destruct (Scan.loop_xs f init xs) as [t r]. reflexivity.
Qed.

Lemma env_steps_app (a b : list event) :
  env_steps (a ++ b) = (env_steps a + env_steps b)%nat.
Proof. apply count_occ_app. Qed.

Lemma env_steps_repeat_env (n : nat) : env_steps (repeat EnvStep n) = n.
Proof.
  induction n as [|n IH]; [reflexivity|].
  unfold env_steps in *. simpl. rewrite IH. reflexivity.
Qed.

Lemma env_steps_updates (k n : nat) :
  env_steps (concat (repeat (repeat ApplyGradients k) n)) = 0%nat.
Proof.
  induction n as [|n IH]; [reflexivity|].
  simpl. rewrite env_steps_app, IH, Nat.add_0_r.
  clear. induction k as [|k IH]; [reflexivity | exact IH].
Qed.

Lemma env_steps_concat_repeat (t : list event) (n : nat) :
  env_steps (concat (repeat t n)) = (n * env_steps t)%nat.
Proof.
  induction n as [|n IH]; [reflexivity|].
  simpl. rewrite env_steps_app, IH. reflexivity.
Qed.

End TotalFacts.

Section DriverFacts.

Context {E : Externals}.
Variable c : train_config.

Local Abbreviation sample := (Transition Action Obs Info).

Lemma update_epoch_total (md : mode) (st : Train.update_state) :
  Train.batch_size c = (NUM_STEPS c * NUM_ENVS c)%Z ->
  md = Compiled \/ (0 < NUM_MINIBATCHES c)%Z ->
  exists st' lis,
    Train._update_epoch c md st
    = (repeat ApplyGradients (Z.to_nat (NUM_MINIBATCHES c)), inr (st', lis)).
Proof.
  intros Hassert Hmd. destruct st as [[[[ts traj] adv] tgt] rng].
  rewrite (update_epoch_unfold c md ts traj adv tgt rng Hassert).
  fold (epoch_batches c rng traj adv tgt).
  rewrite scan_xs_passes.
  2:{ rewrite length_epoch_batches. destruct Hmd as [->|H]; [auto|].
      right. lia. }
  destruct (@loop_xs_total _ _ _ (Train._update_minbatch c) ApplyGradients)
    with (xs := epoch_batches c rng traj adv tgt) (init := ts)
    as (ts' & lis & Hloop).
  { intros ts0 [[mt ma] mg]. unfold Train._update_minbatch.
    rewrite update_minbatch_unfold. eauto. }
  rewrite Hloop, length_epoch_batches. simpl. rewrite app_nil_r. eauto.
Qed.

Lemma update_epoch_raises (md : mode) (st : Train.update_state) :
  Train.batch_size c <> (NUM_STEPS c * NUM_ENVS c)%Z ->
  Train._update_epoch c md st = ([], inl AssertionError).
Proof.
  intros Hne. destruct st as [[[[ts traj] adv] tgt] rng].
  unfold Train._update_epoch. destruct (split rng) as [r1 r2].
  apply Z.eqb_neq in Hne. rewrite Hne. reflexivity.
Qed.

Lemma rollout_total (md : mode) (rs : Train.runner) :
  md = Compiled \/ (0 < NUM_STEPS c)%Z ->
  exists rs' traj,
    Scan.scan_length md (Train._env_step c) rs (NUM_STEPS c)
    = (repeat EnvStep (Z.to_nat (NUM_STEPS c)), inr (rs', traj))
    /\ state_of rs' = state_of rs
    /\ length traj = Z.to_nat (NUM_STEPS c).
Proof.
  intros Hmd. rewrite scan_length_passes by exact Hmd.
  destruct (rollout_loop c (Z.to_nat (NUM_STEPS c)) rs)
    as (rs' & traj & H & Hst & Hlen & _).
  eauto.
Qed.

(** An update step whose assertion holds returns, having executed the
    rollout and every minibatch pass. *)
Lemma update_step_total (md : mode) (rs : Train.runner) :
  Train.batch_size c = (NUM_STEPS c * NUM_ENVS c)%Z ->
  scans_run c md ->
  exists rs' m, Train._update_step c md rs = (step_trace c, inr (rs', m)).
Proof.
  intros Hassert Hmd. unfold Train._update_step.
  destruct (@rollout_total md rs) as (rs1 & traj & Hroll & _ & Hlen).
  { destruct Hmd as [->|(H & _)]; auto. }
  rewrite Hroll, bind_ret_l. destruct rs1 as [[[ts es] lo] rng].
  cbn [fst snd].
  rewrite guard_passes.
  2:{ destruct Hmd as [->|(H & _)]; [auto|]. right. rewrite Hlen. lia. }
  rewrite bind_ret_l.
  destruct (Train.advantages_and_targets c ts lo traj) as [adv tgt].
  rewrite scan_length_passes.
  2:{ destruct Hmd as [->|(_ & H & _)]; auto. }
  destruct (@loop_total _ _ (Train._update_epoch c md)
              (repeat ApplyGradients (Z.to_nat (NUM_MINIBATCHES c)))
              (fun _ => True))
    with (n := Z.to_nat (UPDATE_EPOCHS c)) (init := (ts, traj, adv, tgt, rng))
    as ([[[[ts' a] b] d] rng'] & epochs & Hloop & _ & _).
  { intros st _. destruct (@update_epoch_total md st Hassert)
      as (st' & lis & H).
    { destruct Hmd as [->|(_ & _ & H)]; auto. }
    eauto. }
  { exact I. }
  rewrite Hloop, bind_ret_l. cbn [fst snd ret].
  rewrite !app_nil_r. unfold step_trace. simpl. eauto.
Qed.

(** An update step whose assertion fails raises after its rollout, or is
    refused a scan before or after it; it applies no gradient. *)
Lemma update_step_raises (rs : Train.runner) :
  Train.batch_size c <> (NUM_STEPS c * NUM_ENVS c)%Z ->
  (Train._update_step c Eager rs = ([], inl ValueError)
   \/ Train._update_step c Eager rs
      = (repeat EnvStep (Z.to_nat (NUM_STEPS c)), inl ValueError)
   \/ Train._update_step c Eager rs
      = (repeat EnvStep (Z.to_nat (NUM_STEPS c)), inl AssertionError))
  /\ ((0 < NUM_STEPS c)%Z -> (0 < UPDATE_EPOCHS c)%Z ->
      Train._update_step c Eager rs
      = (repeat EnvStep (Z.to_nat (NUM_STEPS c)), inl AssertionError)).
Proof.
  intros Hne.
  assert (Hpos : (0 < NUM_STEPS c)%Z ->
            (Train._update_step c Eager rs
             = (repeat EnvStep (Z.to_nat (NUM_STEPS c)), inl ValueError)
             /\ (UPDATE_EPOCHS c <= 0)%Z)
            \/ (Train._update_step c Eager rs
                = (repeat EnvStep (Z.to_nat (NUM_STEPS c)),
                   inl AssertionError)
                /\ (0 < UPDATE_EPOCHS c)%Z)).
  { intros HT. unfold Train._update_step.
    destruct (@rollout_total Eager rs) as (rs1 & traj & Hroll & _ & Hlen);
      [auto|].
    rewrite Hroll, bind_ret_l. destruct rs1 as [[[ts es] lo] rng].
    cbn [fst snd].
    rewrite guard_passes by (right; rewrite Hlen; lia).
    rewrite bind_ret_l.
    destruct (Train.advantages_and_targets c ts lo traj) as [adv tgt].
    destruct (Z.leb_spec (UPDATE_EPOCHS c) 0) as [Hle|Hgt].
    - left. split; [|exact Hle]. unfold Scan.scan_length, Scan.guard.
      destruct (Z.leb_spec (UPDATE_EPOCHS c) 0); [|lia].
      simpl. rewrite !app_nil_r. reflexivity.
    - right. split; [|exact Hgt].
      rewrite scan_length_passes by auto.
      destruct (Z.to_nat (UPDATE_EPOCHS c)) as [|n] eqn:Hn; [lia|].
      rewrite (loop_raises _ _ n (@update_epoch_raises Eager _ Hne)).
      simpl. rewrite !app_nil_r. reflexivity. }
  split.
  - destruct (Z.leb_spec (NUM_STEPS c) 0) as [Hle|Hgt].
    + left. unfold Train._update_step, Scan.scan_length, Scan.guard.
      destruct (Z.leb_spec (NUM_STEPS c) 0); [|lia]. reflexivity.
    + right. destruct (Hpos Hgt) as [[H _]|[H _]]; auto.
  - intros HT HE. destruct (Hpos HT) as [[_ H]|[H _]]; [lia | exact H].
Qed.

(** Under [disable_jit], an update step with no epoch is refused its
    epoch scan after the rollout. *)
Lemma update_step_no_epochs (rs : Train.runner) :
  (0 < NUM_STEPS c)%Z -> (UPDATE_EPOCHS c <= 0)%Z ->
  Train._update_step c Eager rs
  = (repeat EnvStep (Z.to_nat (NUM_STEPS c)), inl ValueError).
Proof.
  intros HS HE. unfold Train._update_step.
  destruct (@rollout_total Eager rs) as (rs1 & traj & Hroll & _ & Hlen);
    [right; exact HS|].
  rewrite Hroll, bind_ret_l. destruct rs1 as [[[ts es] lo] rng].
  cbn [fst snd].
  rewrite guard_passes by (right; rewrite Hlen; lia).
  rewrite bind_ret_l.
  destruct (Train.advantages_and_targets c ts lo traj) as [adv tgt].
  unfold Scan.scan_length, Scan.guard.
  destruct (Z.leb_spec (UPDATE_EPOCHS c) 0); [|lia].
  simpl. rewrite !app_nil_r. reflexivity.
Qed.

Lemma train_total (md : mode) (rng : Key) :
  Train.batch_size c = (NUM_STEPS c * NUM_ENVS c)%Z ->
  scans_run c md ->
  md = Compiled \/ (0 < NUM_UPDATES c)%Z ->
  exists out,
    Train.train c md rng = (run_trace c, inr out)
    /\ length (Train.metrics out) = Z.to_nat (NUM_UPDATES c)
    /\ ((NUM_UPDATES c <= 0)%Z ->
        Train.runner_state out = Train.initial_runner c rng).
Proof.
  intros Hassert Hmd Hup. unfold Train.train.
  rewrite scan_length_passes by exact Hup.
  destruct (@loop_total _ _ (Train._update_step c md) (step_trace c)
              (fun _ => True))
    with (n := Z.to_nat (NUM_UPDATES c)) (init := Train.initial_runner c rng)
    as (rs & ms & Hloop & _ & Hlen).
  { intros rs0 _. destruct (@update_step_total md rs0 Hassert Hmd)
      as (rs1 & m & H). eauto. }
  { exact I. }
  rewrite Hloop, bind_ret_l. cbn [fst snd ret]. rewrite app_nil_r.
  eexists. split; [reflexivity|]. split; [exact Hlen|].
  intros Hle. simpl.
  replace (Z.to_nat (NUM_UPDATES c)) with 0%nat in Hloop by lia.
  simpl in Hloop. injection Hloop as <- _. reflexivity.
Qed.

Lemma train_raises (rng : Key) :
  Train.batch_size c <> (NUM_STEPS c * NUM_ENVS c)%Z ->
  (exists e,
     Train.train c Eager rng = ([], inl e)
     \/ Train.train c Eager rng
        = (repeat EnvStep (Z.to_nat (NUM_STEPS c)), inl e))
  /\ ((0 < NUM_UPDATES c)%Z -> (0 < NUM_STEPS c)%Z ->
      (0 < UPDATE_EPOCHS c)%Z ->
      Train.train c Eager rng
      = (repeat EnvStep (Z.to_nat (NUM_STEPS c)), inl AssertionError)).
Proof.
  intros Hne. unfold Train.train.
  destruct (Z.leb_spec (NUM_UPDATES c) 0) as [Hle|Hgt].
  - split; [|lia]. exists ValueError. left.
    unfold Scan.scan_length, Scan.guard.
    destruct (Z.leb_spec (NUM_UPDATES c) 0); [reflexivity | lia].
  - rewrite scan_length_passes by auto.
    destruct (Z.to_nat (NUM_UPDATES c)) as [|n] eqn:Hn; [lia|].
    destruct (@update_step_raises (Train.initial_runner c rng) Hne)
      as [Hcases Hpos].
    split.
    + destruct Hcases as [H|[H|H]]; rewrite (loop_raises _ _ n H);
        [exists ValueError; left | exists ValueError; right
        | exists AssertionError; right]; reflexivity.
    + intros _ HT HE. rewrite (loop_raises _ _ n (Hpos HT HE)). reflexivity.
Qed.

End DriverFacts.

Section ConfigFacts.

(** What [make_train] returns when it returns. *)
Lemma make_train_inr (cfg : config) (c : train_config) :
  make_train cfg = inr c ->
  base c = cfg
  /\ NUM_STEPS cfg <> 0%Z /\ NUM_ENVS cfg <> 0%Z /\ NUM_MINIBATCHES cfg <> 0%Z
  /\ NUM_UPDATES c = (TOTAL_TIMESTEPS cfg / NUM_STEPS cfg / NUM_ENVS cfg)%Z
  /\ MINIBATCH_SIZE c
     = (NUM_ENVS cfg * NUM_STEPS cfg / NUM_MINIBATCHES cfg)%Z.
Proof.
  unfold make_train, Py.floordiv, Py.bind.
  destruct (Z.eqb_spec (NUM_STEPS cfg) 0); [discriminate|].
  destruct (Z.eqb_spec (NUM_ENVS cfg) 0); [discriminate|].
  destruct (Z.eqb_spec (NUM_MINIBATCHES cfg) 0); [discriminate|].
  intros H. injection H as <-. simpl. auto 6.
Qed.

Lemma updates_bound (total steps envs : Z) :
  (0 < steps)%Z -> (0 < envs)%Z -> (0 <= total)%Z ->
  (0 <= total / steps / envs)%Z
  /\ (total / steps / envs * steps * envs <= total)%Z
  /\ ((total < steps * envs)%Z -> (total / steps / envs = 0)%Z).
Proof.
  intros Hs He Ht.
  assert (H1 : (steps * (total / steps) <= total)%Z)
    by (apply Z.mul_div_le; lia).
  assert (H2 : (envs * (total / steps / envs) <= total / steps)%Z)
    by (apply Z.mul_div_le; lia).
  assert (H0 : (0 <= total / steps)%Z) by (apply Z.div_pos; lia).
  assert (H3 : (0 <= total / steps / envs)%Z) by (apply Z.div_pos; lia).
  repeat split.
  - exact H3.
  - nia.
  - intros Hlt. rewrite Z.div_div by lia. apply Z.div_small. lia.
Qed.

End ConfigFacts.

Section RunTheorems.

Context {E : Externals}.

Lemma trace_train_spec (c : train_config) :
  Train.trace_train c
  = if (Train.batch_size c =? NUM_STEPS c * NUM_ENVS c)%Z
    then inr tt else inl AssertionError.
Proof.
  unfold Train.trace_train, Train.trace__update_step, Train.trace__env_step,
    Train.trace__update_epoch, Train.trace__update_minbatch, Py.bind.
  destruct (Train.batch_size c =? NUM_STEPS c * NUM_ENVS c)%Z; reflexivity.
Qed.

Lemma initial_state (c : train_config) (rng : Key) :
  state_of (Train.initial_runner c rng)
  = TrainState_create (network_init (snd (split rng)) init_x).
Proof.
  unfold Train.initial_runner.
  destruct (split rng) as [r1 k1]. destruct (split r1) as [r2 k2].
  destruct (env_reset (split_n k2 (NUM_ENVS c))) as [obsv es].
  destruct (split r2) as [r3 k3]. reflexivity.
Qed.

(** C2, as the code has it.  For a configuration accepted by
    [make_train] whose [NUM_ENVS * NUM_STEPS] differs from
    [NUM_MINIBATCHES * MINIBATCH_SIZE], the run fails and no parameter
    update executes.  Under [jax.jit] the assertion is raised while the
    function is traced, before anything executes.  Under
    [jax.disable_jit] it is raised in the first epoch of the first
    update step, after the [NUM_STEPS] environment steps of the first
    rollout (or a scan of non-positive length is refused, before or
    after that rollout). *)
Theorem batch_invariant_violation (cfg : config) (rng : Key) :
  violates_batch_invariant cfg ->
  (DISABLE_JIT cfg = false ->
   Train.main cfg rng = ([], inl AssertionError))
  /\ (DISABLE_JIT cfg = true ->
      exists e,
        Train.main cfg rng = ([], inl e)
        \/ Train.main cfg rng
           = (repeat EnvStep (Z.to_nat (NUM_STEPS cfg)), inl e))
  /\ (DISABLE_JIT cfg = true ->
      (0 < TOTAL_TIMESTEPS cfg / NUM_STEPS cfg / NUM_ENVS cfg)%Z ->
      (0 < NUM_STEPS cfg)%Z -> (0 < UPDATE_EPOCHS cfg)%Z ->
      Train.main cfg rng
      = (repeat EnvStep (Z.to_nat (NUM_STEPS cfg)), inl AssertionError))
  /\ ~ In ApplyGradients (fst (Train.main cfg rng)).
Proof.
  intros (c & Hmake & Hviol).
  destruct (@make_train_inr cfg c Hmake) as (Hbase & _ & _ & _ & Hup & _).
  subst cfg.
  assert (Hne : Train.batch_size c <> (NUM_STEPS c * NUM_ENVS c)%Z).
  { unfold Train.batch_size. intros Heq. apply Hviol. lia. }
  assert (Hjit : DISABLE_JIT c = false ->
            Train.main c rng = ([], inl AssertionError)).
  { intros Hj. unfold Train.main. rewrite Hmake, Hj.
    unfold Train.train_jit. rewrite trace_train_spec.
    apply Z.eqb_neq in Hne. rewrite Hne. reflexivity. }
  assert (Hmain : DISABLE_JIT c = true ->
            Train.main c rng = Train.train c Eager rng).
  { intros Hj. unfold Train.main. rewrite Hmake, Hj. reflexivity. }
  destruct (@train_raises _ c rng Hne) as [Hcases Hpos].
  split; [exact Hjit|]. split; [|split].
  - intros Hj. rewrite (Hmain Hj). exact Hcases.
  - intros Hj HU HT HE. rewrite (Hmain Hj).
    apply Hpos; [|exact HT | exact HE]. rewrite Hup. exact HU.
  - destruct (DISABLE_JIT c) eqn:Hj.
    + rewrite (Hmain eq_refl).
      destruct Hcases as [e [H|H]]; rewrite H; simpl.
      * intros [].
      * intros Hin. apply repeat_spec in Hin. discriminate.
    + rewrite (Hjit eq_refl). intros [].
Qed.

(** C10, as the code has it.  For a configuration accepted by
    [make_train] with positive [NUM_STEPS], [NUM_ENVS] and
    [NUM_MINIBATCHES] and a non-negative [TOTAL_TIMESTEPS]:
    [NUM_UPDATES] is [TOTAL_TIMESTEPS // NUM_STEPS // NUM_ENVS], so
    [NUM_UPDATES * NUM_STEPS * NUM_ENVS] is at most [TOTAL_TIMESTEPS],
    and [NUM_UPDATES] is 0 exactly when
    [TOTAL_TIMESTEPS < NUM_STEPS * NUM_ENVS].  When the assertion of
    line 298 holds, the compiled run, and the run under [disable_jit]
    with at least one update and one epoch, return after exactly
    [NUM_UPDATES] update steps, having consumed
    [NUM_UPDATES * NUM_STEPS * NUM_ENVS] timesteps; the compiled run
    with [NUM_UPDATES] 0 executes nothing and returns the initial runner
    state, whose model state is the freshly created one.  Under
    [disable_jit] a run with [NUM_UPDATES] 0 does not return: its scan
    of zero update steps is refused before anything executes; and a run
    with no epoch is refused after its first rollout.  When the
    assertion does not hold, the run raises. *)
Theorem update_count (cfg : config) (c : train_config) (rng : Key) :
  make_train cfg = inr c ->
  (0 < NUM_STEPS cfg)%Z -> (0 < NUM_ENVS cfg)%Z ->
  (0 < NUM_MINIBATCHES cfg)%Z -> (0 <= TOTAL_TIMESTEPS cfg)%Z ->
  NUM_UPDATES c
  = (TOTAL_TIMESTEPS cfg / NUM_STEPS cfg / NUM_ENVS cfg)%Z
  /\ (NUM_UPDATES c * NUM_STEPS cfg * NUM_ENVS cfg <= TOTAL_TIMESTEPS cfg)%Z
  /\ ((TOTAL_TIMESTEPS cfg < NUM_STEPS cfg * NUM_ENVS cfg)%Z
      <-> NUM_UPDATES c = 0%Z)
  /\ (Train.batch_size c = (NUM_STEPS c * NUM_ENVS c)%Z ->
      DISABLE_JIT cfg = false
      \/ ((0 < NUM_UPDATES c)%Z /\ (0 < UPDATE_EPOCHS cfg)%Z) ->
      exists out,
        Train.main cfg rng = (run_trace c, inr out)
        /\ length (Train.metrics out) = Z.to_nat (NUM_UPDATES c)
        /\ timesteps c (run_trace c)
           = (NUM_UPDATES c * NUM_STEPS cfg * NUM_ENVS cfg)%Z
        /\ ((TOTAL_TIMESTEPS cfg < NUM_STEPS cfg * NUM_ENVS cfg)%Z ->
            NUM_UPDATES c = 0%Z
            /\ run_trace c = []
            /\ Train.runner_state out = Train.initial_runner c rng
            /\ state_of (Train.runner_state out)
               = TrainState_create (network_init (snd (split rng)) init_x)))
  /\ (DISABLE_JIT cfg = true ->
      (TOTAL_TIMESTEPS cfg < NUM_STEPS cfg * NUM_ENVS cfg)%Z ->
      Train.main cfg rng = ([], inl ValueError))
  /\ (DISABLE_JIT cfg = true -> (0 < NUM_UPDATES c)%Z ->
      UPDATE_EPOCHS cfg = 0%Z ->
      Train.main cfg rng
      = (repeat EnvStep (Z.to_nat (NUM_STEPS cfg)), inl ValueError))
  /\ (Train.batch_size c <> (NUM_STEPS c * NUM_ENVS c)%Z ->
      exists tr e, Train.main cfg rng = (tr, inl e)).
Proof.
  intros Hmake HS HN HM HT.
  destruct (@make_train_inr cfg c Hmake) as (Hbase & _ & _ & _ & Hup & _).
  subst cfg.
  destruct (@updates_bound _ _ _ HS HN HT) as (Hnonneg & Hbound & Hzero).
  rewrite <- Hup in Hnonneg, Hbound, Hzero.
  assert (Hiff : (TOTAL_TIMESTEPS c < NUM_STEPS c * NUM_ENVS c)%Z
                 <-> NUM_UPDATES c = 0%Z).
  { split; [exact Hzero|]. intros H0. rewrite Hup in H0.
    rewrite Z.div_div in H0 by lia.
    apply Z.div_small_iff in H0; lia. }
  split; [exact Hup|]. split; [exact Hbound|]. split; [exact Hiff|].
  split; [|split; [|split]].
  - intros Hassert Hmode.
    assert (Hrun : exists out,
              Train.main c rng = (run_trace c, inr out)
              /\ length (Train.metrics out) = Z.to_nat (NUM_UPDATES c)
              /\ ((NUM_UPDATES c <= 0)%Z ->
                  Train.runner_state out = Train.initial_runner c rng)).
    { unfold Train.main. rewrite Hmake.
      destruct (DISABLE_JIT c) eqn:Hj.
      - destruct Hmode as [Hf|[HU HE]]; [discriminate|].
        apply train_total; [exact Hassert | | right; exact HU].
        right. auto.
      - unfold Train.train_jit. rewrite trace_train_spec, Hassert, Z.eqb_refl.
        apply train_total; [exact Hassert | left; reflexivity
                           | left; reflexivity]. }
    destruct Hrun as (out & Hmain & Hlen & Hinit).
    exists out. split; [exact Hmain|]. split; [exact Hlen|]. split.
    + unfold timesteps, run_trace, step_trace.
      rewrite env_steps_concat_repeat, env_steps_app, env_steps_repeat_env,
        env_steps_updates, Nat.add_0_r, Nat2Z.inj_mul, !Z2Nat.id by lia.
      reflexivity.
    + intros Hlt. specialize (Hzero Hlt).
      assert (Hr : Train.runner_state out = Train.initial_runner c rng)
        by (apply Hinit; lia).
      split; [exact Hzero|]. split; [|split; [exact Hr|]].
      * unfold run_trace. rewrite Hzero. reflexivity.
      * rewrite Hr. apply initial_state.
  - intros Hj Hlt. specialize (Hzero Hlt).
    unfold Train.main. rewrite Hmake, Hj.
    unfold Train.train, Scan.scan_length, Scan.guard. rewrite Hzero.
    reflexivity.
  - intros Hj HU HE.
    unfold Train.main. rewrite Hmake, Hj. unfold Train.train.
    rewrite scan_length_passes by (right; exact HU).
    destruct (Z.to_nat (NUM_UPDATES c)) as [|n] eqn:Hn; [lia|].
    rewrite (loop_raises _ _ n
               (@update_step_no_epochs E c (Train.initial_runner c rng) HS
                  ltac:(lia))).
    reflexivity.
  - intros Hne. unfold Train.main. rewrite Hmake.
    destruct (DISABLE_JIT c).
    + destruct (@train_raises E c rng Hne) as [(e & [H|H]) _];
        eexists _, e; exact H.
    + unfold Train.train_jit. rewrite trace_train_spec.
      apply Z.eqb_neq in Hne. rewrite Hne.
      exists [], AssertionError. reflexivity.
Qed.

End RunTheorems.

Lemma batch_invariant_violation_witness :
  Train.main (E := Toy.toy) (Toy.toy_config 1 3 2 false 4) 0%nat
  = ([], inl AssertionError).
Proof.
  destruct (@batch_invariant_violation Toy.toy (Toy.toy_config 1 3 2 false 4)
              0%nat) as (H & _).
  - eexists. split; [reflexivity | discriminate].
  - apply H. reflexivity.
Defined.

(** C2 as stated fails: with [DISABLE_JIT] the environment is stepped
    before the assertion is reached. *)
Lemma assertion_after_rollout_counterexample :
  violates_batch_invariant (Toy.toy_config 1 3 2 true 4)
  /\ Train.main (E := Toy.toy) (Toy.toy_config 1 3 2 true 4) 0%nat
     = ([EnvStep], inl AssertionError)
  /\ ~ fails_before_training (E := Toy.toy) (Toy.toy_config 1 3 2 true 4)
         0%nat.
Proof.
  assert (Hrun : Train.main (E := Toy.toy) (Toy.toy_config 1 3 2 true 4)
                   0%nat = ([EnvStep], inl AssertionError))
    by (vm_compute; reflexivity).
  split; [|split].
  - eexists. split; [reflexivity | discriminate].
  - exact Hrun.
  - intros [e He]. rewrite Hrun in He. discriminate.
Qed.

Lemma update_count_witness :
  exists out,
    Train.main (E := Toy.toy) (Toy.toy_config 2 2 2 false 3) 0%nat
    = ([], inr out)
    /\ Train.runner_state out
       = Train.initial_runner (E := Toy.toy)
           {| base := Toy.toy_config 2 2 2 false 3;
              NUM_UPDATES := 0; MINIBATCH_SIZE := 2 |} 0%nat.
Proof.
  destruct (@update_count Toy.toy (Toy.toy_config 2 2 2 false 3)
              {| base := Toy.toy_config 2 2 2 false 3;
                 NUM_UPDATES := 0; MINIBATCH_SIZE := 2 |} 0%nat)
    as (_ & _ & _ & H & _); try reflexivity.
  - discriminate.
  - destruct H as (out & Hmain & _ & _ & Hzero).
    + reflexivity.
    + left. reflexivity.
    + exists out. destruct Hzero as (_ & _ & Hr & _); [reflexivity|].
      split; [exact Hmain | exact Hr].
Defined.

(** C10 as stated fails: with [DISABLE_JIT] and
    [TOTAL_TIMESTEPS < NUM_STEPS * NUM_ENVS] the run does not return the
    initial model state; the scan of zero update steps is refused. *)
Lemma update_count_disable_jit_counterexample :
  make_train (Toy.toy_config 2 2 2 true 3)
  = inr {| base := Toy.toy_config 2 2 2 true 3;
           NUM_UPDATES := 0; MINIBATCH_SIZE := 2 |}
  /\ (TOTAL_TIMESTEPS (Toy.toy_config 2 2 2 true 3)
      < NUM_STEPS (Toy.toy_config 2 2 2 true 3)
        * NUM_ENVS (Toy.toy_config 2 2 2 true 3))%Z
  /\ Train.batch_size {| base := Toy.toy_config 2 2 2 true 3;
                         NUM_UPDATES := 0; MINIBATCH_SIZE := 2 |}
     = (NUM_STEPS (Toy.toy_config 2 2 2 true 3)
        * NUM_ENVS (Toy.toy_config 2 2 2 true 3))%Z
  /\ Train.main (E := Toy.toy) (Toy.toy_config 2 2 2 true 3) 0%nat
     = ([], inl ValueError)
  /\ ~ (exists tr out,
          Train.main (E := Toy.toy) (Toy.toy_config 2 2 2 true 3) 0%nat
          = (tr, inr out)).
Proof.
  assert (Hrun : Train.main (E := Toy.toy) (Toy.toy_config 2 2 2 true 3)
                   0%nat = ([], inl ValueError))
    by (vm_compute; reflexivity).
  split; [reflexivity|]. split; [reflexivity|]. split; [reflexivity|].
  split; [exact Hrun|].
  intros (tr & out & H). rewrite Hrun in H. discriminate H.
Qed.

(* ===================================================================== *)
(** * Further properties: the configuration *)
(* ===================================================================== *)

Section ConfigProperties.

Context {E : Externals}.

(** X1.  [make_train] raises only [ZeroDivisionError], and exactly when
    [NUM_STEPS], [NUM_ENVS] or [NUM_MINIBATCHES] is zero; the run then
    aborts before it executes anything, under either mode. *)
Theorem make_train_zero_division (cfg : config) (rng : Key) :
  (make_train cfg = inl ZeroDivisionError <->
   (NUM_STEPS cfg = 0 \/ NUM_ENVS cfg = 0 \/ NUM_MINIBATCHES cfg = 0)%Z)
  /\ (forall e, make_train cfg = inl e ->
        e = ZeroDivisionError /\ Train.main cfg rng = ([], inl e)).
Proof.
  unfold Train.main, make_train, Py.floordiv, Py.bind.
  destruct (Z.eqb_spec (NUM_STEPS cfg) 0) as [HS|HS];
    [|destruct (Z.eqb_spec (NUM_ENVS cfg) 0) as [HN|HN];
      [|destruct (Z.eqb_spec (NUM_MINIBATCHES cfg) 0) as [HM|HM]]].
  - split; [split; auto|]. intros e He. injection He as <-. auto.
  - split; [split; auto|]. intros e He. injection He as <-. auto.
  - split; [split; auto|]. intros e He. injection He as <-. auto.
  - split; [split|].
    + discriminate.
    + intros [H|[H|H]]; contradiction.
    + discriminate.
Qed.

End ConfigProperties.

(** X2.  For a configuration [make_train] accepts, the assertion of line
    298 holds exactly when [NUM_MINIBATCHES] divides
    [NUM_ENVS * NUM_STEPS]. *)
Theorem assertion_iff_divisible (cfg : config) (c : train_config) :
  make_train cfg = inr c ->
  (Train.batch_size c = (NUM_STEPS c * NUM_ENVS c)%Z <->
   ((NUM_ENVS cfg * NUM_STEPS cfg) mod NUM_MINIBATCHES cfg = 0)%Z).
Proof.
  intros Hmake.
  destruct (@make_train_inr cfg c Hmake) as (Hbase & _ & _ & HM & _ & Hsize).
  subst cfg. unfold Train.batch_size. rewrite Hsize.
  pose proof (Z.div_mod (NUM_ENVS c * NUM_STEPS c) (NUM_MINIBATCHES c) HM)
    as Hdm.
  split; intros H; lia.
Qed.

Lemma assertion_iff_divisible_witness :
  Train.batch_size Toy.epoch_config
  = (NUM_STEPS Toy.epoch_config * NUM_ENVS Toy.epoch_config)%Z
  <-> ((NUM_ENVS (Toy.toy_config 2 2 2 false 8)
        * NUM_STEPS (Toy.toy_config 2 2 2 false 8))
       mod NUM_MINIBATCHES (Toy.toy_config 2 2 2 false 8) = 0)%Z.
Proof.
  apply (@assertion_iff_divisible (Toy.toy_config 2 2 2 false 8)
           Toy.epoch_config).
  reflexivity.
Defined.

(* ===================================================================== *)
(** * Further properties: the diagnostics *)
(* ===================================================================== *)

Section RateProperties.

Lemma tree_map_names {A B : Type} (f : A -> B) (t : tree A) :
  map fst (tree_map f t) = map fst t.
Proof. unfold tree_map. rewrite map_map. reflexivity. Qed.

(** X3.  Both diagnostics are rates: on an array with at least one
    neuron (slot) the value is finite and lies in [0, 1], whatever the
    entries and the threshold; on an array with none it is nan.  The
    tree of rates has the names of the tree of arrays. *)
Theorem diagnostic_rates_bounded (tau zeta_abs : Q)
  (activations grad_second_moment : list (list Q))
  (layers : tree (list (list Q))) :
  ((0 < Arr.width activations)%nat ->
   exists q,
     Instrumentation._layer_dormancy tau activations = Fin q /\ 0 <= q <= 1)
  /\ ((0 < Arr.width grad_second_moment)%nat ->
      exists q,
        Instrumentation._threshold_grad_second_moment zeta_abs
          grad_second_moment = Fin q /\ 0 <= q <= 1)
  /\ (Arr.width activations = 0%nat ->
      Instrumentation._layer_dormancy tau activations = NaN)
  /\ (Arr.width grad_second_moment = 0%nat ->
      Instrumentation._threshold_grad_second_moment zeta_abs
        grad_second_moment = NaN)
  /\ map fst (Instrumentation.dormancy_rate layers tau) = map fst layers
  /\ map fst (Instrumentation.threshold_grad_second_moment layers zeta_abs)
     = map fst layers.
Proof.
  split; [|split; [|split; [|split; [|split]]]].
  - intros Hw.
    apply (@rate_finite tau (map (map Qabs) activations)).
    rewrite width_map. exact Hw.
  - intros Hw. apply (@rate_finite zeta_abs grad_second_moment). exact Hw.
  - intros Hw. unfold Instrumentation._layer_dormancy, Arr.columns.
    rewrite width_map, Hw. reflexivity.
  - intros Hw. unfold Instrumentation._threshold_grad_second_moment,
      Arr.columns. rewrite Hw. reflexivity.
  - apply tree_map_names.
  - apply tree_map_names.
Qed.

Lemma fl_leb_mono (a : fl) (t t' : Q) :
  t <= t' -> Num.fl_leb a t = true -> Num.fl_leb a t' = true.
Proof.
  intros Ht. destruct a as [x| | |]; simpl; try (intros H; exact H).
  intros H. apply Qle_bool_iff in H. apply Qle_bool_iff. lra.
Qed.

Lemma sum_b2q_mono (l l' : list bool) :
  Forall2 (fun b b' => b = true -> b' = true) l l' ->
  Num.sum (map Num.b2q l) <= Num.sum (map Num.b2q l').
Proof.
  intros H. induction H as [|b b' l l' Hb H IH]; simpl.
  - lra.
  - destruct b, b'; simpl; try lra.
Qed.

Lemma length_map_len {A B : Type} (f : A -> B) (l : list A) :
  Num.len (map f l) = Num.len l.
Proof. unfold Num.len. rewrite length_map. reflexivity. Qed.

Lemma fmean_bool_mono (l l' : list bool) (q q' : Q) :
  Forall2 (fun b b' => b = true -> b' = true) l l' ->
  Num.fmean_bool l = Fin q -> Num.fmean_bool l' = Fin q' -> q <= q'.
Proof.
  intros HF. unfold Num.fmean_bool, Num.fmean, Num.fdiv.
  rewrite !length_map_len.
  assert (Hlen : Num.len l' = Num.len l).
  { unfold Num.len. rewrite (Forall2_length HF). reflexivity. }
  rewrite Hlen.
  destruct (Qeq_bool (Num.len l) 0) eqn:Hz.
  { intros H. exfalso.
    destruct (Qeq_bool (Num.sum _) 0) in H; [discriminate H|].
    destruct (Qle_bool 0 _) in H; discriminate H. }
  intros H H'. injection H as <-. injection H' as <-.
  assert (Hpos : 0 < Num.len l).
  { assert (Hn : ~ Num.len l == 0).
    { intros Heq. apply Qeq_eq_bool in Heq. congruence. }
    assert (0 <= Num.len l).
    { unfold Num.len. change 0 with (inject_Z 0). rewrite <- Zle_Qle. lia. }
    lra. }
  unfold Qdiv. apply Qmult_le_compat_r.
  - apply sum_b2q_mono. exact HF.
  - apply Qlt_le_weak, Qinv_lt_0_compat. exact Hpos.
Qed.

Lemma Forall2_map_same {A B : Type} (R : B -> B -> Prop) (f g : A -> B)
  (l : list A) :
  (forall x, R (f x) (g x)) -> Forall2 R (map f l) (map g l).
Proof.
  intros H. induction l as [|x l IH]; simpl; constructor; [apply H | exact IH].
Qed.

Lemma rate_mono (t t' : Q) (rows : list (list Q)) (q q' : Q) :
  t <= t' -> rate t rows = Fin q -> rate t' rows = Fin q' -> q <= q'.
Proof.
  intros Ht. unfold rate. apply fmean_bool_mono.
  apply Forall2_map_same. intros col. apply fl_leb_mono. exact Ht.
Qed.

(** X4.  Raising the threshold never lowers a rate: a neuron (slot)
    counted at [tau] is counted at every larger threshold. *)
Theorem diagnostic_rates_monotone (tau tau' : Q) (activations : list (list Q))
  (q q' : Q) :
  tau <= tau' ->
  (Instrumentation._layer_dormancy tau activations = Fin q ->
   Instrumentation._layer_dormancy tau' activations = Fin q' -> q <= q')
  /\ (Instrumentation._threshold_grad_second_moment tau activations = Fin q ->
      Instrumentation._threshold_grad_second_moment tau' activations = Fin q' ->
      q <= q').
Proof.
  intros Ht. split.
  - apply (@rate_mono tau tau' (map (map Qabs) activations) q q' Ht).
  - apply (@rate_mono tau tau' activations q q' Ht).
Qed.

End RateProperties.

Lemma diagnostic_rates_bounded_witness :
  exists q,
    Instrumentation._layer_dormancy (1 # 10) [[1; -2; 0]; [3; 0; 0]] = Fin q
    /\ 0 <= q <= 1.
Proof.
  destruct (@diagnostic_rates_bounded (1 # 10) (1 # 10)
              [[1; -2; 0]; [3; 0; 0]] [[1; 4]] []) as (H & _).
  apply H. apply Nat.lt_0_succ.
Defined.

Lemma diagnostic_rates_monotone_witness :
  Instrumentation._layer_dormancy (1 # 10) [[1; -2; 0]; [3; 0; 0]]
  = Fin (1 # 3)
  /\ Instrumentation._layer_dormancy 1 [[1; -2; 0]; [3; 0; 0]] = Fin (2 # 3)
  /\ 1 # 3 <= 2 # 3.
Proof.
  destruct (@diagnostic_rates_monotone (1 # 10) 1 [[1; -2; 0]; [3; 0; 0]]
              (1 # 3) (2 # 3)) as (H & _).
  - discriminate.
  - split; [reflexivity|]. split; [reflexivity|].
    apply H; reflexivity.
Defined.

Section ScaleProperties.

Lemma sum_scaled (k : Q) (l' l : list Q) :
  Forall2 (fun a b => a == k * b) l' l -> Num.sum l' == k * Num.sum l.
Proof.
  intros H. induction H as [|a b l' l Hab H IH]; simpl.
  - ring.
  - rewrite Hab, IH. ring.
Qed.

Lemma fmean_scaled (k : Q) (l' l : list Q) :
  0 < k -> Forall2 (fun a b => a == k * b) l' l ->
  fl_scaled k (Num.fmean l') (Num.fmean l).
Proof.
  intros Hk H. unfold Num.fmean, Num.fdiv.
  assert (Hlen : Num.len l' = Num.len l).
  { unfold Num.len. rewrite (Forall2_length H). reflexivity. }
  pose proof (sum_scaled H) as Hs. rewrite Hlen.
  destruct (Qeq_bool (Num.len l) 0).
  - assert (He : Qeq_bool (Num.sum l') 0 = Qeq_bool (Num.sum l) 0).
    { destruct (Qeq_bool (Num.sum l) 0) eqn:H0.
      - apply Qeq_bool_eq in H0. apply Qeq_eq_bool. rewrite Hs, H0. ring.
      - destruct (Qeq_bool (Num.sum l') 0) eqn:H1; [|reflexivity].
        apply Qeq_bool_eq in H1. rewrite Hs in H1.
        assert (Hz : Num.sum l == 0) by nra.
        apply Qeq_eq_bool in Hz. congruence. }
    rewrite He. destruct (Qeq_bool (Num.sum l) 0); [exact I|].
    assert (Hl : Qle_bool 0 (Num.sum l') = Qle_bool 0 (Num.sum l)).
    { destruct (Qle_bool 0 (Num.sum l)) eqn:H0.
      - apply Qle_bool_iff in H0. apply Qle_bool_iff. rewrite Hs. nra.
      - destruct (Qle_bool 0 (Num.sum l')) eqn:H1; [|reflexivity].
        apply Qle_bool_iff in H1. rewrite Hs in H1.
        assert (Hz : 0 <= Num.sum l) by nra.
        apply Qle_bool_iff in Hz. congruence. }
    rewrite Hl. destruct (Qle_bool 0 (Num.sum l)); exact I.
  - simpl. rewrite Hs. unfold Qdiv. ring.
Qed.

Lemma fl_div_scaled (k : Q) (a' a b' b : fl) :
  0 < k -> fl_scaled k a' a -> fl_scaled k b' b ->
  fl_same (Num.fl_div a' b') (Num.fl_div a b).
Proof.
  intros Hk Ha Hb.
  assert (Hsign : forall y' y, y' == k * y ->
            Qle_bool 0 y' = Qle_bool 0 y).
  { intros y' y Hy. destruct (Qle_bool 0 y) eqn:H0.
    - apply Qle_bool_iff in H0. apply Qle_bool_iff. rewrite Hy. nra.
    - destruct (Qle_bool 0 y') eqn:H1; [|reflexivity].
      apply Qle_bool_iff in H1. rewrite Hy in H1.
      assert (Hz : 0 <= y) by nra.
      apply Qle_bool_iff in Hz. congruence. }
  assert (Hzero : forall y' y, y' == k * y ->
            Qeq_bool y' 0 = Qeq_bool y 0).
  { intros y' y Hy. destruct (Qeq_bool y 0) eqn:H0.
    - apply Qeq_bool_eq in H0. apply Qeq_eq_bool. rewrite Hy, H0. ring.
    - destruct (Qeq_bool y' 0) eqn:H1; [|reflexivity].
      apply Qeq_bool_eq in H1. rewrite Hy in H1.
      assert (Hz : y == 0) by nra.
      apply Qeq_eq_bool in Hz. congruence. }
  destruct a' as [x'| | |], a as [x| | |]; try contradiction;
    destruct b' as [y'| | |], b as [y| | |]; try contradiction;
    simpl in *; try exact I; try reflexivity.
  - unfold Num.fdiv. rewrite (Hzero _ _ Hb), (Hzero _ _ Ha), (Hsign _ _ Ha).
    destruct (Qeq_bool y 0) eqn:Hy0.
    + destruct (Qeq_bool x 0); [exact I|].
      destruct (Qle_bool 0 x); exact I.
    + simpl. rewrite Ha, Hb. field. split.
      * intros Hy. apply Qeq_eq_bool in Hy. congruence.
      * lra.
  - rewrite (Hsign _ _ Hb). destruct (Qle_bool 0 y); exact I.
  - rewrite (Hsign _ _ Hb). destruct (Qle_bool 0 y); exact I.
Qed.

Lemma fl_leb_same (a b : fl) (t : Q) :
  fl_same a b -> Num.fl_leb a t = Num.fl_leb b t.
Proof.
  destruct a, b; simpl; try contradiction; try reflexivity.
  intros H. rewrite H. reflexivity.
Qed.

Lemma concat_scaled (k : Q) (rows' rows : list (list Q)) :
  scaled k rows' rows ->
  Forall2 (fun a b => a == k * b) (concat rows') (concat rows).
Proof.
  intros H. induction H as [|r' r rows' rows Hr H IH]; simpl.
  - constructor.
  - apply Forall2_app; assumption.
Qed.

Lemma column_scaled (k : Q) (j : nat) (rows' rows : list (list Q)) :
  scaled k rows' rows ->
  Forall2 (fun a b => a == k * b) (Arr.column j rows') (Arr.column j rows).
Proof.
  intros H. unfold Arr.column.
  induction H as [|r' r rows' rows Hr H IH]; simpl.
  - constructor.
  - apply Forall2_app; [|exact IH].
    clear IH H. revert j. induction Hr as [|a b r' r Hab Hr IHr]; intros j.
    + destruct j; constructor.
    + destruct j as [|j]; simpl.
      * constructor; [exact Hab | constructor].
      * apply IHr.
Qed.

Lemma width_scaled (k : Q) (rows' rows : list (list Q)) :
  scaled k rows' rows -> Arr.width rows' = Arr.width rows.
Proof.
  intros H. destruct H as [|r' r rows' rows Hr H]; simpl;
    [reflexivity | apply (Forall2_length Hr)].
Qed.

(** A rate does not change when every entry is multiplied by one
    positive factor. *)
Lemma rate_scaled (k t : Q) (rows' rows : list (list Q)) :
  0 < k -> scaled k rows' rows -> rate t rows' = rate t rows.
Proof.
  intros Hk H. unfold rate. f_equal.
  unfold Arr.columns. rewrite (width_scaled H), !map_map.
  apply map_ext. intros j. apply fl_leb_same.
  apply fl_div_scaled with (k := k); [exact Hk | |];
    apply fmean_scaled; try exact Hk.
  - apply column_scaled. exact H.
  - apply concat_scaled. exact H.
Qed.

Lemma scaled_map (k : Q) (f g : Q -> Q) (rows : list (list Q)) :
  (forall x, f x == k * g x) ->
  scaled k (map (map f) rows) (map (map g) rows).
Proof.
  intros Hf. unfold scaled.
  induction rows as [|r rows IH]; simpl; constructor; [|exact IH].
  induction r as [|x r IHr]; simpl; constructor; [apply Hf | exact IHr].
Qed.

(** X5.  The diagnostics are scale-free: multiplying every activation of
    a layer by one non-zero factor (in particular, negating them) leaves
    the dormancy rate unchanged, and multiplying every per-sample
    gradient entry of a tensor by one non-zero factor leaves the
    threshold rate of its squares unchanged. *)
Theorem diagnostics_scale_invariant (k tau zeta_abs : Q)
  (activations grads : list (list Q)) :
  ~ k == 0 ->
  Instrumentation._layer_dormancy tau (map (map (Qmult k)) activations)
  = Instrumentation._layer_dormancy tau activations
  /\ Instrumentation._threshold_grad_second_moment zeta_abs
       (map (map Num.square) (map (map (Qmult k)) grads))
     = Instrumentation._threshold_grad_second_moment zeta_abs
         (map (map Num.square) grads).
Proof.
  intros Hk.
  assert (Hmap : forall (f g : Q -> Q) (rows : list (list Q)),
            map (map f) (map (map g) rows)
            = map (map (fun x => f (g x))) rows).
  { intros f g rows. rewrite map_map. apply map_ext. intros r.
    apply map_map. }
  assert (Hsq : 0 < k * k).
  { destruct (Q_dec k 0) as [[H|H]|H]; [nra | nra | contradiction]. }
  split.
  - unfold Instrumentation._layer_dormancy. rewrite Hmap.
    apply (@rate_scaled (Qabs k) tau).
    + destruct (Q_dec k 0) as [[H|H]|H]; [| |contradiction].
      * rewrite Qabs_neg by lra. lra.
      * rewrite Qabs_pos by lra. lra.
    + apply scaled_map. intros x. apply Qabs_Qmult.
  - unfold Instrumentation._threshold_grad_second_moment. rewrite Hmap.
    apply (@rate_scaled (k * k) zeta_abs); [exact Hsq|].
    apply scaled_map. intros x. unfold Num.square. ring.
Qed.

End ScaleProperties.

Lemma diagnostics_scale_invariant_witness :
  Instrumentation._layer_dormancy (1 # 10)
    (map (map (Qmult (-3))) [[1; -2; 0]; [3; 0; 0]])
  = Instrumentation._layer_dormancy (1 # 10) [[1; -2; 0]; [3; 0; 0]].
Proof.
  destruct (@diagnostics_scale_invariant (-3) (1 # 10) (1 # 10)
              [[1; -2; 0]; [3; 0; 0]] [[1; 2]]) as (H & _).
  - discriminate.
  - exact H.
Defined.

(* ===================================================================== *)
(** * Further properties: the advantage estimator *)
(* ===================================================================== *)

Section GAEProperties.

Variables Action Obs Info : Type.
Variable c : config.

Local Abbreviation sample := (Transition Action Obs Info).

Lemma scan_reverse_length {C X Y : Type} (f : C -> X -> C * Y) (init : C)
  (xs : list X) :
  length (snd (Lax.scan_reverse f init xs)) = length xs.
Proof.
  induction xs as [|x xs IH]; simpl; [reflexivity|].
  destruct (Lax.scan_reverse f init xs) as [c0 ys].
  destruct (f c0 x) as [c1 y]. simpl in *. rewrite IH. reflexivity.
Qed.

(** The two arrays of the estimator, column by column. *)
Lemma gae_columns (N : nat) (traj_batch : list (list sample))
  (last_val : list Q) :
  length last_val = N ->
  Forall (fun s => length s = N) traj_batch ->
  length (fst (GAE._calculate_gae c traj_batch last_val))
  = length traj_batch
  /\ Forall (fun r => length r = N)
       (fst (GAE._calculate_gae c traj_batch last_val))
  /\ forall e, (e < N)%nat ->
       Arr.column e (fst (GAE._calculate_gae c traj_batch last_val))
       = GAE.recursion c (Arr.column e traj_batch) (nth e last_val 0)
       /\ Arr.column e (snd (GAE._calculate_gae c traj_batch last_val))
          = Arr.map2 Qplus
              (GAE.recursion c (Arr.column e traj_batch) (nth e last_val 0))
              (map (@value _ _ _) (Arr.column e traj_batch)).
Proof.
  intros Hlv Hshape. unfold GAE._calculate_gae.
  pose proof (scan_reverse_length (GAE._get_advantages c)
                (GAE.zeros_like last_val, last_val) traj_batch) as Hlen.
  destruct (Lax.scan_reverse (GAE._get_advantages c)
              (GAE.zeros_like last_val, last_val) traj_batch)
    as [[g nv] adv] eqn:Hscan.
  destruct (@scan_reverse_columns _ _ _ c N last_val traj_batch Hlv Hshape
              g nv adv Hscan) as (_ & _ & Hadv & Hcols).
  simpl in *. split; [exact Hlen|]. split; [exact Hadv|].
  intros e He. destruct (Hcols e He) as (_ & _ & Hcol).
  split; [exact Hcol|].
  rewrite <- Hcol. apply column_map2_plus with (N := N); assumption.
Qed.

Lemma map2_shape {A B C : Type} (f : A -> B -> C) (N : nat)
  (xs : list (list A)) (ys : list (list B)) :
  length xs = length ys ->
  Forall (fun r => length r = N) xs -> Forall (fun r => length r = N) ys ->
  length (Arr.map2 (Arr.map2 f) xs ys) = length xs
  /\ Forall (fun r => length r = N) (Arr.map2 (Arr.map2 f) xs ys).
Proof.
  intros Hlen Hx. revert ys Hlen.
  induction Hx as [|x xs Hx Hxs IH]; intros ys Hlen Hy.
  - simpl. auto.
  - destruct Hy as [|y ys Hy Hys]; [discriminate|].
    simpl in Hlen. injection Hlen as Hlen.
    destruct (IH ys Hlen Hys) as [IH1 IH2]. simpl. split; [congruence|].
    constructor; [|exact IH2].
    rewrite length_map2, Hx, Hy. apply Nat.min_id.
Qed.

(** X6.  On a trajectory of [T] steps of [N] environments, the
    advantages and the targets are arrays of [T] rows of [N] entries. *)
Theorem gae_shapes (N : nat) (traj_batch : list (list sample))
  (last_val : list Q) :
  length last_val = N ->
  Forall (fun s => length s = N) traj_batch ->
  length (fst (GAE._calculate_gae c traj_batch last_val))
  = length traj_batch
  /\ Forall (fun r => length r = N)
       (fst (GAE._calculate_gae c traj_batch last_val))
  /\ length (snd (GAE._calculate_gae c traj_batch last_val))
     = length traj_batch
  /\ Forall (fun r => length r = N)
       (snd (GAE._calculate_gae c traj_batch last_val)).
Proof.
  intros Hlv Hshape.
  destruct (@gae_columns N traj_batch last_val Hlv Hshape) as (Hlen & Hadv & _).
  split; [exact Hlen|]. split; [exact Hadv|].
  revert Hlen Hadv. unfold GAE._calculate_gae.
  destruct (Lax.scan_reverse (GAE._get_advantages c)
              (GAE.zeros_like last_val, last_val) traj_batch)
    as [[g nv] adv]. simpl. intros Hlen Hadv.
  destruct (@map2_shape _ _ _ Qplus N adv
              (map (map (@value _ _ _)) traj_batch)) as [H1 H2].
  - rewrite length_map. exact Hlen.
  - exact Hadv.
  - apply Forall_map. apply Forall_forall. intros s Hs.
    rewrite length_map. rewrite Forall_forall in Hshape. apply Hshape, Hs.
  - split; [congruence | exact H2].
Qed.

Lemma recursion_lambda0 (col : list sample) (b : Q) :
  GAE_LAMBDA c == 0 ->
  Forall2 Qeq (GAE.recursion c col b) (td_residuals c col b).
Proof.
  intros Hl. induction col as [|t rest IH]; simpl; constructor;
    [|exact IH].
  rewrite Hl. ring.
Qed.

Lemma recursion_reward_minus_value (col : list sample) (b : Q) :
  GAMMA c == 0 \/ Forall (fun t => done t = true) col ->
  Forall2 (fun a t => a == reward t - value t) (GAE.recursion c col b) col.
Proof.
  intros H. induction col as [|t rest IH]; simpl; constructor.
  - destruct H as [Hg|Hd].
    + rewrite Hg. ring.
    + inversion Hd as [|? ? Ht _]. rewrite Ht. simpl. ring.
  - apply IH. destruct H as [Hg|Hd]; [left; exact Hg|].
    right. inversion Hd. assumption.
Qed.

Lemma recursion_lambda1 (col : list sample) (b : Q) :
  GAE_LAMBDA c == 1 ->
  Forall2 Qeq
    (Arr.map2 Qplus (GAE.recursion c col b) (map (@value _ _ _) col))
    (discounted_returns c col b).
Proof.
  intros Hl. induction col as [|t rest IH]; simpl; constructor;
    [|exact IH].
  assert (Hhd : hd b (discounted_returns c rest b)
                == hd 0 (GAE.recursion c rest b) + GAE.next_value rest b).
  { destruct rest as [|t' rest']; simpl in *.
    - ring.
    - inversion IH as [|x y l l' Hxy _]. subst. rewrite <- Hxy. reflexivity. }
  rewrite Hhd, Hl. ring.
Qed.

Lemma Forall2_map2_plus (a : list Q) (col : list sample) :
  Forall2 (fun x t => x == reward t - value t) a col ->
  Forall2 (fun g t => g == reward t)
    (Arr.map2 Qplus a (map (@value _ _ _) col)) col.
Proof.
  intros H. induction H as [|x t a col Hx H IH]; simpl; constructor;
    [|exact IH].
  rewrite Hx. ring.
Qed.

(** X7.  Where the estimator does not look ahead -- [GAMMA] is 0, or
    every step of the environment ends an episode -- the advantage of
    each step is its reward minus its recorded value, and its target is
    its reward. *)
Theorem gae_no_lookahead (N : nat) (traj_batch : list (list sample))
  (last_val : list Q) (e : nat) :
  length last_val = N ->
  Forall (fun s => length s = N) traj_batch ->
  (e < N)%nat ->
  GAMMA c == 0
  \/ Forall (fun t => done t = true) (Arr.column e traj_batch) ->
  Forall2 (fun a t => a == reward t - value t)
    (Arr.column e (fst (GAE._calculate_gae c traj_batch last_val)))
    (Arr.column e traj_batch)
  /\ Forall2 (fun g t => g == reward t)
       (Arr.column e (snd (GAE._calculate_gae c traj_batch last_val)))
       (Arr.column e traj_batch).
Proof.
  intros Hlv Hshape He H.
  destruct (@gae_columns N traj_batch last_val Hlv Hshape) as (_ & _ & Hcols).
  destruct (Hcols e He) as [Hadv Htgt]. rewrite Hadv, Htgt.
  pose proof (@recursion_reward_minus_value _ (nth e last_val 0) H) as HF.
  split; [exact HF | apply Forall2_map2_plus; exact HF].
Qed.

(** X8.  With [GAE_LAMBDA] 0 the advantages are the one-step
    temporal-difference residuals
    [reward_t + GAMMA * V_{t+1} * (1 - done_t) - value_t]. *)
Theorem gae_lambda_zero (N : nat) (traj_batch : list (list sample))
  (last_val : list Q) (e : nat) :
  length last_val = N ->
  Forall (fun s => length s = N) traj_batch ->
  (e < N)%nat ->
  GAE_LAMBDA c == 0 ->
  Forall2 Qeq
    (Arr.column e (fst (GAE._calculate_gae c traj_batch last_val)))
    (td_residuals c (Arr.column e traj_batch) (nth e last_val 0)).
Proof.
  intros Hlv Hshape He H.
  destruct (@gae_columns N traj_batch last_val Hlv Hshape) as (_ & _ & Hcols).
  destruct (Hcols e He) as [Hadv _]. rewrite Hadv.
  apply recursion_lambda0. exact H.
Qed.

(** X9.  With [GAE_LAMBDA] 1 the targets are the discounted returns:
    [target_t = reward_t + GAMMA * (1 - done_t) * target_{t+1}], with the
    bootstrap value after the last step. *)
Theorem gae_lambda_one (N : nat) (traj_batch : list (list sample))
  (last_val : list Q) (e : nat) :
  length last_val = N ->
  Forall (fun s => length s = N) traj_batch ->
  (e < N)%nat ->
  GAE_LAMBDA c == 1 ->
  Forall2 Qeq
    (Arr.column e (snd (GAE._calculate_gae c traj_batch last_val)))
    (discounted_returns c (Arr.column e traj_batch) (nth e last_val 0)).
Proof.
  intros Hlv Hshape He H.
  destruct (@gae_columns N traj_batch last_val Hlv Hshape) as (_ & _ & Hcols).
  destruct (Hcols e He) as [_ Htgt]. rewrite Htgt.
  apply recursion_lambda1. exact H.
Qed.

End GAEProperties.

Lemma gae_shapes_witness :
  length (snd (GAE._calculate_gae (Toy.gae_config (99 # 100) (95 # 100))
                 (Toy.gae_traj 3) [5]))
  = length (Toy.gae_traj 3).
Proof.
  destruct (@gae_shapes unit unit unit (Toy.gae_config (99 # 100) (95 # 100))
              1%nat (Toy.gae_traj 3) [5]) as (_ & _ & H & _).
  - reflexivity.
  - repeat constructor.
  - exact H.
Defined.

Lemma gae_no_lookahead_witness :
  Forall2 (fun g t => g == reward t)
    (Arr.column 0
       (snd (GAE._calculate_gae (Toy.gae_config 0 (95 # 100))
               (Toy.gae_traj 3) [5])))
    (Arr.column 0 (Toy.gae_traj 3)).
Proof.
  destruct (@gae_no_lookahead unit unit unit (Toy.gae_config 0 (95 # 100))
              1%nat (Toy.gae_traj 3) [5] 0%nat) as (_ & H).
  - reflexivity.
  - repeat constructor.
  - apply Nat.lt_0_1.
  - left. reflexivity.
  - exact H.
Defined.

Lemma gae_lambda_zero_witness :
  Forall2 Qeq
    (Arr.column 0
       (fst (GAE._calculate_gae (Toy.gae_config (99 # 100) 0)
               (Toy.gae_traj 3) [5])))
    (td_residuals (Toy.gae_config (99 # 100) 0)
       (Arr.column 0 (Toy.gae_traj 3)) 5).
Proof.
  apply (@gae_lambda_zero unit unit unit (Toy.gae_config (99 # 100) 0)
           1%nat (Toy.gae_traj 3) [5] 0%nat).
  - reflexivity.
  - repeat constructor.
  - apply Nat.lt_0_1.
  - reflexivity.
Defined.

Lemma gae_lambda_one_witness :
  Forall2 Qeq
    (Arr.column 0
       (snd (GAE._calculate_gae (Toy.gae_config (99 # 100) 1)
               (Toy.gae_traj 3) [5])))
    (discounted_returns (Toy.gae_config (99 # 100) 1)
       (Arr.column 0 (Toy.gae_traj 3)) 5).
Proof.
  apply (@gae_lambda_one unit unit unit (Toy.gae_config (99 # 100) 1)
           1%nat (Toy.gae_traj 3) [5] 0%nat).
  - reflexivity.
  - repeat constructor.
  - apply Nat.lt_0_1.
  - reflexivity.
Defined.

(* ===================================================================== *)
(** * Further properties: the loss *)
(* ===================================================================== *)

Section LossProperties.

Context {E : Externals}.
Variable c : train_config.

Local Abbreviation sample := (Transition Action Obs Info).






Lemma clip_cases (x lo hi : Q) :
  lo <= hi ->
  (Num.clip x lo hi == x /\ lo <= x <= hi)
  \/ (Num.clip x lo hi == lo /\ x <= lo)
  \/ (Num.clip x lo hi == hi /\ hi <= x).
Proof.
  intros Hle. unfold Num.clip.
  destruct (Q.max_spec x lo) as [[Hm1 Hm2]|[Hm1 Hm2]];
    destruct (Q.min_spec (Qmax x lo) hi) as [[Hn1 Hn2]|[Hn1 Hn2]];
    rewrite Hn2; rewrite Hm2 in *.
  - right. left. split; [reflexivity | lra].
  - right. left. split; lra.
  - left. split; [reflexivity | lra].
  - right. right. split; [reflexivity | lra].
Qed.

(** X11.  The clipped surrogate of one sample at ratio [r] and advantage
    [A]: it is never below [-(r * A)]; inside the trust region
    [1 - CLIP_EPS <= r <= 1 + CLIP_EPS] it is [-(r * A)]; and it no
    longer depends on the ratio once the ratio has left the region in
    the direction the advantage favours. *)
Theorem actor_loss_clipping (log_prob_new : Q) (t : sample) (gae : Q) :
  0 <= CLIP_EPS c ->
  - (ratio_at log_prob_new t * gae) <= Train.actor_loss c log_prob_new t gae
  /\ (1 - CLIP_EPS c <= ratio_at log_prob_new t <= 1 + CLIP_EPS c ->
      Train.actor_loss c log_prob_new t gae
      == - (ratio_at log_prob_new t * gae))
  /\ (0 <= gae -> 1 + CLIP_EPS c <= ratio_at log_prob_new t ->
      Train.actor_loss c log_prob_new t gae == - ((1 + CLIP_EPS c) * gae))
  /\ (gae <= 0 -> ratio_at log_prob_new t <= 1 - CLIP_EPS c ->
      Train.actor_loss c log_prob_new t gae == - ((1 - CLIP_EPS c) * gae)).
Proof.
  intros Heps. unfold Train.actor_loss, Train.mean0, ratio_at.
  set (r := exp (log_prob_new - log_prob t)).
  assert (Hle : 1 - CLIP_EPS c <= 1 + CLIP_EPS c) by lra.
  pose proof (clip_cases r Hle) as Hk.
  set (k := Num.clip r (1 - CLIP_EPS c) (1 + CLIP_EPS c)) in *.
  destruct (Q.min_spec (r * gae) (k * gae)) as [[Hp1 Hp2]|[Hp1 Hp2]];
    rewrite Hp2; clearbody k r;
    destruct Hk as [[Hk1 Hk2]|[[Hk1 Hk2]|[Hk1 Hk2]]];
    rewrite Hk1 in *; repeat split; intros; try nra;
    [assert (Hr : r == 1 - CLIP_EPS c) by lra
    | assert (Hr : r == 1 + CLIP_EPS c) by lra];
    rewrite Hr; reflexivity.
Qed.

(** X12.  The value loss of one sample is non-negative and at least half
    the squared error of the new value; the clipped prediction stays
    within [CLIP_EPS] of the recorded value; and while the new value is
    within [CLIP_EPS] of the recorded one the loss is exactly half the
    squared error. *)
Theorem critic_loss_clipping (value_new : Q) (t : sample) (targets : Q) :
  0 <= CLIP_EPS c ->
  0 <= Train.critic_loss c value_new t targets
  /\ (1 # 2) * Num.square (value_new - targets)
     <= Train.critic_loss c value_new t targets
  /\ - CLIP_EPS c
     <= Num.clip (value_new - value t) (- CLIP_EPS c) (CLIP_EPS c)
     <= CLIP_EPS c
  /\ (- CLIP_EPS c <= value_new - value t <= CLIP_EPS c ->
      Train.critic_loss c value_new t targets
      == (1 # 2) * Num.square (value_new - targets)).
Proof.
  intros Heps. unfold Train.critic_loss, Train.mean0, Num.square.
  assert (Hle : - CLIP_EPS c <= CLIP_EPS c) by lra.
  pose proof (clip_cases (value_new - value t) Hle) as Hk.
  set (k := Num.clip (value_new - value t) (- CLIP_EPS c) (CLIP_EPS c)) in *.
  destruct (Q.max_spec ((value_new - targets) * (value_new - targets))
              ((value t + k - targets) * (value t + k - targets)))
    as [[Hp1 Hp2]|[Hp1 Hp2]];
    rewrite Hp2; clearbody k;
    destruct Hk as [[Hk1 Hk2]|[[Hk1 Hk2]|[Hk1 Hk2]]];
    rewrite Hk1 in *; repeat split; intros; try nra;
    try (apply Qmult_le_0_compat; [lra | apply square_nonneg]);
    [assert (He : value t + - CLIP_EPS c - targets == value_new - targets)
       by lra
    | assert (He : value t + CLIP_EPS c - targets == value_new - targets)
       by lra];
    rewrite He; reflexivity.
Qed.

End LossProperties.



Lemma actor_loss_clipping_witness :
  - (ratio_at (E := Toy.toy) 1 (Toy.epoch_obs 1) * 3)
  <= Train.actor_loss (E := Toy.toy) Toy.epoch_config 1 (Toy.epoch_obs 1) 3.
Proof.
  destruct (@actor_loss_clipping Toy.toy Toy.epoch_config 1 (Toy.epoch_obs 1) 3)
    as (H & _).
  - vm_compute. discriminate.
  - exact H.
Defined.

Lemma critic_loss_clipping_witness :
  0 <= Train.critic_loss (E := Toy.toy) Toy.epoch_config 2 (Toy.epoch_obs 1) 5.
Proof.
  destruct (@critic_loss_clipping Toy.toy Toy.epoch_config 2 (Toy.epoch_obs 1) 5)
    as (H & _).
  - vm_compute. discriminate.
  - exact H.
Defined.

(* ===================================================================== *)
(** * Further properties: the rollout *)
(* ===================================================================== *)

Section IterFacts.

(** What a successful scan does to a projection of its carry that every
    iteration transforms in one way. *)
Lemma loop_iter {C Y A : Type} (f : C -> M (C * Y)) (mu : C -> A)
  (g : A -> A) :
  (forall c0 t c1 y, f c0 = (t, inr (c1, y)) -> mu c1 = g (mu c0)) ->
  forall n init tr c ys,
    Scan.loop f init n = (tr, inr (c, ys)) -> mu c = Nat.iter n g (mu init).
Proof.
  intros Hf. induction n as [|n IH]; intros init tr c ys Hloop.
  - simpl in Hloop. injection Hloop as _ <- _. reflexivity.
  - simpl in Hloop.
    apply bind_inr in Hloop. destruct Hloop as (t1 & [c1 y] & t2 & H1 & H2 & _).
    apply bind_inr in H2. destruct H2 as (t3 & [c2 ys'] & t4 & H3 & H4 & _).
    injection H4 as _ <- _.
    rewrite (IH _ _ _ _ H3), (Hf _ _ _ _ H1). symmetry. apply Nat.iter_succ_r.
Qed.

Lemma loop_xs_iter {C X Y A : Type} (f : C -> X -> M (C * Y)) (mu : C -> A)
  (g : A -> A) :
  (forall c0 x t c1 y, f c0 x = (t, inr (c1, y)) -> mu c1 = g (mu c0)) ->
  forall xs init tr c ys,
    Scan.loop_xs f init xs = (tr, inr (c, ys)) ->
    mu c = Nat.iter (length xs) g (mu init).
Proof.
  intros Hf. induction xs as [|x xs IH]; intros init tr c ys Hloop.
  - simpl in Hloop. injection Hloop as _ <- _. reflexivity.
  - simpl in Hloop.
    apply bind_inr in Hloop. destruct Hloop as (t1 & [c1 y] & t2 & H1 & H2 & _).
    apply bind_inr in H2. destruct H2 as (t3 & [c2 ys'] & t4 & H3 & H4 & _).
    injection H4 as _ <- _.
    rewrite (IH _ _ _ _ H3), (Hf _ _ _ _ _ H1). symmetry.
    apply Nat.iter_succ_r.
Qed.

Lemma iter_add_Z (n : nat) (k z : Z) :
  Nat.iter n (fun s => s + k)%Z z = (z + Z.of_nat n * k)%Z.
Proof.
  induction n as [|n IH]; [simpl; lia|].
  rewrite Nat.iter_succ, IH. lia.
Qed.

Lemma iter_iter {A : Type} (g : A -> A) (n m : nat) (x : A) :
  Nat.iter n (Nat.iter m g) x = Nat.iter (n * m) g x.
Proof.
  induction n as [|n IH]; [reflexivity|].
  rewrite Nat.iter_succ, IH. simpl. symmetry. apply Nat.iter_add.
Qed.

Lemma loop_trace {C Y : Type} (f : C -> M (C * Y)) (t0 : list event) :
  (forall c0 t c1 y, f c0 = (t, inr (c1, y)) -> t = t0) ->
  forall n init tr c ys,
    Scan.loop f init n = (tr, inr (c, ys)) -> tr = concat (repeat t0 n).
Proof.
  intros Hf. induction n as [|n IH]; intros init tr c ys Hloop.
  - simpl in Hloop. injection Hloop as <- _ _. reflexivity.
  - simpl in Hloop.
    apply bind_inr in Hloop.
    destruct Hloop as (t1 & [c1 y] & t2 & H1 & H2 & ->).
    apply bind_inr in H2. destruct H2 as (t3 & [c2 ys'] & t4 & H3 & H4 & ->).
    injection H4 as <- _ _.
    rewrite (Hf _ _ _ _ H1), (IH _ _ _ _ H3), app_nil_r. reflexivity.
Qed.

Lemma gradient_steps_app (a b : list event) :
  gradient_steps (a ++ b) = (gradient_steps a + gradient_steps b)%nat.
Proof. apply count_occ_app. Qed.

Lemma gradient_steps_concat_repeat (t : list event) (n : nat) :
  gradient_steps (concat (repeat t n)) = (n * gradient_steps t)%nat.
Proof.
  induction n as [|n IH]; [reflexivity|].
  simpl. rewrite gradient_steps_app, IH. reflexivity.
Qed.

Lemma gradient_steps_repeat_env (n : nat) :
  gradient_steps (repeat EnvStep n) = 0%nat.
Proof. induction n as [|n IH]; [reflexivity | exact IH]. Qed.

Lemma gradient_steps_repeat_apply (n : nat) :
  gradient_steps (repeat ApplyGradients n) = n.
Proof.
  induction n as [|n IH]; [reflexivity|].
  unfold gradient_steps in *. simpl. rewrite IH. reflexivity.
Qed.

Lemma gradient_steps_step_trace (c : train_config) :
  gradient_steps (step_trace c)
  = (Z.to_nat (UPDATE_EPOCHS c) * Z.to_nat (NUM_MINIBATCHES c))%nat.
Proof.
  unfold step_trace.
  rewrite gradient_steps_app, gradient_steps_repeat_env,
    gradient_steps_concat_repeat, gradient_steps_repeat_apply.
  reflexivity.
Qed.

Lemma loop_ext {C Y : Type} (f g : C -> M (C * Y)) :
  (forall c0, f c0 = g c0) ->
  forall n init, Scan.loop f init n = Scan.loop g init n.
Proof.
  intros Hfg. induction n as [|n IH]; intros init; [reflexivity|].
  simpl. rewrite Hfg. unfold bind at 1 3.
  destruct (g init) as [t [e|[c1 y]]]; [reflexivity|].
  rewrite IH. reflexivity.
Qed.

End IterFacts.

Section RolloutProperties.

Context {E : Externals}.
Variable c : train_config.

Local Abbreviation sample := (Transition Action Obs Info).

Lemma advance_add (n m : nat) (rng : Key) :
  advance (n + m) rng = advance n (advance m rng).
Proof. apply Nat.iter_add. Qed.

(** What one environment step returns. *)
Lemma env_step_result (rs : Train.runner) :
  exists rs' transition,
    Train._env_step c rs = ([EnvStep], inr (rs', transition))
    /\ state_of rs' = state_of rs
    /\ key_of rs' = advance 2 (key_of rs)
    /\ (forall e t, nth_error transition e = Some t ->
          nth_error (obs_of rs) e = Some (obs t)
          /\ recorded_under (ts_params (state_of rs)) t).
Proof.
  destruct rs as [[[ts es] last_obs] rng].
  unfold Train._env_step, state_of, key_of, obs_of, advance. cbn [fst snd].
  simpl Nat.iter.
  destruct (split rng) as [rng1 _rng1]. cbn [fst].
  destruct (split rng1) as [rng2 _rng2]. cbn [fst].
  destruct (env_step (split_n _rng2 (NUM_ENVS c)) es _)
    as [[[[obsv es'] reward] done] info].
  eexists (ts, es', obsv, rng2), _. split; [reflexivity|].
  cbn [fst snd]. split; [reflexivity|]. split; [reflexivity|].
  intros e t Ht. unfold Train.zap in Ht.
  repeat match goal with
         | H : nth_error (Arr.map2 _ _ _) _ = Some _ |- _ =>
             apply nth_error_map2_Some in H;
             destruct H as (? & ? & ? & ? & ?)
         | H : nth_error (map _ _) _ = Some _ |- _ =>
             apply nth_error_map_Some in H; destruct H as (? & ? & ?)
         end.
  subst. unfold recorded_under, on_policy, new_log_prob. simpl.
  split; [assumption|]. split; congruence.
Qed.

(** X13.  One environment step never raises and steps the environment
    once, with the actions sampled from the policy at the observations
    it started from; it hands on the model state unchanged, the key
    after two splits, and the observations and state the environment
    returned.  Transition number [e] holds observation number [e] the
    step started from, the action sampled for it, the reward and the
    termination flag the environment returned for it, and the value and
    the log-probability the network gives at that observation under the
    parameters of the model state. *)
Theorem env_step_records (rs : Train.runner) :
  exists rs' transition,
    Train._env_step c rs = ([EnvStep], inr (rs', transition))
    /\ state_of rs' = state_of rs
    /\ key_of rs' = advance 2 (key_of rs)
    /\ obs_of rs' = fst (fst (fst (fst (env_response c rs))))
    /\ env_of rs' = snd (fst (fst (fst (env_response c rs))))
    /\ (forall e t, nth_error transition e = Some t ->
          nth_error (obs_of rs) e = Some (obs t)
          /\ nth_error (sampled_actions rs) e = Some (action t)
          /\ nth_error (snd (fst (fst (env_response c rs)))) e
             = Some (reward t)
          /\ nth_error (snd (fst (env_response c rs))) e = Some (done t)
          /\ recorded_under (ts_params (state_of rs)) t).
Proof.
  destruct rs as [[[ts es] last_obs] rng].
  unfold Train._env_step, env_response, sampled_actions, state_of,
    key_of, obs_of, env_of, advance.
  cbn [fst snd]. simpl Nat.iter.
  destruct (split rng) as [rng1 _rng1]. cbn [fst snd].
  destruct (split rng1) as [rng2 _rng2]. cbn [fst snd].
  rewrite map_map.
  destruct (env_step (split_n _rng2 (NUM_ENVS c)) es _)
    as [[[[obsv es'] reward] done] info].
  eexists (ts, es', obsv, rng2), _. split; [reflexivity|].
  cbn [fst snd]. do 4 (split; [reflexivity|]).
  intros e t Ht. unfold Train.zap in Ht.
  repeat match goal with
         | H : nth_error (Arr.map2 _ _ _) _ = Some _ |- _ =>
             apply nth_error_map2_Some in H;
             destruct H as (? & ? & ? & ? & ?)
         | H : nth_error (map _ _) _ = Some _ |- _ =>
             apply nth_error_map_Some in H; destruct H as (? & ? & ?)
         end.
  subst. unfold recorded_under, on_policy, new_log_prob. simpl.
  repeat (split; [assumption|]). split; congruence.
Qed.

Lemma env_step_key (rs : Train.runner) (t : list event)
  (rs' : Train.runner) (y : list sample) :
  Train._env_step c rs = (t, inr (rs', y)) ->
  key_of rs' = advance 2 (key_of rs).
Proof.
  intros H. destruct (env_step_result rs) as (r & y' & Hs & _ & Hk & _).
  rewrite Hs in H. injection H as _ <- _. exact Hk.
Qed.

Lemma rollout_records (n : nat) (rs rs' : Train.runner)
  (tr : list event) (traj : list (list sample)) :
  Scan.loop (Train._env_step c) rs n = (tr, inr (rs', traj)) ->
  Forall (Forall (recorded_under (ts_params (state_of rs)))) traj
  /\ (forall row, hd_error traj = Some row ->
        forall e t, nth_error row e = Some t ->
          nth_error (obs_of rs) e = Some (obs t)).
Proof.
  revert rs tr traj. induction n as [|n IH]; intros rs tr traj Hloop.
  - simpl in Hloop. injection Hloop as _ _ <-. split; [constructor|].
    discriminate.
  - destruct (env_step_result rs) as (r1 & y & Hs & Hst & _ & Hrec).
    rewrite (loop_step _ _ _ Hs) in Hloop.
    apply bind_inr in Hloop. destruct Hloop as (t1 & [] & t2 & _ & H & _).
    apply bind_inr in H. destruct H as (t3 & [c2 ys] & t4 & H3 & H4 & _).
    cbn [fst snd] in H4. injection H4 as _ <- <-.
    destruct (IH _ _ _ H3) as [Hall _]. rewrite Hst in Hall.
    split.
    + constructor; [|exact Hall].
      apply Forall_forall. intros t Ht. apply In_nth_error in Ht.
      destruct Ht as [e He]. apply (Hrec e t He).
    + intros row Hrow. injection Hrow as <-. intros e t He.
      apply (Hrec e t He).
Qed.

(** X14.  The rollout of a positive [NUM_STEPS] returns under either
    mode: it steps the environment [NUM_STEPS] times and applies no
    gradient, hands on the model state unchanged and the key after
    [2 * NUM_STEPS] splits, and returns [NUM_STEPS] rows of transitions,
    all of them recorded under the parameters the rollout started with,
    the first row at the observations it started from.  With
    [NUM_STEPS] 0 the compiled scan returns its input and an empty
    trajectory, and under [disable_jit] the scan is refused. *)
Theorem rollout_collects (rs : Train.runner) :
  ((0 < NUM_STEPS c)%Z ->
   forall md, exists rs' traj,
     Scan.scan_length md (Train._env_step c) rs (NUM_STEPS c)
     = (repeat EnvStep (Z.to_nat (NUM_STEPS c)), inr (rs', traj))
     /\ gradient_steps (repeat EnvStep (Z.to_nat (NUM_STEPS c))) = 0%nat
     /\ state_of rs' = state_of rs
     /\ key_of rs' = advance (2 * Z.to_nat (NUM_STEPS c)) (key_of rs)
     /\ length traj = Z.to_nat (NUM_STEPS c)
     /\ Forall (Forall (recorded_under (ts_params (state_of rs)))) traj
     /\ (forall row, hd_error traj = Some row ->
           forall e t, nth_error row e = Some t ->
             nth_error (obs_of rs) e = Some (obs t)))
  /\ (NUM_STEPS c = 0%Z ->
      Scan.scan_length Compiled (Train._env_step c) rs (NUM_STEPS c)
      = ([], inr (rs, []))
      /\ Scan.scan_length Eager (Train._env_step c) rs (NUM_STEPS c)
         = ([], inl ValueError)).
Proof.
  split.
  - intros Hpos md.
    destruct (@rollout_total E c md rs) as (rs' & traj & Hscan & Hst & Hlen);
      [right; exact Hpos|].
    exists rs', traj. split; [exact Hscan|].
    rewrite scan_length_passes in Hscan by (right; exact Hpos).
    destruct (rollout_records _ _ Hscan) as [Hall Hfirst].
    split.
    { unfold gradient_steps. generalize (Z.to_nat (NUM_STEPS c)).
      intros n. induction n as [|n IH]; [reflexivity | exact IH]. }
    split; [exact Hst|]. split.
    { rewrite (@loop_iter _ _ _ (Train._env_step c) key_of
                 (Nat.iter 2 (fun k => fst (split k))) env_step_key
                 _ _ _ _ _ Hscan).
      unfold advance. rewrite iter_iter, Nat.mul_comm. reflexivity. }
    split; [exact Hlen|]. split; [exact Hall | exact Hfirst].
  - intros H0. rewrite H0. split; reflexivity.
Qed.

End RolloutProperties.

(* ===================================================================== *)
(** * Further properties: the update step *)
(* ===================================================================== *)

Section UpdateProperties.

Context {E : Externals}.
Variable c : train_config.

Local Abbreviation sample := (Transition Action Obs Info).

Lemma apply_gradients_step (ts : TrainState) (grads : params) :
  ts_step (apply_gradients ts grads) = (ts_step ts + 1)%Z.
Proof.
  unfold apply_gradients.
  destruct (tx_update grads (ts_opt_state ts) (ts_params ts)). reflexivity.
Qed.

Lemma update_minbatch_returns (ts ts' : TrainState)
  (batch : list sample * list Q * list Q) (t : list event) (li : loss_info) :
  Train._update_minbatch c ts batch = (t, inr (ts', li)) ->
  t = [ApplyGradients] /\ ts_step ts' = (ts_step ts + 1)%Z.
Proof.
  destruct batch as [[mt ma] mg]. unfold Train._update_minbatch.
  rewrite update_minbatch_unfold. intros H. injection H as <- <- _.
  split; [reflexivity | apply apply_gradients_step].
Qed.

(** An epoch that returns ran one optimizer step per minibatch, and
    nothing else. *)
Lemma update_epoch_returns (md : mode) (st st' : Train.update_state)
  (tr : list event) (lis : list loss_info) :
  Train._update_epoch c md st = (tr, inr (st', lis)) ->
  tr = repeat ApplyGradients (Z.to_nat (NUM_MINIBATCHES c))
  /\ ts_step (fst (fst (fst (fst st'))))
     = (ts_step (fst (fst (fst (fst st))))
        + Z.of_nat (Z.to_nat (NUM_MINIBATCHES c)))%Z
  /\ snd st' = fst (split (snd st)).
Proof.
  destruct st as [[[[ts traj] adv] tgt] rng]. intros H.
  destruct (@update_epoch_inversion _ c _ _ _ _ _ _ _ _ _ H) as (Hassert & _).
  rewrite (update_epoch_unfold c md ts traj adv tgt rng Hassert) in H.
  fold (epoch_batches c rng traj adv tgt) in H.
  apply bind_inr in H. destruct H as (t1 & [ts' lis'] & t2 & H1 & H2 & ->).
  injection H2 as <- <- _. cbn [fst snd]. rewrite app_nil_r.
  apply scan_xs_inr in H1.
  destruct (@loop_xs_total _ _ _ (Train._update_minbatch c) ApplyGradients)
    with (xs := epoch_batches c rng traj adv tgt) (init := ts)
    as (ts0 & lis0 & Hloop).
  { intros ts1 [[mt ma] mg]. unfold Train._update_minbatch.
    rewrite update_minbatch_unfold. eauto. }
  assert (Ht : t1 = repeat ApplyGradients (Z.to_nat (NUM_MINIBATCHES c))).
  { rewrite Hloop in H1. injection H1 as <- _ _.
    rewrite length_epoch_batches. reflexivity. }
  split; [exact Ht|]. split; [|reflexivity].
  rewrite (@loop_xs_iter _ _ _ _ (Train._update_minbatch c) (@ts_step E)
             (fun s => s + 1)%Z) with (1 := fun c0 x t c1 y H =>
               proj2 (@update_minbatch_returns c0 c1 x t y H))
             (2 := H1).
  rewrite iter_add_Z, length_epoch_batches. lia.
Qed.

(** An update step that returns ran its rollout and then its epochs. *)
Lemma update_step_returns (md : mode) (rs : Train.runner) (tr : list event)
  (rs' : Train.runner) (m : metric) :
  Train._update_step c md rs = (tr, inr (rs', m)) ->
  exists rs1 traj,
    Scan.loop (Train._env_step c) rs (Z.to_nat (NUM_STEPS c))
    = (repeat EnvStep (Z.to_nat (NUM_STEPS c)), inr (rs1, traj))
    /\ tr = step_trace c
    /\ env_of rs' = env_of rs1
    /\ obs_of rs' = obs_of rs1
    /\ key_of rs' = advance (Z.to_nat (UPDATE_EPOCHS c)) (key_of rs1)
    /\ ts_step (state_of rs')
       = (ts_step (state_of rs)
          + Z.of_nat (Z.to_nat (UPDATE_EPOCHS c))
            * Z.of_nat (Z.to_nat (NUM_MINIBATCHES c)))%Z.
Proof.
  intros H. unfold Train._update_step in H.
  apply bind_inr in H.
  destruct H as (tr1 & [[[[ts es] lo] rng] traj] & t2 & Hroll & H & ->).
  apply bind_inr in H. destruct H as (t3 & [] & t4 & Hguard & H & ->).
  assert (t3 = []) as ->.
  { unfold Scan.guard in Hguard.
    destruct md; [destruct (_ <=? 0)%Z|]; inversion Hguard; reflexivity. }
  destruct (Train.advantages_and_targets c ts lo traj) as [adv tgt].
  apply bind_inr in H.
  destruct H as (tr2 & [[[[[ts' a] b] d] rng'] epochs] & t5 & Hep & H & ->).
  injection H as <- <- _.
  apply scan_length_inr in Hroll. apply scan_length_inr in Hep.
  destruct (rollout_loop c (Z.to_nat (NUM_STEPS c)) rs)
    as (rs1 & traj1 & Hloop & Hst & _).
  rewrite Hloop in Hroll. injection Hroll as <- -> ->.
  exists (ts, es, lo, rng), traj. split; [exact Hloop|].
  unfold env_of, obs_of, key_of. cbn [fst snd].
  split; [|split; [reflexivity|split; [reflexivity|split]]].
  - rewrite (@loop_trace _ _ (Train._update_epoch c md)
               (repeat ApplyGradients (Z.to_nat (NUM_MINIBATCHES c)))
               (fun c0 t c1 y H => proj1 (@update_epoch_returns md c0 c1 t y H))
               _ _ _ _ _ Hep).
    simpl. rewrite app_nil_r. reflexivity.
  - pose proof (@loop_iter _ _ _ (Train._update_epoch c md)
               (fun st : Train.update_state => snd st)
               (fun k => fst (split k))
               (fun c0 t c1 y H =>
                  proj2 (proj2 (@update_epoch_returns md c0 c1 t y H)))
               _ _ _ _ _ Hep) as Hk.
    cbn [fst snd] in Hk. exact Hk.
  - pose proof (@loop_iter _ _ _ (Train._update_epoch c md)
               (fun st : Train.update_state =>
                  ts_step (fst (fst (fst (fst st)))))
               (fun s => s + Z.of_nat (Z.to_nat (NUM_MINIBATCHES c)))%Z
               (fun c0 t c1 y H =>
                  proj1 (proj2 (@update_epoch_returns md c0 c1 t y H)))
               _ _ _ _ _ Hep) as Hk.
    cbn [fst snd] in Hk. rewrite iter_add_Z in Hk.
    unfold state_of in *. cbn [fst snd] in *. rewrite <- Hst. exact Hk.
Qed.

(** X15.  The step counter of the model state counts the optimizer
    steps.  An update step that returns has executed its rollout and
    then [UPDATE_EPOCHS * NUM_MINIBATCHES] optimizer steps, and the
    counter has advanced by that number; a run that returns has executed
    [NUM_UPDATES] such update steps and nothing else, and its counter,
    which started at 0, is
    [NUM_UPDATES * UPDATE_EPOCHS * NUM_MINIBATCHES]. *)
Theorem optimizer_step_counter (md : mode) :
  (0 <= NUM_UPDATES c)%Z -> (0 <= UPDATE_EPOCHS c)%Z ->
  (0 <= NUM_MINIBATCHES c)%Z ->
  (forall rs tr rs' m,
     Train._update_step c md rs = (tr, inr (rs', m)) ->
     tr = step_trace c
     /\ Z.of_nat (gradient_steps tr)
        = (UPDATE_EPOCHS c * NUM_MINIBATCHES c)%Z
     /\ ts_step (state_of rs')
        = (ts_step (state_of rs) + UPDATE_EPOCHS c * NUM_MINIBATCHES c)%Z)
  /\ (forall rng tr out,
        Train.train c md rng = (tr, inr out) ->
        tr = run_trace c
        /\ Z.of_nat (gradient_steps tr)
           = (NUM_UPDATES c * (UPDATE_EPOCHS c * NUM_MINIBATCHES c))%Z
        /\ ts_step (state_of (Train.runner_state out))
           = (NUM_UPDATES c * (UPDATE_EPOCHS c * NUM_MINIBATCHES c))%Z).
Proof.
  intros HU HE HM.
  assert (Hstep : forall rs tr rs' m,
            Train._update_step c md rs = (tr, inr (rs', m)) ->
            tr = step_trace c
            /\ ts_step (state_of rs')
               = (ts_step (state_of rs)
                  + UPDATE_EPOCHS c * NUM_MINIBATCHES c)%Z).
  { intros rs tr rs' m H.
    destruct (@update_step_returns md rs tr rs' m H)
      as (_ & _ & _ & Htr & _ & _ & _ & Hts).
    split; [exact Htr|]. rewrite Hts, !Z2Nat.id by lia. reflexivity. }
  split.
  - intros rs tr rs' m H. destruct (Hstep _ _ _ _ H) as [-> Hts].
    split; [reflexivity|]. split; [|exact Hts].
    rewrite gradient_steps_step_trace, Nat2Z.inj_mul, !Z2Nat.id by lia.
    reflexivity.
  - intros rng tr out H. unfold Train.train in H.
    apply bind_inr in H. destruct H as (t1 & [rs ms] & t2 & Hscan & H & ->).
    injection H as <- <-. cbn [Train.runner_state]. rewrite app_nil_r.
    apply scan_length_inr in Hscan.
    assert (Ht : t1 = run_trace c).
    { apply (@loop_trace _ _ (Train._update_step c md) (step_trace c)
               (fun c0 t c1 y H => proj1 (Hstep c0 t c1 y H))
               _ _ _ _ _ Hscan). }
    split; [exact Ht|]. split.
    + rewrite Ht. unfold run_trace.
      rewrite gradient_steps_concat_repeat, gradient_steps_step_trace,
        !Nat2Z.inj_mul, !Z2Nat.id by lia.
      reflexivity.
    + rewrite (@loop_iter _ _ _ (Train._update_step c md)
                 (fun r => ts_step (state_of r))
                 (fun s => s + UPDATE_EPOCHS c * NUM_MINIBATCHES c)%Z
                 (fun c0 t c1 y H => proj2 (Hstep c0 t c1 y H))
                 _ _ _ _ _ Hscan).
      rewrite iter_add_Z, initial_state, Z2Nat.id by lia. reflexivity.
Qed.

(** X16.  The epochs of an update step never touch the environment: the
    environment state and the observations an update step hands on are
    those its rollout ended with, its trace holds the [NUM_STEPS]
    environment steps of the rollout and no other, and the key it hands
    on is the key it received after [2 * NUM_STEPS + UPDATE_EPOCHS]
    splits. *)
Theorem update_step_hands_on (md : mode) (rs rs' : Train.runner)
  (tr : list event) (m : metric) :
  Train._update_step c md rs = (tr, inr (rs', m)) ->
  exists rs1 traj,
    Scan.loop (Train._env_step c) rs (Z.to_nat (NUM_STEPS c))
    = (repeat EnvStep (Z.to_nat (NUM_STEPS c)), inr (rs1, traj))
    /\ env_of rs' = env_of rs1
    /\ obs_of rs' = obs_of rs1
    /\ env_steps tr = Z.to_nat (NUM_STEPS c)
    /\ key_of rs'
       = advance (Z.to_nat (UPDATE_EPOCHS c) + 2 * Z.to_nat (NUM_STEPS c))
           (key_of rs).
Proof.
  intros H.
  destruct (@update_step_returns md rs tr rs' m H)
    as (rs1 & traj & Hloop & -> & Henv & Hobs & Hkey & _).
  exists rs1, traj. split; [exact Hloop|]. split; [exact Henv|].
  split; [exact Hobs|]. split.
  - unfold step_trace.
    rewrite env_steps_app, env_steps_repeat_env, env_steps_updates. lia.
  - rewrite Hkey, advance_add. f_equal.
    rewrite (@loop_iter _ _ _ (Train._env_step c) key_of
               (Nat.iter 2 (fun k => fst (split k)))
               (@env_step_key E c) _ _ _ _ _ Hloop).
    unfold advance. rewrite iter_iter, Nat.mul_comm. reflexivity.
Qed.

End UpdateProperties.

(* ===================================================================== *)
(** * Further properties: the two execution modes *)
(* ===================================================================== *)

Section ModeProperties.

Context {E : Externals}.
Variable c : train_config.

Local Abbreviation sample := (Transition Action Obs Info).

Lemma update_epoch_mode (st : Train.update_state) :
  (0 < NUM_MINIBATCHES c)%Z ->
  Train._update_epoch c Eager st = Train._update_epoch c Compiled st.
Proof.
  intros HM. destruct st as [[[[ts traj] adv] tgt] rng].
  destruct (Z.eq_dec (Train.batch_size c) (NUM_STEPS c * NUM_ENVS c))
    as [Hassert|Hne].
  - rewrite !(update_epoch_unfold c _ ts traj adv tgt rng Hassert).
    fold (epoch_batches c rng traj adv tgt).
    rewrite !scan_xs_passes;
      [reflexivity | left; reflexivity
      | right; rewrite length_epoch_batches; lia].
  - rewrite !(@update_epoch_raises E c _ _ Hne). reflexivity.
Qed.

Lemma update_step_mode (rs : Train.runner) :
  (0 < NUM_STEPS c)%Z -> (0 < UPDATE_EPOCHS c)%Z ->
  (0 < NUM_MINIBATCHES c)%Z ->
  Train._update_step c Eager rs = Train._update_step c Compiled rs.
Proof.
  intros HS HE HM. unfold Train._update_step.
  destruct (@rollout_total E c Eager rs) as (rs1 & traj & Hr1 & _ & Hlen);
    [right; exact HS|].
  destruct (@rollout_total E c Compiled rs) as (rs2 & traj2 & Hr2 & _);
    [left; reflexivity|].
  rewrite Hr1, Hr2.
  rewrite !scan_length_passes in Hr1, Hr2
    by first [right; exact HS | left; reflexivity].
  rewrite Hr1 in Hr2. injection Hr2 as <- <-.
  rewrite !bind_ret_l. destruct rs1 as [[[ts es] lo] rng]. cbn [fst snd].
  rewrite !guard_passes
    by first [left; reflexivity | right; rewrite Hlen; lia].
  rewrite !bind_ret_l. cbn [fst snd].
  destruct (Train.advantages_and_targets c ts lo traj) as [adv tgt].
  rewrite !scan_length_passes
    by first [right; exact HE | left; reflexivity].
  rewrite (@loop_ext _ _ (Train._update_epoch c Eager)
             (Train._update_epoch c Compiled)
             (fun st => update_epoch_mode st HM)).
  reflexivity.
Qed.

(** X17.  When the assertion of line 298 holds and every scanned length
    is positive, the run under [jax.disable_jit] and the compiled run
    execute the same events and return the same value: [main] returns
    it whatever [DISABLE_JIT] is. *)
Theorem disable_jit_same_run (rng : Key) :
  (0 < NUM_UPDATES c)%Z -> (0 < NUM_STEPS c)%Z ->
  (0 < UPDATE_EPOCHS c)%Z -> (0 < NUM_MINIBATCHES c)%Z ->
  Train.batch_size c = (NUM_STEPS c * NUM_ENVS c)%Z ->
  exists out,
    Train.train c Eager rng = (run_trace c, inr out)
    /\ Train.train_jit c rng = (run_trace c, inr out)
    /\ (forall cfg, make_train cfg = inr c ->
          Train.main cfg rng = (run_trace c, inr out)).
Proof.
  intros HU HS HE HM Hassert.
  assert (Heq : Train.train c Eager rng = Train.train c Compiled rng).
  { unfold Train.train.
    rewrite !scan_length_passes
      by first [right; exact HU | left; reflexivity].
    rewrite (@loop_ext _ _ (Train._update_step c Eager)
               (Train._update_step c Compiled)
               (fun rs => update_step_mode rs HS HE HM)).
    reflexivity. }
  assert (Hjit : Train.train_jit c rng = Train.train c Compiled rng).
  { unfold Train.train_jit. rewrite trace_train_spec, Hassert, Z.eqb_refl.
    reflexivity. }
  destruct (@train_total E c Compiled rng Hassert) as (out & Hrun & _);
    [left; reflexivity | left; reflexivity|].
  exists out. rewrite Hjit, Heq. split; [exact Hrun|]. split; [exact Hrun|].
  intros cfg Hmake. unfold Train.main. rewrite Hmake.
  destruct (DISABLE_JIT cfg); [rewrite Heq | rewrite Hjit]; exact Hrun.
Qed.

End ModeProperties.

Lemma rollout_collects_witness :
  exists rs' traj,
    Scan.scan_length Eager (Train._env_step Toy.epoch_config)
      Toy.rollout_start (NUM_STEPS Toy.epoch_config)
    = ([EnvStep; EnvStep], inr (rs', traj))
    /\ state_of rs' = state_of Toy.rollout_start
    /\ length traj = 2%nat.
Proof.
  destruct (@rollout_collects Toy.toy Toy.epoch_config Toy.rollout_start)
    as (H & _).
  destruct (H eq_refl Eager) as (rs' & traj & Hscan & _ & Hst & _ & Hlen & _).
  exists rs', traj. split; [exact Hscan|]. split; [exact Hst | exact Hlen].
Defined.

Lemma optimizer_step_counter_witness :
  ts_step (state_of (fst Toy.step_end)) = 2%Z.
Proof.
  destruct (@optimizer_step_counter Toy.toy Toy.epoch_config Compiled)
    as (H & _); try discriminate.
  destruct (H Toy.rollout_start
              [EnvStep; EnvStep; ApplyGradients; ApplyGradients]
              (fst Toy.step_end) (snd Toy.step_end))
    as (_ & _ & Hts).
  - etransitivity; [exact toy_step_returns|].
    destruct Toy.step_end. reflexivity.
  - rewrite Hts. reflexivity.
Defined.

Lemma update_step_hands_on_witness :
  env_steps [EnvStep; EnvStep; ApplyGradients; ApplyGradients] = 2%nat
  /\ key_of (fst Toy.step_end) = advance 5 (key_of Toy.rollout_start).
Proof.
  destruct (@update_step_hands_on Toy.toy Toy.epoch_config Compiled
              Toy.rollout_start (fst Toy.step_end)
              [EnvStep; EnvStep; ApplyGradients; ApplyGradients]
              (snd Toy.step_end))
    as (rs1 & traj & _ & _ & _ & Hsteps & Hkey).
  - etransitivity; [exact toy_step_returns|].
    destruct Toy.step_end. reflexivity.
  - split; [exact Hsteps | exact Hkey].
Defined.

Lemma disable_jit_same_run_witness :
  exists out,
    Train.train (E := Toy.toy) Toy.epoch_config Eager 0%nat
    = (run_trace Toy.epoch_config, inr out)
    /\ Train.train_jit (E := Toy.toy) Toy.epoch_config 0%nat
       = (run_trace Toy.epoch_config, inr out).
Proof.
  destruct (@disable_jit_same_run Toy.toy Toy.epoch_config 0%nat)
    as (out & H1 & H2 & _); try reflexivity.
  exists out. split; [exact H1 | exact H2].
Defined.

(* ===================================================================== *)
(** * Further properties: failing runs *)
(* ===================================================================== *)

Section FailureProperties.

Context {E : Externals}.

Lemma train_eager_fails (c : train_config) (rng : Key) (tr : list event)
  (e : error) :
  (0 < NUM_STEPS c)%Z -> (0 <= UPDATE_EPOCHS c)%Z ->
  (0 < NUM_MINIBATCHES c)%Z -> (0 <= NUM_UPDATES c)%Z ->
  Train.train c Eager rng = (tr, inl e) ->
  (tr = [] /\ e = ValueError /\ NUM_UPDATES c = 0%Z)
  \/ (tr = repeat EnvStep (Z.to_nat (NUM_STEPS c)) /\ e = ValueError
      /\ UPDATE_EPOCHS c = 0%Z)
  \/ (tr = repeat EnvStep (Z.to_nat (NUM_STEPS c)) /\ e = AssertionError
      /\ Train.batch_size c <> (NUM_STEPS c * NUM_ENVS c)%Z).
Proof.
  intros HS HE HM HU H.
  destruct (Z.eq_dec (NUM_UPDATES c) 0) as [HU0|HUpos].
  - left. unfold Train.train, Scan.scan_length, Scan.guard in H.
    rewrite HU0 in H. simpl in H. injection H as <- <-. auto.
  - right.
    assert (Hn : exists n, Z.to_nat (NUM_UPDATES c) = S n).
    { destruct (Z.to_nat (NUM_UPDATES c)) as [|n] eqn:Hn; [lia | eauto]. }
    destruct Hn as [n Hn].
    unfold Train.train in H.
    rewrite scan_length_passes in H by (right; lia). rewrite Hn in H.
    destruct (Z.eq_dec (UPDATE_EPOCHS c) 0) as [HE0|HEpos].
    + left.
      rewrite (loop_raises _ _ n
                 (@update_step_no_epochs E c (Train.initial_runner c rng) HS
                    ltac:(lia))) in H.
      simpl in H. injection H as <- <-. auto.
    + right.
      destruct (Z.eq_dec (Train.batch_size c) (NUM_STEPS c * NUM_ENVS c))
        as [Hassert|Hne].
      * exfalso.
        destruct (@train_total E c Eager rng Hassert) as (out & Hrun & _).
        { right. repeat split; lia. }
        { right. lia. }
        unfold Train.train in Hrun.
        rewrite scan_length_passes in Hrun by (right; lia).
        rewrite Hn in Hrun. rewrite Hrun in H. discriminate H.
      * destruct (@update_step_raises E c (Train.initial_runner c rng) Hne)
          as [_ Hpos].
        rewrite (loop_raises _ _ n (Hpos HS ltac:(lia))) in H.
        simpl in H. injection H as <- <-. auto.
Qed.

(** X18.  A run that fails has updated nothing.  For a configuration
    with no negative count, [main] raises either before it executes
    anything or right after the environment steps of the first rollout,
    and never after an optimizer step: [ZeroDivisionError] from
    [make_train] and the assertion error of the traced function come
    before anything runs; under [disable_jit] the assertion error comes
    after the first rollout, and a zero-length scan is refused at the
    start ([NUM_UPDATES] 0) or after the first rollout
    ([UPDATE_EPOCHS] 0). *)
Theorem run_fails_before_updating (cfg : config) (rng : Key)
  (tr : list event) (e : error) :
  (0 <= TOTAL_TIMESTEPS cfg)%Z -> (0 <= NUM_STEPS cfg)%Z ->
  (0 <= NUM_ENVS cfg)%Z -> (0 <= NUM_MINIBATCHES cfg)%Z ->
  (0 <= UPDATE_EPOCHS cfg)%Z ->
  Train.main cfg rng = (tr, inl e) ->
  gradient_steps tr = 0%nat
  /\ (tr = [] \/ tr = repeat EnvStep (Z.to_nat (NUM_STEPS cfg)))
  /\ (e = ZeroDivisionError ->
      tr = [] /\ make_train cfg = inl ZeroDivisionError)
  /\ (e = AssertionError ->
      violates_batch_invariant cfg
      /\ (tr = [] <-> DISABLE_JIT cfg = false))
  /\ (e = ValueError -> DISABLE_JIT cfg = true).
Proof.
  intros HT HS HN HM HE H. unfold Train.main in H.
  destruct (make_train cfg) as [e0|c] eqn:Hmake.
  - injection H as <- <-.
    assert (e0 = ZeroDivisionError) as ->.
    { unfold make_train, Py.floordiv, Py.bind in Hmake.
      repeat match type of Hmake with
             | context [(?x =? 0)%Z] => destruct (x =? 0)%Z
             end; congruence. }
    split; [reflexivity|]. split; [left; reflexivity|].
    split; [auto|]. split; discriminate.
  - destruct (@make_train_inr cfg c Hmake)
      as (Hbase & HS0 & HN0 & HM0 & _ & Hsize).
    destruct (@updates_bound (TOTAL_TIMESTEPS cfg) (NUM_STEPS cfg)
                (NUM_ENVS cfg)) as (HU & _); try lia.
    destruct (@make_train_inr cfg c Hmake) as (_ & _ & _ & _ & Hup & _).
    rewrite <- Hup in HU. subst cfg.
    assert (Hviol : Train.batch_size c <> (NUM_STEPS c * NUM_ENVS c)%Z ->
              violates_batch_invariant c).
    { intros Hne. exists c. split; [exact Hmake|].
      unfold Train.batch_size in Hne. lia. }
    destruct (DISABLE_JIT c) eqn:Hjit.
    + destruct (@train_eager_fails c rng tr e) as [(-> & -> & _)|[(-> & -> & _)|(-> & -> & Hne)]];
        try lia; try exact H.
      * split; [reflexivity|]. split; [left; reflexivity|].
        split; [discriminate|]. split; [discriminate | reflexivity].
      * split; [apply gradient_steps_repeat_env|].
        split; [right; reflexivity|].
        split; [discriminate|]. split; [discriminate | reflexivity].
      * split; [apply gradient_steps_repeat_env|].
        split; [right; reflexivity|].
        split; [discriminate|]. split; [|discriminate].
        intros _. split; [exact (Hviol Hne)|].
        split; [|discriminate]. intros Hnil.
        destruct (Z.to_nat (NUM_STEPS c)) eqn:Hn; [lia | discriminate Hnil].
    + unfold Train.train_jit in H. rewrite trace_train_spec in H.
      destruct (Z.eqb_spec (Train.batch_size c) (NUM_STEPS c * NUM_ENVS c))
        as [Hassert|Hne].
      * exfalso.
        destruct (@train_total E c Compiled rng Hassert) as (out & Hrun & _);
          [left; reflexivity | left; reflexivity|].
        rewrite Hrun in H. discriminate H.
      * injection H as <- <-.
        split; [reflexivity|]. split; [left; reflexivity|].
        split; [discriminate|]. split; [|discriminate].
        intros _. split; [exact (Hviol Hne)|]. split; reflexivity.
Qed.

End FailureProperties.

Lemma run_fails_before_updating_witness :
  Train.main (E := Toy.toy) (Toy.toy_config 2 2 3 true 8) 0%nat
  = ([EnvStep; EnvStep], inl AssertionError)
  /\ gradient_steps [EnvStep; EnvStep] = 0%nat
  /\ violates_batch_invariant (Toy.toy_config 2 2 3 true 8).
Proof.
  assert (Hrun : Train.main (E := Toy.toy) (Toy.toy_config 2 2 3 true 8) 0%nat
                 = ([EnvStep; EnvStep], inl AssertionError))
    by (vm_compute; reflexivity).
  destruct (@run_fails_before_updating Toy.toy (Toy.toy_config 2 2 3 true 8)
              0%nat [EnvStep; EnvStep] AssertionError)
    as (Hg & _ & _ & Ha & _); try discriminate.
  - exact Hrun.
  - split; [exact Hrun|]. split; [exact Hg|]. apply Ha. reflexivity.
Defined.
